(** * dotsmap: point classification, chunk scheduling and result cache

    A shallow embedding of the parts of [fast-worker.js] and
    [cache-manager.js] that the specification's testable properties talk
    about, together with the theorems that settle them.

    Conventions of the embedding.
    - A JavaScript number that holds a coordinate, a radius or a distance is
      a rational ([Q]); arithmetic is exact, where the source rounds to a
      double.  Numbers that the source only ever produces as integers
      (pixel columns, grid cell corners, sizes) are [Z] or [nat].
    - Angles are kept in degrees.  The source stores a circle radius in
      radians and converts with [* 180 / Math.PI]; the embedding stores the
      radius already converted, so [Math.PI / 2.5] is [72], [Math.PI / 4]
      is [45], [Math.PI / 3] is [60] and [Math.PI / 3.5] is [360 / 7].
      The distance oracle returns degrees as well.
    - The d3 library ([geoContains], [geoDistance], [geoBounds],
      [geoCentroid], the projections and their [invert]) is outside the
      repository: it enters as a record of functions ([Geo.D3]), and the
      theorems hold for every such record.
    - A JavaScript [Map] whose iteration order matters is an association
      list in insertion order; one that is only read by key is a [gmap]. *)

From Stdlib Require Import ZArith QArith Qround Qabs Qminmax Lia List Bool.
From Stdlib Require Import String Lqa.
From stdpp Require Import gmap strings list pretty.
Import ListNotations.

Local Open Scope Z_scope.

(** ** JavaScript number helpers *)

Module JS.

(** [Math.trunc] on a rational: rounding towards zero. *)
Definition trunc (q : Q) : Z := Z.quot (Qnum q) (Zpos (Qden q)).

(** The [%] operator: the remainder has the sign of the dividend. *)
Definition rem (a b : Q) : Q := (a - b * inject_Z (trunc (a / b)))%Q.

(** [a < b] and [a <= b] as booleans. *)
Definition leb (a b : Q) : bool := Qle_bool a b.
Definition ltb (a b : Q) : bool := negb (Qle_bool b a).

(** [Math.floor], [Math.ceil] and [Math.round] (half rounds up). *)
Definition floor (q : Q) : Z := Qfloor q.
Definition ceil (q : Q) : Z := Qceiling q.
Definition round (q : Q) : Z := Qfloor (q + (1 # 2))%Q.

(** [Math.ceil(a / b)] for integers [a] and [b]. *)
Definition ceil_div (a b : Z) : Z := - ((- a) / b).

(** A number as a projection may return it: finite, infinite or [NaN]. *)
Inductive Num : Type :=
  | Fin (q : Q)
  | PosInf
  | NegInf
  | NaN.

Definition isNaN (n : Num) : bool :=
  match n with NaN => true | _ => false end.

Definition isFinite (n : Num) : bool :=
  match n with Fin _ => true | _ => false end.

(** [Math.abs(n) <= bound] for a finite [bound]. *)
Definition absLeb (n : Num) (bound : Q) : bool :=
  match n with Fin q => leb (Qabs q) bound | _ => false end.

End JS.

(** ** Exceptions

    A computation that returns a value or throws; [throw] carries the
    [name] of the error object. *)

Inductive Exc (A : Type) : Type :=
  | Ok (a : A)
  | Throw (name : string).
Arguments Ok {A} a.
Arguments Throw {A} name.

(** [x ← m; k] runs [m] and passes its value on; a throw goes through. *)
Global Instance Exc_ret : MRet Exc := fun A a => Ok a.
Global Instance Exc_bind : MBind Exc := fun A B k m =>
  match m with
  | Ok a => k a
  | Throw e => Throw e
  end.

(** [try { m } catch (e) { handler e }]. *)
Definition tryCatch {A : Type} (m : Exc A) (handler : string -> Exc A) : Exc A :=
  match m with
  | Ok a => Ok a
  | Throw e => handler e
  end.

(** ** Longitude wrap ([wrapLongitude], fast-worker.js) *)

Definition wrapLongitude (lon : Q) : Q :=
  let lon1 := (JS.rem (lon + 180) 360 - 180)%Q in
  let lon2 := if JS.leb lon1 (-180) then (lon1 + 360)%Q else lon1 in
  if JS.ltb 180 lon2 then (lon2 - 360)%Q else lon2.

(** ** Loops and insertion-ordered maps *)

(** [for (x = lo; x < hi; x += step)]: the values [x] takes.  The fuel
    [hi - lo] is enough whenever [step >= 1] (lemma [js_range_In]). *)
Fixpoint for_range (fuel : nat) (x hi step : Z) : list Z :=
  match fuel with
  | O => []
  | S f => if x <? hi then x :: for_range f (x + step) hi step else []
  end.

Definition js_range (lo hi step : Z) : list Z :=
  for_range (Z.to_nat (hi - lo)) lo hi step.

(** A JavaScript [Map]: entries in insertion order; [set] on a key that is
    present replaces the value where it stands. *)
Module JSMap.
Section Ops.
Context {K V : Type} `{EqDecision K}.

Definition t := list (K * V).

Definition has (k : K) (m : t) : bool :=
  existsb (fun e => bool_decide (fst e = k)) m.

Fixpoint get (k : K) (m : t) : option V :=
  match m with
  | [] => None
  | (k', v) :: m' => if decide (k' = k) then Some v else get k m'
  end.

Fixpoint set (k : K) (v : V) (m : t) : t :=
  match m with
  | [] => [(k, v)]
  | (k', v') :: m' =>
      if decide (k' = k) then (k', v) :: m' else (k', v') :: set k v m'
  end.

Definition keys (m : t) : list K := map fst m.
Definition values (m : t) : list V := map snd m.
Definition size (m : t) : nat := length m.

Fixpoint delete (k : K) (m : t) : t :=
  match m with
  | [] => []
  | (k', v) :: m' => if decide (k' = k) then m' else (k', v) :: delete k m'
  end.
End Ops.
End JSMap.

(** ** Chunk scheduler ([WorkerPool.calculateDotsParallel], cache-manager.js) *)

Module Scheduler.

(** One point of the result: [{x, y, countryName, coords}]. *)
Record Dot := mkDot {
  dot_x : Q;
  dot_y : Q;
  countryName : option string;
  coords : option (JS.Num * JS.Num)
}.

(** A chunk handed to a worker (the query parameters it repeats are left
    out: they are the same in every chunk). *)
Record Chunk := mkChunk {
  startX : Z; endX : Z; startY : Z; endY : Z
}.

(** The body of the loop over worker indices: the state is the chunks
    pushed so far and [lastEndX]. *)
Definition chunkStep (width height spacing chunkWidth : Z)
    (st : list Chunk * Z) (i : Z) : list Chunk * Z :=
  let '(chunks, lastEndX) := st in
  let startX0 := i * chunkWidth in
  let endX0 := Z.min (startX0 + chunkWidth) width in
  let startX1 := (startX0 / spacing) * spacing in
  let startX2 := if startX1 <? lastEndX then lastEndX else startX1 in
  let endX1 := Z.min (JS.ceil_div endX0 spacing * spacing) width in
  if (startX2 <? width) && (startX2 <? endX1)
  then (chunks ++ [mkChunk startX2 endX1 0 height], endX1)
  else (chunks, lastEndX).

Definition computeChunks (numWorkers : nat) (width height spacing : Z)
  : list Chunk :=
  let chunkWidth := JS.ceil_div width (Z.of_nat numWorkers) in
  fst (fold_left (chunkStep width height spacing chunkWidth)
         (map Z.of_nat (seq 0 numWorkers)) ([], 0)).

(** The columns a worker visits in [processChunk]:
    [for (x = startX; x < endX; x += spacing)]. *)
Definition columns (spacing : Z) (c : Chunk) : list Z :=
  js_range (startX c) (endX c) spacing.

(** Chunks that follow each other without a gap from [from] to [to]. *)
Fixpoint contiguous (from : Z) (chunks : list Chunk) (to : Z) : Prop :=
  match chunks with
  | [] => from = to
  | c :: rest =>
      startX c = from /\ from < endX c /\ contiguous (endX c) rest to
  end.

(** The invariant of the loop over worker indices, after the indices
    below [i]: the chunks pushed so far tile [0, lastEndX), their columns
    are the grid columns below [lastEndX], and [lastEndX] has reached the
    raw start of chunk [i]. *)
Definition chunk_inv (width spacing chunkWidth i : Z)
    (st : list Chunk * Z) : Prop :=
  let '(chunks, lastEndX) := st in
  contiguous 0 chunks lastEndX /\
  flat_map (columns spacing) chunks = js_range 0 lastEndX spacing /\
  lastEndX <= width /\
  (lastEndX = width \/ exists k, 0 <= k /\ lastEndX = 0 + k * spacing) /\
  Z.min (i * chunkWidth) width <= lastEndX.

(** [Math.max(...xs)] and [Math.min(...xs)] on a list that is not empty
    (the caller skips empty chunks). *)
Definition maxList (x : Q) (xs : list Q) : Q := fold_left Qmax xs x.
Definition minList (x : Q) (xs : list Q) : Q := fold_left Qmin xs x.

(** First pass, one step: what becomes of [results[i + 1]] given
    [results[i]]. *)
Definition dropBoundary (spacing : Z) (currentChunk nextChunk : list Dot)
  : list Dot :=
  match map dot_x currentChunk, map dot_x nextChunk with
  | c :: cs, n :: ns =>
      let currentMaxX := maxList c cs in
      let nextMinX := minList n ns in
      if JS.ltb (Qabs (currentMaxX - nextMinX)) (inject_Z spacing)
      then filter (fun d => negb (JS.round (dot_x d) =? JS.round nextMinX))
             nextChunk
      else nextChunk
  | _, _ => nextChunk
  end.

(** First pass: [for (i = 0; i < results.length - 1; i++)], where
    [results[i + 1]] is overwritten before it becomes the current chunk. *)
Fixpoint boundaryPassFrom (spacing : Z) (currentChunk : list Dot)
    (rest : list (list Dot)) : list (list Dot) :=
  match rest with
  | [] => [currentChunk]
  | nextChunk :: rest' =>
      currentChunk ::
      boundaryPassFrom spacing (dropBoundary spacing currentChunk nextChunk) rest'
  end.

Definition boundaryPass (spacing : Z) (results : list (list Dot))
  : list (list Dot) :=
  match results with
  | [] => []
  | c :: rest => boundaryPassFrom spacing c rest
  end.

(** Two chunks that follow each other are apart when the first pass finds
    their boundary columns at least [spacing] from each other (or one of
    them is empty): the first pass then leaves the second chunk alone. *)
Definition apart (spacing : Z) (currentChunk nextChunk : list Dot) : Prop :=
  match map dot_x currentChunk, map dot_x nextChunk with
  | c :: cs, n :: ns =>
      (inject_Z spacing <= Qabs (maxList c cs - minList n ns))%Q
  | _, _ => True
  end.

Fixpoint chunksApartFrom (spacing : Z) (currentChunk : list Dot)
    (rest : list (list Dot)) : Prop :=
  match rest with
  | [] => True
  | nextChunk :: rest' =>
      apart spacing currentChunk nextChunk /\
      chunksApartFrom spacing nextChunk rest'
  end.

Definition chunksApart (spacing : Z) (results : list (list Dot)) : Prop :=
  match results with
  | [] => True
  | c :: rest => chunksApartFrom spacing c rest
  end.

(** Second pass: the key of a dot, and the [dotMap] that keeps the first
    dot of every key. *)
Definition dotKey (d : Dot) : Z * Z := (JS.round (dot_x d), JS.round (dot_y d)).

Definition dotMapAdd (dotMap : JSMap.t (K:=Z * Z) (V:=Dot)) (d : Dot)
  : JSMap.t (K:=Z * Z) (V:=Dot) :=
  if JSMap.has (dotKey d) dotMap then dotMap else JSMap.set (dotKey d) d dotMap.

Definition finalPass (allDots : list Dot) : list Dot :=
  JSMap.values (fold_left dotMapAdd allDots []).

(** What [dotMap] satisfies all along: no key twice, and every dot stored
    under its own key. *)
Definition dotMap_ok (m : JSMap.t (K:=Z * Z) (V:=Dot)) : Prop :=
  NoDup (JSMap.keys m) /\ Forall (fun e => fst e = dotKey (snd e)) m.

Definition totalLength (results : list (list Dot)) : nat :=
  length (concat results).

(** Both passes, as in [calculateDotsParallel]: the dots that are returned
    and [duplicatesRemoved]. *)
Definition dedup (spacing : Z) (results : list (list Dot)) : list Dot * nat :=
  let results' := boundaryPass spacing results in
  let removedA := (totalLength results - totalLength results')%nat in
  let allDots := concat results' in
  let final := finalPass allDots in
  (final, (removedA + (length allDots - length final))%nat).

End Scheduler.

(** ** Bounding circles and the spatial grid (fast-worker.js) *)

Module Geo.

Inductive RegionType : Type :=
  | antarctica | russia | usa_main | usa_alaska | polar | standard.

Global Instance RegionType_eq_dec : EqDecision RegionType.
Proof. solve_decision. Defined.

(** A bounding circle; [radius] is in degrees (see the conventions). *)
Record Bounds := mkBounds {
  center : Q * Q;
  radius : Q;
  isPolar : bool;
  crossesAntimeridian : bool;
  isSpecialRegion : bool;
  regionType : RegionType
}.

(** A projection: [invert] returns [null], or a pair of numbers, or throws. *)
Definition Projection : Type := Z * Z -> Exc (option (JS.Num * JS.Num)).

(** The d3 functions the worker calls.  [geoContains] may throw on a
    degenerate geometry; [geoDistance] returns degrees. *)
Record D3 (Feature : Type) := mkD3 {
  geoBounds : Feature -> (Q * Q) * (Q * Q);
  geoCentroid : Feature -> Q * Q;
  geoContains : Feature -> Q * Q -> Exc bool;
  geoDistance : Q * Q -> Q * Q -> Q;
  setupProjection : string -> Z -> Z -> Projection
}.
Arguments geoBounds {Feature}.
Arguments geoCentroid {Feature}.
Arguments geoContains {Feature}.
Arguments geoDistance {Feature}.
Arguments setupProjection {Feature}.

Definition GRID_SIZE : Z := 10.

(** [((lon + 180) % 360) - 180] on an integer cell corner. *)
Definition wrapCell (lon : Z) : Z := Z.rem (lon + 180) 360 - 180.

(** [getGridCell]: the key of the cell of a coordinate, as the pair
    (latitude, longitude) that the source joins with a comma. *)
Definition getGridCell (coordinates : Q * Q) : Z * Z :=
  let '(lon, lat) := coordinates in
  let gridLat := JS.floor (lat / inject_Z GRID_SIZE) * GRID_SIZE in
  let gridLon := JS.floor (lon / inject_Z GRID_SIZE) * GRID_SIZE in
  (gridLat, wrapCell gridLon).

Section WithFeature.
Context {Feature : Type}.
Variable d3 : D3 Feature.

(** An element of [countryCircles] and of a grid cell. *)
Record Entry := mkEntry { country : Feature; bounds : Bounds }.

(** The sample point [(i, j)] of [calculateCircularBounds]. *)
Definition samplePoint (minLon minLat maxLon maxLat : Q)
    (crosses : bool) (sampleCount : Z) (i j : Z) : Q * Q :=
  let lat := (minLat + (maxLat - minLat) *
              (inject_Z i / inject_Z sampleCount))%Q in
  let lon :=
    if crosses then
      let span := JS.rem (360 + maxLon - minLon) 360 in
      let lon := (minLon + span * (inject_Z j / inject_Z sampleCount))%Q in
      if JS.ltb 180 lon then (lon - 360)%Q else lon
    else (minLon + (maxLon - minLon) *
          (inject_Z j / inject_Z sampleCount))%Q in
  (lon, lat).

(** The body of the two sampling loops: [maxDistance] after one point. *)
Definition sampleStep (geometry : Feature) (centroid : Q * Q)
    (maxDistance : Q) (point : Q * Q) : Exc Q :=
  inside ← geoContains d3 geometry point;
  if inside : bool
  then Ok (Qmax maxDistance (geoDistance d3 centroid point))
  else Ok maxDistance.

Fixpoint foldExc {A B : Type} (f : A -> B -> Exc A) (l : list B) (a : A)
  : Exc A :=
  match l with
  | [] => Ok a
  | b :: l' => a' ← f a b; foldExc f l' a'
  end.

Definition samplePoints (minLon minLat maxLon maxLat : Q)
    (crosses : bool) (sampleCount : Z) : list (Q * Q) :=
  flat_map (fun i =>
    map (fun j => samplePoint minLon minLat maxLon maxLat crosses sampleCount i j)
      (js_range 0 (sampleCount + 1) 1))
    (js_range 0 (sampleCount + 1) 1).

(** [calculateCircularBounds]: one circle, or two for the USA (the
    source returns an object or an array, and the caller flattens). *)
Definition calculateCircularBounds (geometry : Feature) : Exc (list Bounds) :=
  let '((minLon, minLat), (maxLon, maxLat)) := geoBounds d3 geometry in
  let isPolar := JS.ltb 80 (Qabs minLat) || JS.ltb 80 (Qabs maxLat) in
  let crossesAntimeridian :=
    JS.ltb maxLon minLon || JS.ltb 350 (maxLon - minLon) in
  let centroid := geoCentroid d3 geometry in
  let isRussia := JS.ltb 50 (snd centroid) && JS.ltb 60 (fst centroid)
                  && JS.ltb (fst centroid) 180 in
  let isUSA := JS.ltb 30 (snd centroid) && JS.ltb (fst centroid) (-30)
               && JS.ltb (-180) (fst centroid) in
  let isAntarctica := JS.ltb (snd centroid) (-60) in
  if isAntarctica then
    Ok [mkBounds (0, -90)%Q 72 true true true antarctica]
  else if isRussia then
    Ok [mkBounds (100, 65)%Q 72 true true true russia]
  else if isUSA then
    Ok [mkBounds centroid 45 false false true usa_main;
        mkBounds (-170, 65)%Q (360 / 7)%Q true true true usa_alaska]
  else if isPolar && JS.ltb 60 ((minLat + maxLat) / 2) then
    Ok [mkBounds centroid 60 true crossesAntimeridian false polar]
  else
    let sampleCount := if isPolar then 100 else 50 in
    maxDistance ←
      foldExc (sampleStep geometry centroid)
        (samplePoints minLon minLat maxLon maxLat crossesAntimeridian sampleCount)
        0%Q;
    Ok [mkBounds centroid
          (maxDistance * (if crossesAntimeridian then 12 # 10 else 102 # 100))
          isPolar crossesAntimeridian false standard].

(** [countryCircles = world.features.flatMap(...)]. *)
Definition buildCountryCircles (features : list Feature) : Exc (list Entry) :=
  foldExc (fun acc country =>
             bs ← calculateCircularBounds country;
             Ok (acc ++ map (mkEntry country) bs))
    features [].

(** The cell corners that [initializeSpatialGrid] walks for a circle. *)
Definition latCells (b : Bounds) : list Z :=
  let minLat := Z.max (-90)
    (JS.floor ((snd (center b) - radius b) / inject_Z GRID_SIZE) * GRID_SIZE) in
  let maxLat := Z.min 90
    (JS.ceil ((snd (center b) + radius b) / inject_Z GRID_SIZE) * GRID_SIZE) in
  js_range minLat maxLat GRID_SIZE.

Definition lonCells (b : Bounds) : list Z :=
  let minLon :=
    JS.floor ((fst (center b) - radius b) / inject_Z GRID_SIZE) * GRID_SIZE in
  let maxLon :=
    JS.ceil ((fst (center b) + radius b) / inject_Z GRID_SIZE) * GRID_SIZE in
  js_range minLon maxLon GRID_SIZE.

(** [if (!has(key)) set(key, []); get(key).push(entry)]. *)
Definition gridPush (grid : gmap (Z * Z) (list Entry)) (key : Z * Z)
    (e : Entry) : gmap (Z * Z) (list Entry) :=
  <[key := default [] (grid !! key) ++ [e]]> grid.

Definition addCircle (grid : gmap (Z * Z) (list Entry)) (e : Entry)
  : gmap (Z * Z) (list Entry) :=
  fold_left (fun g lat =>
    fold_left (fun g' lon => gridPush g' (lat, wrapCell lon) e)
      (lonCells (bounds e)) g)
    (latCells (bounds e)) grid.

(** [initializeSpatialGrid]: the grid is cleared and filled from
    [countryCircles]. *)
Definition initializeSpatialGrid (countryCircles : list Entry)
  : gmap (Z * Z) (list Entry) :=
  fold_left addCircle countryCircles ∅.

(** [spatialGrid.get(cell) || []]. *)
Definition cellCandidates (grid : gmap (Z * Z) (list Entry))
    (coordinates : Q * Q) : list Entry :=
  default [] (grid !! getGridCell coordinates).

(** The cell with corner [(lat, lon)], 10 degrees wide and high, meets the
    inside of the box [center ± radius] of the circle, the latitude kept
    within [-90, 90]. *)
Definition overlapsCell (b : Bounds) (lat lon : Z) : Prop :=
  (exists k, lat = GRID_SIZE * k) /\ (exists k, lon = GRID_SIZE * k) /\
  -90 <= lat < 90 /\
  (snd (center b) - radius b < inject_Z (lat + GRID_SIZE))%Q /\
  (inject_Z lat < snd (center b) + radius b)%Q /\
  (fst (center b) - radius b < inject_Z (lon + GRID_SIZE))%Q /\
  (inject_Z lon < fst (center b) + radius b)%Q.

(** How often the build pushes a circle under the key [key]: once for
    every corner it walks whose key that is. *)
Definition hitsInRow (key : Z * Z) (lat : Z) (lons : list Z) : nat :=
  length (filter (fun lon => bool_decide ((lat, wrapCell lon) = key)) lons).

Definition hits (key : Z * Z) (e : Entry) : nat :=
  list_sum (map (fun lat => hitsInRow key lat (lonCells (bounds e)))
              (latCells (bounds e))).

(** The circles of a country, [[]] if their computation throws. *)
Definition boundsOf (c : Feature) : list Bounds :=
  match calculateCircularBounds c with
  | Ok bs => bs
  | Throw _ => []
  end.

(** The entries that a country contributes to the cell [key], in the
    order of the build. *)
Definition cellGroup (key : Z * Z) (c : Feature) : list Entry :=
  flat_map (fun e => repeat e (hits key e)) (map (mkEntry c) (boundsOf c)).
End WithFeature.

End Geo.

(** ** Point classification, lookup map and chunk processing (fast-worker.js)

    The counters of [debugInfo] are left out: they are written and never
    read by the functions below. *)

Module Classifier.
Import Geo.

(** [countryLookupMap] *)
Record LookupMap := mkLookupMap {
  data : list Z;
  mapWidth : Z;
  mapHeight : Z;
  resolution : Z
}.

(** The parameters of [calculateDots]; [processChunk] adds the chunk. *)
Record Query := mkQuery {
  width : Z;
  height : Z;
  projectionName : string;
  spacing : Z;
  showOceanDots : bool
}.

Section WithFeature.
Context {Feature : Type} `{EqDecision Feature}.
Variable d3 : D3 Feature.

(** The module-level variables of the worker. *)
Record World := mkWorld {
  features : list Feature;
  countryCircles : list (Entry (Feature:=Feature));
  spatialGrid : gmap (Z * Z) (list (Entry (Feature:=Feature)));
  countryLookupMap : option LookupMap;
  currentProjection : option Projection
}.

Definition withProjection (w : World) (p : Projection) : World :=
  mkWorld (features w) (countryCircles w) (spatialGrid w)
    (countryLookupMap w) (Some p).
Definition withLookupMap (w : World) (m : LookupMap) : World :=
  mkWorld (features w) (countryCircles w) (spatialGrid w)
    (Some m) (currentProjection w).

(** [currentProjection.invert(point)]; with no projection set the call
    throws a [TypeError]. *)
Definition invert (w : World) (point : Z * Z)
  : Exc (option (JS.Num * JS.Num)) :=
  match currentProjection w with
  | Some p => p point
  | None => Throw "TypeError"
  end.

(** [isValidCoordinate] *)
Definition isValidCoordinate (coordinates : JS.Num * JS.Num) : bool :=
  let '(lon, lat) := coordinates in
  negb (JS.isNaN lon) && negb (JS.isNaN lat) &&
  JS.absLeb lat 90 && JS.isFinite lon.

(** [d3.geoContains(country, [testLon, lat])] for the candidates in turn,
    up to the first that holds: the loop with [return] and [lons.some]. *)
Fixpoint containsAny (country : Feature) (lat : Q) (lons : list Q) : Exc bool :=
  match lons with
  | [] => Ok false
  | testLon :: rest =>
      inside ← geoContains d3 country (testLon, lat);
      if inside : bool then Ok true else containsAny country lat rest
  end.

(** [for (const {country, bounds} of entries) if (test) return country]. *)
Fixpoint firstMatch (test : Entry -> Exc bool) (entries : list Entry)
  : Exc (option Feature) :=
  match entries with
  | [] => Ok None
  | e :: rest =>
      hit ← test e;
      if hit : bool then Ok (Some (country e)) else firstMatch test rest
  end.

Definition alaskaLons (lon : Q) : list Q :=
  lon :: (if JS.ltb lon (-170) then [(lon + 360)%Q] else []).

Definition testLons (lon : Q) : list Q :=
  lon :: (if JS.ltb 150 lon then [(lon - 360)%Q] else []) ++
         (if JS.ltb lon (-150) then [(lon + 360)%Q] else []).

Definition alaskaTest (lon lat : Q) (e : Entry) : Exc bool :=
  if decide (regionType (bounds e) = usa_alaska)
  then containsAny (country e) lat (alaskaLons lon)
  else Ok false.

Definition specialTest (lon lat : Q) (e : Entry) : Exc bool :=
  if isSpecialRegion (bounds e)
  then containsAny (country e) lat (testLons lon)
  else Ok false.

Definition withinBounds (lons : list Q) (lat : Q) (b : Bounds) : bool :=
  existsb (fun testLon =>
             JS.leb (geoDistance d3 (center b) (testLon, lat)) (radius b)) lons.

Definition generalTest (lons : list Q) (lat : Q) (e : Entry) : Exc bool :=
  if isPolar (bounds e) || crossesAntimeridian (bounds e)
  then containsAny (country e) lat lons
  else if withinBounds lons lat (bounds e)
       then containsAny (country e) lat lons
       else Ok false.

(** The candidates of the general path.  The source collects them in a
    [Set]; every element of a grid cell is an object of its own, so the
    set holds them all, in this order. *)
Definition candidates (w : World) (lons : list Q) (lat : Q) : list Entry :=
  flat_map (fun testLon => cellCandidates (spatialGrid w) (testLon, lat)) lons.

(** The three tiers on a valid coordinate, longitude already wrapped. *)
Definition classify (w : World) (lon lat : Q) : Exc (option Feature) :=
  alaska ←
    (if JS.ltb 50 lat && JS.ltb lon (-150)
     then firstMatch (alaskaTest lon lat) (countryCircles w)
     else Ok None);
  match alaska with
  | Some c => Ok (Some c)
  | None =>
      let isNearAntimeridian := JS.ltb 150 lon || JS.ltb lon (-150) in
      let isHighLatitude := JS.ltb 60 (Qabs lat) in
      special ←
        (if isHighLatitude || isNearAntimeridian
         then firstMatch (specialTest lon lat) (countryCircles w)
         else Ok None);
      match special with
      | Some c => Ok (Some c)
      | None =>
          let lons := testLons lon in
          firstMatch (generalTest lons lat) (candidates w lons lat)
      end
  end.

(** The [try] block of [getCountryAtPointSlow]. *)
Definition getCountryAtPointSlowBody (w : World) (point : Z * Z)
  : Exc (option Feature) :=
  coordinates ← invert w point;
  match coordinates with
  | None => Ok None
  | Some c =>
      if negb (isValidCoordinate c) then Ok None else
      match c with
      | (JS.Fin lon, JS.Fin lat) => classify w (wrapLongitude lon) lat
      | _ => Ok None   (* not reached: a valid coordinate is finite *)
      end
  end.

(** [getCountryAtPointSlow]: the body under [try], [null] on a throw. *)
Definition getCountryAtPointSlow (w : World) (point : Z * Z)
  : Exc (option Feature) :=
  tryCatch (getCountryAtPointSlowBody w point) (fun _ => Ok None).

(** [getCountryAtPointFast] *)
Definition getCountryAtPointFast (w : World) (point : Z * Z)
  : Exc (option Feature) :=
  match countryLookupMap w with
  | None => getCountryAtPointSlow w point
  | Some m =>
      let x := fst point / resolution m in
      let y := snd point / resolution m in
      if (x <? 0) || (mapWidth m <=? x) || (y <? 0) || (mapHeight m <=? y)
      then Ok None
      else
        let index := nth (Z.to_nat (y * mapWidth m + x)) (data m) 0 in
        if 0 <? index
        then Ok (features w !! Z.to_nat (index - 1))
        else Ok None
  end.

(** [isPointInProjection] *)
Definition isPointInProjection (w : World) (point : Z * Z) : bool :=
  match invert w point with
  | Ok (Some (lon, lat)) =>
      negb (JS.isNaN lon) && negb (JS.isNaN lat) &&
      JS.absLeb lat 90 && JS.absLeb lon 180
  | _ => false
  end.

(** [world.features.indexOf(country) + 1] *)
Fixpoint indexOf (c : Feature) (l : list Feature) : Z :=
  match l with
  | [] => -1
  | c' :: l' =>
      if decide (c' = c) then 0
      else let i := indexOf c l' in if i <? 0 then -1 else i + 1
  end.

(** [buildCountryLookupMap]: the world afterwards (the progress
    messages are left out). *)
Definition buildCountryLookupMap (w : World) (width height : Z)
    (projectionName : string) (resolution : Z) : Exc World :=
  let w1 := withProjection w (setupProjection d3 projectionName width height) in
  let mapWidth := JS.ceil_div width resolution in
  let mapHeight := JS.ceil_div height resolution in
  cells ←
    foldExc (fun acc y =>
      foldExc (fun acc' x =>
        country ← getCountryAtPointSlow w1 (x * resolution, y * resolution);
        let countryIndex :=
          match country with
          | Some c => indexOf c (features w1) + 1
          | None => 0
          end in
        Ok (acc' ++ [countryIndex]))
        (js_range 0 mapWidth 1) acc)
      (js_range 0 mapHeight 1) [];
  Ok (withLookupMap w1 (mkLookupMap cells mapWidth mapHeight resolution)).

(** The dot pushed for a point, if any. *)
Definition makeDot (w : World) (showOcean : bool) (point : Z * Z)
    (country : option Feature) (nameOf : Feature -> string)
  : Exc (list Scheduler.Dot) :=
  match country, showOcean with
  | None, false => Ok []
  | _, _ =>
      coords ← invert w point;
      Ok [Scheduler.mkDot (inject_Z (fst point)) (inject_Z (snd point))
            (nameOf <$> country) coords]
  end.

(** [country.properties.name] *)
Variable nameOf : Feature -> string.

(** How [processChunk] classifies a point. *)
Definition chunkClassify (w : World) (point : Z * Z) : Exc (option Feature) :=
  match countryLookupMap w with
  | Some _ => getCountryAtPointFast w point
  | None => getCountryAtPointSlow w point
  end.

(** [processChunk]: the world afterwards (the projection is set up only
    if there is none) and the dots. *)
Definition processChunk (w : World) (q : Query) (c : Scheduler.Chunk)
  : World * Exc (list Scheduler.Dot) :=
  let w1 :=
    match currentProjection w with
    | Some _ => w
    | None => withProjection w
                (setupProjection d3 (projectionName q) (width q) (height q))
    end in
  (w1,
   foldExc (fun results x =>
     foldExc (fun results' y =>
       if isPointInProjection w1 (x, y) then
         country ← chunkClassify w1 (x, y);
         dot ← makeDot w1 (showOceanDots q) (x, y) country nameOf;
         Ok (results' ++ dot)
       else Ok results')
       (js_range (Scheduler.startY c) (Scheduler.endY c) (spacing q)) results)
     (js_range (Scheduler.startX c) (Scheduler.endX c) (spacing q)) []).

(** [createDotsGrid] *)
Definition createDotsGrid (spacing width height : Z) : list (Z * Z) :=
  flat_map (fun x => map (fun y => (x, y)) (js_range 0 height spacing))
    (js_range 0 width spacing).

(** [useFast] in [calculateDots]. *)
Definition useFast (w : World) (q : Query) : bool :=
  match countryLookupMap w with
  | Some m =>
      (mapWidth m =? JS.ceil_div (width q) (resolution m)) &&
      (mapHeight m =? JS.ceil_div (height q) (resolution m))
  | None => false
  end.

(** How [calculateDots] classifies a point. *)
Definition dotsClassify (w : World) (q : Query) (point : Z * Z)
  : Exc (option Feature) :=
  if useFast w q then getCountryAtPointFast w point
  else getCountryAtPointSlow w point.

(** [calculateDots] *)
Definition calculateDots (w : World) (q : Query)
  : World * Exc (list Scheduler.Dot) :=
  let w1 := withProjection w
              (setupProjection d3 (projectionName q) (width q) (height q)) in
  let dots := filter (fun p => isPointInProjection w1 p)
                (createDotsGrid (spacing q) (width q) (height q)) in
  (w1,
   foldExc (fun results point =>
     country ← dotsClassify w1 q point;
     dot ← makeDot w1 (showOceanDots q) point country nameOf;
     Ok (results ++ dot))
     dots []).

(** [initializeWorld], after the features have been read: the circles
    and the grid. *)
Definition initializeWorld (features : list Feature) : Exc World :=
  circles ← buildCountryCircles d3 features;
  Ok (mkWorld features circles (initializeSpatialGrid circles) None None).

(** A world as [initializeWorld] leaves it, whatever the projection and
    the lookup map are. *)
Definition initialized (w : World) : Prop :=
  buildCountryCircles d3 (features w) = Ok (countryCircles w) /\
  spatialGrid w = initializeSpatialGrid (countryCircles w).

(** The test that stands before exact containment in the general path:
    a polar or antimeridian-crossing circle passes, another circle passes
    when the point is within its radius. *)
Definition prefilter (lons : list Q) (lat : Q) (b : Bounds) : bool :=
  isPolar b || crossesAntimeridian b || withinBounds lons lat b.

(** Modelled from the spec: the brute-force classifier of the
    tiered-pipeline property, an exact-containment test over every
    country in turn (the source has no such function). *)
Fixpoint bruteForce (countries : list Feature) (coordinates : Q * Q)
  : Exc (option Feature) :=
  match countries with
  | [] => Ok None
  | c :: rest =>
      inside ← geoContains d3 c coordinates;
      if inside : bool then Ok (Some c) else bruteForce rest coordinates
  end.
End WithFeature.

End Classifier.

(** ** Result cache ([CacheManager], cache-manager.js) *)

Module Cache.

(** The query parameters that make the fingerprint. *)
Record Params := mkParams {
  projectionName : string;
  width : Z;
  height : Z;
  spacing : Z;
  showOceanDots : bool
}.

Definition boolToString (b : bool) : string := if b then "true" else "false".

(** [generateKey]: the five parameters joined by dashes. *)
Definition generateKey (params : Params) : string :=
  projectionName params +:+ "-" +:+ pretty (width params) +:+ "-" +:+
  pretty (height params) +:+ "-" +:+ pretty (spacing params) +:+ "-" +:+
  boolToString (showOceanDots params).

Definition cachePrefix : string := "dotsmap_cache_".
Definition metadataKey : string := "dotsmap_cache_metadata".

(** One record of [this.metadata]. *)
Record Meta := mkMeta { created : Z; lastAccess : Z; size : Z }.

Section WithData.
(** The cached value and its serialised form.  Only the length of a
    serialised payload is looked at. *)
Variables Data Payload : Type.
(** [JSON.stringify(data)] and [JSON.parse(str)]: both may throw. *)
Variable stringify : Data -> Exc Payload.
Variable parse : Payload -> Exc Data.
(** [str.length]. *)
Variable strLength : Payload -> Z.

(** What [localStorage] holds under a key: a serialised payload or the
    serialised metadata record. *)
Inductive Item :=
  | PayloadItem (p : Payload)
  | MetadataItem (m : JSMap.t (K:=string) (V:=Meta)).

(** Whether [localStorage.setItem(key, item)] throws in the present
    state of the storage, and with which error name. *)
Variable setItemError : gmap string Item -> string -> Item -> option string.

Record State := mkState {
  memoryCache : JSMap.t (K:=string) (V:=Data);
  maxMemoryItems : nat;
  useLocalStorage : bool;
  metadata : JSMap.t (K:=string) (V:=Meta);
  localStorage : gmap string Item
}.

Definition withMemory (s : State) (m : JSMap.t (K:=string) (V:=Data)) : State :=
  mkState m (maxMemoryItems s) (useLocalStorage s) (metadata s) (localStorage s).
Definition withMetadata (s : State) (m : JSMap.t (K:=string) (V:=Meta)) : State :=
  mkState (memoryCache s) (maxMemoryItems s) (useLocalStorage s) m (localStorage s).
Definition withStorage (s : State) (st : gmap string Item) : State :=
  mkState (memoryCache s) (maxMemoryItems s) (useLocalStorage s) (metadata s) st.

Definition setItem (st : gmap string Item) (key : string) (item : Item)
  : Exc (gmap string Item) :=
  match setItemError st key item with
  | Some name => Throw name
  | None => Ok (<[key := item]> st)
  end.

(** [saveMetadata]: a failed write is logged and dropped. *)
Definition saveMetadata (s : State) : State :=
  if negb (useLocalStorage s) then s else
  match setItem (localStorage s) metadataKey (MetadataItem (metadata s)) with
  | Ok st => withStorage s st
  | Throw _ => s
  end.

(** [loadMetadata] *)
Definition loadMetadata (s : State) : State :=
  if negb (useLocalStorage s) then s else
  match localStorage s !! metadataKey with
  | Some (MetadataItem m) => withMetadata s m
  | Some (PayloadItem _) => withMetadata s []   (* JSON.parse throws *)
  | None => withMetadata s []
  end.

(** [enforceSizeLimit]: over the limit, the first key in insertion order
    is deleted. *)
Definition enforceSizeLimit (s : State) : State :=
  if (maxMemoryItems s <? JSMap.size (memoryCache s))%nat then
    match JSMap.keys (memoryCache s) with
    | firstKey :: _ => withMemory s (JSMap.delete firstKey (memoryCache s))
    | [] => s
    end
  else s.

(** [Array.prototype.sort] by [lastAccess]: a stable insertion sort (the
    entries are inserted from the last to the first, each before its
    equals). *)
Fixpoint insertByAccess (e : string * Meta) (l : list (string * Meta))
  : list (string * Meta) :=
  match l with
  | [] => [e]
  | e' :: l' =>
      if lastAccess (snd e) <=? lastAccess (snd e')
      then e :: l else e' :: insertByAccess e l'
  end.

Definition sortByAccess (l : list (string * Meta)) : list (string * Meta) :=
  fold_right insertByAccess [] l.

Definition removeEntry (s : State) (key : string) : State :=
  withMetadata (withStorage s (delete (cachePrefix +:+ key) (localStorage s)))
    (JSMap.delete key (metadata s)).

(** [cleanOldEntries(aggressive)] at time [now]. *)
Definition cleanOldEntries (aggressive : bool) (now : Z) (s : State) : State :=
  if negb (useLocalStorage s) then s else
  let maxAge := if aggressive then 1 * 24 * 60 * 60 * 1000
                else 7 * 24 * 60 * 60 * 1000 in
  let stale :=
    JSMap.keys (filter (fun e => maxAge <? now - lastAccess (snd e)) (metadata s)) in
  let keysToDelete :=
    if aggressive && (length stale =? 0)%nat
    then stale ++ JSMap.keys (take (length (metadata s) / 2)%nat
                                (sortByAccess (metadata s)))
    else stale in
  let s' := fold_left removeEntry keysToDelete s in
  if (0 <? length keysToDelete)%nat then saveMetadata s' else s'.

(** The constructor: an empty memory tier, then [loadMetadata] and
    [cleanOldEntries()]. *)
Definition new (maxItems : nat) (useStorage : bool)
    (storage : gmap string Item) (now : Z) : State :=
  cleanOldEntries false now
    (loadMetadata (mkState [] maxItems useStorage [] storage)).

Definition touch (now : Z) (m : Meta) : Meta :=
  mkMeta (created m) now (size m).

(** [get(params)] at time [now]: the value returned ([None] is [null])
    and the state afterwards. *)
Definition get (params : Params) (now : Z) (s : State) : option Data * State :=
  let key := generateKey params in
  if JSMap.has key (memoryCache s) then (JSMap.get key (memoryCache s), s)
  else if useLocalStorage s then
    match localStorage s !! (cachePrefix +:+ key) with
    | Some (PayloadItem cachedStr) =>
        if strLength cachedStr =? 0 then (None, s) else
        match parse cachedStr with
        | Ok cached =>
            let s1 := enforceSizeLimit
                        (withMemory s (JSMap.set key cached (memoryCache s))) in
            let s2 :=
              match JSMap.get key (metadata s1) with
              | Some m =>
                  saveMetadata
                    (withMetadata s1 (JSMap.set key (touch now m) (metadata s1)))
              | None => s1
              end in
            (Some cached, s2)
        | Throw _ => (None, s)
        end
    | _ => (None, s)
    end
  else (None, s).

(** The [catch] block of [set]. *)
Definition onSetError (name : string) (now : Z) (s : State) : State :=
  if String.eqb name "QuotaExceededError" then cleanOldEntries true now s else s.

(** [set(params, data)] at time [now]. *)
Definition set (params : Params) (data : Data) (now : Z) (s : State) : State :=
  let key := generateKey params in
  let s1 := enforceSizeLimit
              (withMemory s (JSMap.set key data (memoryCache s))) in
  if useLocalStorage s1 then
    match stringify data with
    | Throw name => onSetError name now s1
    | Ok dataStr =>
        if 4 * 1024 * 1024 <? strLength dataStr then s1 else
        match setItem (localStorage s1) (cachePrefix +:+ key) (PayloadItem dataStr) with
        | Throw name => onSetError name now s1
        | Ok st =>
            let s2 := withStorage s1 st in
            let meta' :=
              match JSMap.get key (metadata s2) with
              | None => mkMeta now now (strLength dataStr)
              | Some m => touch now m
              end in
            saveMetadata (withMetadata s2 (JSMap.set key meta' (metadata s2)))
        end
    end
  else s1.

(** A caller's sequence of operations. *)
Inductive Op :=
  | OpGet (params : Params) (now : Z)
  | OpSet (params : Params) (data : Data) (now : Z).

Definition step (s : State) (op : Op) : State :=
  match op with
  | OpGet params now => snd (get params now s)
  | OpSet params data now => set params data now s
  end.

Definition run (ops : list Op) (s : State) : State := fold_left step ops s.
(** Two states with the same memory tier and configuration: what the
    persistent-tier helpers preserve. *)
Definition same_memory (s s' : State) : Prop :=
  memoryCache s' = memoryCache s /\
  maxMemoryItems s' = maxMemoryItems s /\
  useLocalStorage s' = useLocalStorage s.

(** What an insertion does to the memory tier: the entry is set, and over
    the limit the first entry in insertion order goes. *)
Definition insertBounded (limit : nat) (key : string) (data : Data)
    (m : JSMap.t (K:=string) (V:=Data)) : JSMap.t (K:=string) (V:=Data) :=
  let m' := JSMap.set key data m in
  if (limit <? length m')%nat then tail m' else m'.

(** The invariant of the memory tier. *)
Definition bounded (limit : nat) (s : State) : Prop :=
  maxMemoryItems s = limit /\ (JSMap.size (memoryCache s) <= limit)%nat.
End WithData.

End Cache.

(** ** A synthetic topology for the examples

    Countries are latitude/longitude boxes, and the d3 functions are flat
    stand-ins: the bounds are the box, the centroid its middle, containment
    the box test (edges included), the distance the sum of the two
    coordinate differences, and every projection the equirectangular one,
    [lon = x * 360 / width - 180], [lat = 90 - y * 180 / height]. *)

Module BoxWorld.
Import Geo Classifier.

Global Instance Q_eq_dec : EqDecision Q.
Proof. solve_decision. Defined.

Record Box := mkBox {
  boxName : string;
  west : Q; east : Q; south : Q; north : Q
}.

Global Instance Box_eq_dec : EqDecision Box.
Proof. solve_decision. Defined.

Definition boxContains (b : Box) (p : Q * Q) : bool :=
  JS.leb (west b) (fst p) && JS.leb (fst p) (east b) &&
  JS.leb (south b) (snd p) && JS.leb (snd p) (north b).

Definition equirectangular (width height : Z) : Projection :=
  fun point =>
    Ok (Some (JS.Fin (inject_Z (fst point) * 360 / inject_Z width - 180)%Q,
              JS.Fin (90 - inject_Z (snd point) * 180 / inject_Z height)%Q)).

Definition d3 : D3 Box := {|
  geoBounds b := ((west b, south b), (east b, north b));
  geoCentroid b := (((west b + east b) / 2)%Q, ((south b + north b) / 2)%Q);
  geoContains b p := Ok (boxContains b p);
  geoDistance p q := (Qabs (fst p - fst q) + Qabs (snd p - snd q))%Q;
  setupProjection _ width height := equirectangular width height
|}.

(** The same functions, with a containment test that throws on every
    call (after the world has been built). *)
Definition throwingD3 : D3 Box := {|
  geoBounds := geoBounds d3;
  geoCentroid := geoCentroid d3;
  geoContains _ _ := Throw "TypeError";
  geoDistance := geoDistance d3;
  setupProjection := setupProjection d3
|}.

(** The world after [initializeWorld]; the stand-ins never throw. *)
Definition worldOf (countries : list Box) : World (Feature:=Box) :=
  match initializeWorld d3 countries with
  | Ok w => w
  | Throw _ => mkWorld countries [] ∅ None None
  end.

(** The two squares of the end-to-end scenario of the specification. *)
Definition squareA : Box := mkBox "A" 0 10 0 10.
Definition squareB : Box := mkBox "B" 20 30 0 10.

Definition globe : Query := mkQuery 360 180 "geoEquirectangular" 5 false.

(** The two squares, ready for queries on the 360 x 180 globe. *)
Definition twoSquares : World (Feature:=Box) :=
  withProjection (worldOf [squareA; squareB]) (equirectangular 360 180).

(** The circle of country A, as [calculateCircularBounds] computes it. *)
Definition squareAEntry : Entry (Feature:=Box) :=
  Eval vm_compute in
    mkEntry squareA
      (hd (mkBounds (0, 0)%Q 0 false false false standard) (boundsOf d3 squareA)).

(** A wide territory at high latitude: bounds reach 85 degrees north, the
    centroid is at (25, 65), so it gets the generic polar circle. *)
Definition arctic : Box := mkBox "Arctic" (-60) 110 45 85.

Definition arcticWorld : World (Feature:=Box) :=
  withProjection (worldOf [arctic]) (equirectangular 360 180).

(** Territories whose centroid lies on an end of the longitude intervals
    of the Russia and USA rules. *)
Definition centroidAt60 : Box := mkBox "lon60" 20 100 52 58.
Definition centroidAt180 : Box := mkBox "lon180" 170 190 52 58.
Definition centroidAtMinus30 : Box := mkBox "lon-30" (-40) (-20) 35 45.
Definition centroidAtMinus180 : Box := mkBox "lon-180" (-190) (-170) 35 45.

(** A territory classified as the USA, and its Alaska circle. *)
Definition usa : Box := mkBox "USA" (-125) (-67) 25 49.
Definition alaskaCircle : Bounds :=
  mkBounds (-170, 65)%Q (360 / 7)%Q true true true usa_alaska.
Definition alaskaEntry : Entry (Feature:=Box) := mkEntry usa alaskaCircle.

(** The two squares after a lookup map was built for a 36 x 18 canvas at
    resolution 2 and a query for the 360 x 180 globe was then answered by
    [calculateDots] (which sets the projection of the query). *)
Definition withStaleMap : World (Feature:=Box) :=
  match buildCountryLookupMap d3 (worldOf [squareA; squareB])
          36 18 "geoEquirectangular" 2
  return World (Feature:=Box) with
  | Ok w => fst (calculateDots d3 boxName w globe)
  | Throw _ => twoSquares
  end.
End BoxWorld.

(** A small instance of the cache for the examples: a cached value is an
    integer that serialises to a payload of that many characters (the
    payload is represented by its length alone), and the storage never
    refuses a write. *)
Module CacheExample.
Definition Data := Z.
Definition Payload := Z.
Definition stringify (d : Data) : Exc Payload := Ok d.
Definition parse (p : Payload) : Exc Data := Ok p.
Definition strLength (p : Payload) : Z := p.
Definition setItemError (st : gmap string (Cache.Item Payload))
    (key : string) (item : Cache.Item Payload) : option string := None.

Definition get := Cache.get Data Payload parse strLength setItemError.
Definition set := Cache.set Data Payload stringify strLength setItemError.
Definition new := Cache.new Data Payload setItemError.

Definition mercator : Cache.Params := Cache.mkParams "geoMercator" 800 600 10 true.
Definition orthographic : Cache.Params :=
  Cache.mkParams "geoOrthographic" 800 600 10 true.

(** A cache with room for no entry, and one with room for one. *)
Definition noRoom : Cache.State Data Payload := new 0%nat true ∅ 0.
Definition oneSlot : Cache.State Data Payload := new 1%nat true ∅ 0.

(** A result whose serialisation has 5,000,000 characters: over 4 MiB. *)
Definition large : Data := 5000000.
End CacheExample.


(** ** Geometry preprocessing ([initializeWorld] in fast-worker.js,
       [normalizePolygon] and [normalizeGeometry] in index.js) *)

Module Preprocess.

(** A ring is a list of [[lon, lat]] pairs; a polygon is a list of rings. *)
Abbreviation Ring := (list (Q * Q)).

(** [feature.geometry]: the two types that the code looks at, and the
    others, which it leaves alone. *)
Inductive Geometry : Type :=
  | Polygon (coordinates : list Ring)
  | MultiPolygon (coordinates : list (list Ring))
  | OtherGeometry (type : string).




(** [a !== b] on two numbers. *)
Definition differ (a b : Q) : bool := negb (Qeq_bool a b).

(** The function mapped over the rings by [normalizePolygon]: an open ring
    gets its first point appended.  On an empty ring [ring[0][0]] reads a
    property of [undefined] and throws. *)
Definition closeRing (ring : Ring) : Exc Ring :=
  match ring with
  | [] => Throw "TypeError"
  | first :: _ =>
      let final := List.last ring first in
      if differ (fst first) (fst final) || differ (snd first) (snd final)
      then Ok (ring ++ [first])
      else Ok ring
  end.

(** [array.map(f)] for an [f] that may throw. *)
Fixpoint mapExc {A B : Type} (f : A -> Exc B) (l : list A) : Exc (list B) :=
  match l with
  | [] => Ok []
  | a :: l' => b ← f a; bs ← mapExc f l'; Ok (b :: bs)
  end.

Definition normalizePolygon (polygon : list Ring) : Exc (list Ring) :=
  mapExc closeRing polygon.

Definition normalizeGeometry (g : Geometry) : Exc Geometry :=
  match g with
  | Polygon rings => rings' ← normalizePolygon rings; Ok (Polygon rings')
  | MultiPolygon polys =>
      polys' ← mapExc normalizePolygon polys; Ok (MultiPolygon polys')
  | OtherGeometry type => Ok (OtherGeometry type)
  end.

(** A ring whose first and last point have the same coordinates. *)
Definition closed (ring : Ring) : Prop :=
  match ring with
  | [] => False
  | first :: _ =>
      (fst first == fst (List.last ring first))%Q /\
      (snd first == snd (List.last ring first))%Q
  end.

End Preprocess.


(** ** The worker pool ([WorkerPool], cache-manager.js) *)

Module WorkerPool.

(** The constructor: [this.numWorkers = Math.min(numWorkers, 8)]. *)
Definition numWorkers (requested : nat) : nat := Nat.min requested 8.

(** The chunks of [calculateDotsParallel] in a pool built for [requested]
    workers. *)
Definition chunks (requested : nat) (width height spacing : Z)
  : list Scheduler.Chunk :=
  Scheduler.computeChunks (numWorkers requested) width height spacing.

(** The dots of a list whose key is not in [seen] and did not occur
    earlier in the list: the first dot of every new key, in order. *)
Fixpoint firstOccurrences (seen : list (Z * Z)) (dots : list Scheduler.Dot)
  : list Scheduler.Dot :=
  match dots with
  | [] => []
  | d :: rest =>
      if bool_decide (Scheduler.dotKey d ∈ seen)
      then firstOccurrences seen rest
      else d :: firstOccurrences (seen ++ [Scheduler.dotKey d]) rest
  end.

End WorkerPool.


(** ** Sequential and parallel calculation of the dots *)

Module Dots.
Import Geo Classifier.

Section WithFeature.
Context {Feature : Type} `{EqDecision Feature}.
Variable d3 : D3 Feature.
Variable nameOf : Feature -> string.

(** The dots that a point contributes to a result, given the classifier
    in use: none outside the projection, none for ocean unless ocean dots
    are shown, one dot otherwise.  (The two loops below are shown to
    compute this, point after point.) *)
Definition pointDots (w : World (Feature:=Feature)) (showOcean : bool)
    (classify : Z * Z -> Exc (option Feature)) (point : Z * Z)
  : list Scheduler.Dot :=
  if isPointInProjection w point then
    match classify point, invert w point with
    | Ok country, Ok coords =>
        match country, showOcean with
        | None, false => []
        | _, _ =>
            [Scheduler.mkDot (inject_Z (fst point)) (inject_Z (snd point))
               (nameOf <$> country) coords]
        end
    | _, _ => []
    end
  else [].

(** The grid points of a chunk, in the order in which [processChunk]
    visits them. *)
Definition chunkPoints (spacing : Z) (c : Scheduler.Chunk) : list (Z * Z) :=
  flat_map (fun x => map (fun y => (x, y))
                       (js_range (Scheduler.startY c) (Scheduler.endY c) spacing))
    (Scheduler.columns spacing c).

(** The world in which [processChunk] works: the projection is set up
    only if there is none. *)
Definition chunkWorld (w : World (Feature:=Feature)) (q : Query)
  : World (Feature:=Feature) :=
  match currentProjection w with
  | Some _ => w
  | None => withProjection w
              (setupProjection d3 (projectionName q) (width q) (height q))
  end.

(** [Promise.all] over the chunks: every worker holds its own copy [w] of
    the world and answers one chunk; the first error fails the batch. *)
Definition chunkResults (w : World (Feature:=Feature)) (q : Query)
    (chunks : list Scheduler.Chunk) : Exc (list (list Scheduler.Dot)) :=
  Preprocess.mapExc (fun c => snd (processChunk d3 nameOf w q c)) chunks.

(** What [calculateDotsParallel] resolves to: the dots and, from
    [debugInfo], [parallelWorkers] and [duplicatesRemoved]. *)
Record ParallelResult := mkParallelResult {
  dots : list Scheduler.Dot;
  parallelWorkers : nat;
  duplicatesRemoved : nat
}.

(** [calculateDotsParallel] in a pool built for [requested] workers, all
    initialised with the world [w]. *)
Definition calculateDotsParallel (initialized : bool) (requested : nat)
    (w : World (Feature:=Feature)) (q : Query) : Exc ParallelResult :=
  if negb initialized then Throw "Error" else
  let chunks := WorkerPool.chunks requested (width q) (height q) (spacing q) in
  results ← chunkResults w q chunks;
  let '(allDots, removed) := Scheduler.dedup (spacing q) results in
  Ok (mkParallelResult allDots (length chunks) removed).

(** The [calculate] message of the stand-alone worker (the third copy of
    the classifier): every point of the grid inside the projection gets a
    dot, ocean or not; no lookup map is read. *)
Definition calculate (w : World (Feature:=Feature)) (q : Query)
  : World (Feature:=Feature) * Exc (list Scheduler.Dot) :=
  let w1 := withProjection w
              (setupProjection d3 (projectionName q) (width q) (height q)) in
  (w1,
   foldExc (fun results point =>
     if isPointInProjection w1 point then
       country ← getCountryAtPointSlow d3 w1 point;
       coords ← invert w1 point;
       Ok (results ++
           [Scheduler.mkDot (inject_Z (fst point)) (inject_Z (snd point))
              (nameOf <$> country) coords])
     else Ok results)
     (createDotsGrid (spacing q) (width q) (height q)) []).
End WithFeature.

End Dots.

(** ** The order in which the aggressive clean-up evicts *)

Module Housekeeping.

(** Metadata entries in the order of [lastAccess], the earliest first. *)
Fixpoint sortedByAccess (l : list (string * Cache.Meta)) : Prop :=
  match l with
  | [] => True
  | e :: l' =>
      (forall e', In e' l' ->
         Cache.lastAccess (snd e) <= Cache.lastAccess (snd e')) /\
      sortedByAccess l'
  end.

End Housekeeping.

(** ** The request path of the page ([calculateDotsOptimized])

    Drawing and the progress display are left out; the worker pool is a
    parameter. *)

Module App.

Section WithPool.
(** The result object, its serialised form, and the state of the pool. *)
Variables Data Payload Pool : Type.
Variable stringify : Data -> Exc Payload.
Variable parse : Payload -> Exc Data.
Variable strLength : Payload -> Z.
Variable setItemError :
  gmap string (Cache.Item Payload) -> string -> Cache.Item Payload ->
  option string.
(** [await workerPool.calculateDotsParallel(params, onProgress)]: the
    result or the error it rejects with, and the pool afterwards. *)
Variable calculateDotsParallel : Pool -> Cache.Params -> Exc Data * Pool.

(** [cacheManager], [workerPool] and [isCalculating]. *)
Record Page := mkPage {
  cacheManager : Cache.State Data Payload;
  workerPool : Pool;
  isCalculating : bool
}.

(** What a call ends with: nothing (a calculation is running), the
    cached result drawn, a fresh result drawn, or the error display. *)
Inductive Outcome :=
  | Skipped
  | DrawnCached (cached : Data)
  | DrawnComputed (result : Data)
  | Failed (name : string).

(** [calculateDotsOptimized(params)]; [nowGet] and [nowSet] are the
    times of the two cache calls.  A result object is truthy, so
    [if (cached)] is the test for a hit. *)
Definition calculateDotsOptimized (page : Page) (params : Cache.Params)
    (nowGet nowSet : Z) : Outcome * Page :=
  if isCalculating page then (Skipped, page) else
  let '(cached, cache1) :=
    Cache.get Data Payload parse strLength setItemError params nowGet
      (cacheManager page) in
  match cached with
  | Some c => (DrawnCached c, mkPage cache1 (workerPool page) false)
  | None =>
      let '(result, pool1) := calculateDotsParallel (workerPool page) params in
      match result with
      | Ok r =>
          (DrawnComputed r,
           mkPage (Cache.set Data Payload stringify strLength setItemError
                     params r nowSet cache1) pool1 false)
      | Throw name => (Failed name, mkPage cache1 pool1 false)
      end
  end.
End WithPool.

End App.

(** ** Clearing the cache ([CacheManager.clear]) *)

Module CacheAdmin.

Section WithData.
Variables Data Payload : Type.
Variable setItemError :
  gmap string (Cache.Item Payload) -> string -> Cache.Item Payload ->
  option string.

(** [clear()]: the memory tier is emptied; with [localStorage] in use,
    the payload of every key of the metadata is removed, and the metadata
    are emptied and saved. *)
Definition clear (s : Cache.State Data Payload) : Cache.State Data Payload :=
  let s0 := Cache.withMemory Data Payload s [] in
  if Cache.useLocalStorage Data Payload s0 then
    let storage :=
      fold_left (fun st key => delete (Cache.cachePrefix +:+ key) st)
        (JSMap.keys (Cache.metadata Data Payload s0))
        (Cache.localStorage Data Payload s0) in
    Cache.saveMetadata Data Payload setItemError
      (Cache.withMetadata Data Payload
         (Cache.withStorage Data Payload s0 storage) [])
  else s0.
End WithData.

End CacheAdmin.

(** * Theorems *)

Lemma leb_le a b : JS.leb a b = true <-> (a <= b)%Q.
Proof. apply Qle_bool_iff. Qed.

Lemma ltb_lt a b : JS.ltb a b = true <-> (a < b)%Q.
Proof.
  unfold JS.ltb. rewrite negb_true_iff.
  split; intros H.
  - apply Qnot_le_lt. intros Hle. apply Qle_bool_iff in Hle. congruence.
  - destruct (Qle_bool b a) eqn:E; [|reflexivity].
    apply Qle_bool_iff in E. exfalso. exact (Qlt_not_le _ _ H E).
Qed.

Lemma ltb_ge a b : JS.ltb a b = false <-> (b <= a)%Q.
Proof.
  unfold JS.ltb. rewrite negb_false_iff. apply Qle_bool_iff.
Qed.



(** C5 (as the code has it): [wrap(181) = -179], [wrap(-181) = 179],
    [wrap(180) = 180], and [wrap(-180) = 180]: the lower end of the range
    is open, so -180 is sent to +180. *)
Theorem wrapLongitude_antimeridian_values :
  (wrapLongitude 181 == -179)%Q /\
  (wrapLongitude (-181) == 179)%Q /\
  (wrapLongitude 180 == 180)%Q /\
  (wrapLongitude (-180) == 180)%Q.
Proof. repeat split; vm_compute; reflexivity. Qed.

(** C5 as written fails: [wrap(-180)] is not [-180]. *)
Lemma wrapLongitude_minus180_counterexample :
  ~ ((wrapLongitude 181 == -179)%Q /\
     (wrapLongitude (-181) == 179)%Q /\
     (wrapLongitude 180 == 180)%Q /\
     (wrapLongitude (-180) == -180)%Q).
Proof. intros (_ & _ & _ & H). vm_compute in H. discriminate H. Qed.

(** ** The [for] loop with a step *)

Lemma js_range_nil lo hi step : hi <= lo -> js_range lo hi step = [].
Proof.
  intros H. unfold js_range.
  destruct (Z.to_nat (hi - lo)) eqn:E; [reflexivity|]. lia.
Qed.

Lemma for_range_fuel fuel1 : forall fuel2 x hi step,
  1 <= step ->
  hi - x <= Z.of_nat fuel1 -> hi - x <= Z.of_nat fuel2 ->
  for_range fuel1 x hi step = for_range fuel2 x hi step.
Proof.
  induction fuel1 as [|f1 IH]; intros [|f2] x hi step Hs H1 H2; simpl.
  - reflexivity.
  - destruct (Z.ltb_spec x hi); [lia | reflexivity].
  - destruct (Z.ltb_spec x hi); [lia | reflexivity].
  - destruct (Z.ltb_spec x hi); [|reflexivity].
    f_equal. apply IH; lia.
Qed.

Lemma js_range_cons lo hi step :
  1 <= step -> lo < hi ->
  js_range lo hi step = lo :: js_range (lo + step) hi step.
Proof.
  intros Hs Hlt. unfold js_range.
  destruct (Z.to_nat (hi - lo)) as [|f] eqn:E; [lia|].
  simpl. destruct (Z.ltb_spec lo hi); [|lia].
  f_equal. apply for_range_fuel; lia.
Qed.

Lemma js_range_In lo hi step v :
  1 <= step ->
  In v (js_range lo hi step) <->
  exists k, 0 <= k /\ v = lo + k * step /\ v < hi.
Proof.
  intros Hs.
  assert (Hn : (Z.to_nat (hi - lo) <= Z.to_nat (hi - lo))%nat) by lia.
  revert Hn. generalize (Z.to_nat (hi - lo)) at 2. intros n.
  revert lo. induction n as [|n IH]; intros lo Hn.
  - rewrite js_range_nil by lia. split; [intros []|].
    intros (k & Hk & -> & Hlt). nia.
  - destruct (Z_lt_ge_dec lo hi) as [Hlt'|Hge]; cycle 1.
    { rewrite js_range_nil by lia. split; [intros []|].
      intros (k & Hk & -> & Hlt). nia. }
    rewrite js_range_cons by lia. simpl. rewrite IH by lia.
    split.
    + intros [<- | (k & Hk & -> & Hlt)].
      * exists 0. lia.
      * exists (k + 1). lia.
    + intros (k & Hk & -> & Hlt).
      destruct (Z.eq_dec k 0) as [-> | Hne]; [left; lia|].
      right. exists (k - 1). lia.
Qed.

Lemma js_range_bounds lo hi step v :
  1 <= step -> In v (js_range lo hi step) -> lo <= v < hi.
Proof.
  intros Hs Hin. apply js_range_In in Hin as (k & Hk & -> & Hlt); [nia | lia].
Qed.

Lemma js_range_app lo mid hi step :
  1 <= step -> (exists k, 0 <= k /\ mid = lo + k * step) -> mid <= hi ->
  js_range lo hi step = js_range lo mid step ++ js_range mid hi step.
Proof.
  intros Hs (k & Hk & Hmid) Hle.
  rewrite <- (Z2Nat.id k) in Hmid by lia.
  remember (Z.to_nat k) as n eqn:En. clear En Hk k.
  revert lo Hmid. induction n as [|n IH]; intros lo Hmid.
  - replace mid with lo by lia. rewrite (js_range_nil lo lo) by lia. reflexivity.
  - rewrite (js_range_cons lo hi) by nia.
    rewrite (js_range_cons lo mid) by nia.
    simpl. f_equal. apply IH. lia.
Qed.

Lemma js_range_NoDup lo hi step : 1 <= step -> NoDup (js_range lo hi step).
Proof.
  intros Hs.
  assert (Hn : (Z.to_nat (hi - lo) <= Z.to_nat (hi - lo))%nat) by lia.
  revert Hn. generalize (Z.to_nat (hi - lo)) at 2. intros n.
  revert lo. induction n as [|n IH]; intros lo Hn.
  - rewrite js_range_nil by lia. constructor.
  - destruct (Z_lt_ge_dec lo hi) as [Hlt'|Hge]; cycle 1.
    { rewrite js_range_nil by lia. constructor. }
    rewrite js_range_cons by lia. constructor; [|apply IH; lia].
    rewrite list_elem_of_In. intros Hin. apply js_range_bounds in Hin; lia.
Qed.

(** ** Chunk scheduler: the aligned chunks partition the grid columns *)

Section ChunkPartition.
Import Scheduler.
Variables (width height spacing chunkWidth : Z).
Hypothesis Hwidth : 1 <= width.
Hypothesis Hspacing : 1 <= spacing.
Hypothesis HchunkWidth : 1 <= chunkWidth.

Local Abbreviation chunk_inv := (Scheduler.chunk_inv width spacing chunkWidth).

Lemma contiguous_snoc from chunks c :
  contiguous from chunks (startX c) -> startX c < endX c ->
  contiguous from (chunks ++ [c]) (endX c).
Proof.
  revert from. induction chunks as [|c0 rest IH]; simpl; intros from H Hlt.
  - subst from. auto.
  - destruct H as (H1 & H2 & H3). auto.
Qed.

Lemma contiguous_le from chunks to : contiguous from chunks to -> from <= to.
Proof.
  revert from. induction chunks as [|c rest IH]; simpl; intros from H.
  - lia.
  - destruct H as (_ & H2 & H3). apply IH in H3. lia.
Qed.

Lemma contiguous_in from chunks to c :
  contiguous from chunks to -> In c chunks ->
  from <= startX c /\ startX c < endX c /\ endX c <= to.
Proof.
  revert from. induction chunks as [|c0 rest IH]; simpl; intros from H Hin.
  - destruct Hin.
  - destruct H as (H1 & H2 & H3). destruct Hin as [-> | Hin].
    + apply contiguous_le in H3. lia.
    + destruct (IH _ H3 Hin) as (? & ? & ?). lia.
Qed.

Lemma contiguous_ordered from chunks to (i j : nat) ci cj :
  contiguous from chunks to -> (i < j)%nat ->
  chunks !! i = Some ci -> chunks !! j = Some cj -> endX ci <= startX cj.
Proof.
  intros H Hij Hi Hj. revert from i j H Hij Hi Hj.
  induction chunks as [|c rest IH]; intros from i j H Hij Hi Hj.
  - discriminate Hi.
  - destruct H as (H1 & H2 & H3).
    destruct j as [|j]; [lia|]. simpl in Hj.
    destruct i as [|i]; simpl in Hi.
    + injection Hi as ->.
      apply list_elem_of_lookup_2, list_elem_of_In in Hj.
      destruct (contiguous_in _ _ _ _ H3 Hj). lia.
    + apply (IH (endX c) i j); auto. lia.
Qed.

Lemma floor_align a : 0 <= a ->
  exists k, 0 <= k /\ a / spacing * spacing = 0 + k * spacing /\
            a / spacing * spacing <= a.
Proof.
  intros Ha. exists (a / spacing). split; [apply Z.div_pos; lia|].
  split; [ring|]. pose proof (Z.mul_div_le a spacing). lia.
Qed.

Lemma ceil_align a : 0 <= a ->
  exists k, 0 <= k /\ JS.ceil_div a spacing * spacing = 0 + k * spacing /\
            a <= JS.ceil_div a spacing * spacing.
Proof.
  intros Ha. unfold JS.ceil_div. exists (- (- a / spacing)).
  pose proof (Z.mul_div_le (- a) spacing).
  assert (- a / spacing <= 0) by (apply Z.div_le_upper_bound; lia).
  split; [lia|]. split; [ring | lia].
Qed.

Lemma chunkStep_inv i st :
  0 <= i -> chunk_inv i st ->
  chunk_inv (i + 1) (chunkStep width height spacing chunkWidth st i).
Proof.
  intros Hi. destruct st as [chunks lastEndX].
  intros (Hc & Hcols & Hle & Hal & Hmin).
  unfold chunkStep, Scheduler.chunk_inv.
  set (a := i * chunkWidth) in *.
  assert (Ha : 0 <= a) by (subst a; nia).
  set (e0 := Z.min (a + chunkWidth) width).
  assert (He0 : 0 <= e0) by (subst e0; lia).
  destruct (floor_align a Ha) as (ks & Hks & Hs1 & Hs1le).
  destruct (ceil_align e0 He0) as (ke & Hke & He1 & He1ge).
  set (s1 := a / spacing * spacing) in *.
  set (c1 := JS.ceil_div e0 spacing * spacing) in *.
  assert (Hnext : Z.min ((i + 1) * chunkWidth) width = e0) by (subst e0 a; lia).
  pose proof (contiguous_le _ _ _ Hc) as H0L.
  destruct (Z.ltb_spec s1 lastEndX) as [Hlt|Hge].
  - (* the chunk starts where the previous one ended *)
    destruct (Z.ltb_spec lastEndX width) as [Hw|Hw]; simpl.
    + destruct (Z.ltb_spec lastEndX (Z.min c1 width)) as [Hpush|Hdrop].
      * rewrite Hnext.
        destruct Hal as [Hal | (kl & Hkl & Hal)]; [lia|].
        split; [apply (contiguous_snoc 0 chunks (mkChunk lastEndX _ 0 height)); auto|].
        split.
        { rewrite flat_map_app. simpl. rewrite app_nil_r, Hcols.
          unfold columns. simpl. symmetry. apply js_range_app; eauto. lia. }
        split; [lia|]. split; [|lia].
        destruct (Z.min_spec c1 width) as [[_ ->] | [_ ->]]; eauto.
      * rewrite Hnext. repeat split; auto. lia.
    + rewrite Hnext. repeat split; auto. lia.
  - (* the aligned start is not below [lastEndX] *)
    assert (Hcase : s1 = lastEndX \/ width <= lastEndX) by lia.
    destruct (Z.ltb_spec s1 width) as [Hw|Hw]; simpl.
    + destruct (Z.ltb_spec s1 (Z.min c1 width)) as [Hpush|Hdrop].
      * assert (Heq : s1 = lastEndX) by lia.
        rewrite Hnext. rewrite Heq.
        split; [apply (contiguous_snoc 0 chunks (mkChunk lastEndX _ 0 height)); simpl; auto; lia|].
        split.
        { rewrite flat_map_app. simpl. rewrite app_nil_r, Hcols.
          unfold columns. simpl. symmetry. apply js_range_app; eauto; [|lia].
          exists ks. split; [lia|]. lia. }
        split; [lia|]. split; [|lia].
        destruct (Z.min_spec c1 width) as [[_ ->] | [_ ->]]; eauto.
      * rewrite Hnext. repeat split; auto. lia.
    + rewrite Hnext. repeat split; auto. lia.
Qed.

Lemma chunk_loop_inv (n : nat) :
  chunk_inv (Z.of_nat n)
    (fold_left (chunkStep width height spacing chunkWidth)
       (map Z.of_nat (seq 0 n)) ([], 0)).
Proof.
  induction n as [|n IH].
  - simpl. split; [reflexivity|]. split; [reflexivity|]. split; [lia|].
    split; [right; exists 0; lia | lia].
  - rewrite seq_S, map_app, fold_left_app. simpl.
    replace (Z.of_nat (S n)) with (Z.of_nat n + 1) by lia.
    apply chunkStep_inv; [lia | exact IH].
Qed.
End ChunkPartition.

Lemma ceil_div_covers (width n : Z) :
  1 <= width -> 1 <= n ->
  1 <= JS.ceil_div width n /\ width <= n * JS.ceil_div width n.
Proof.
  intros Hw Hn. unfold JS.ceil_div.
  pose proof (Z.mul_div_le (- width) n).
  assert (- width / n < 0) by (apply Z.div_lt_upper_bound; lia).
  lia.
Qed.

(** C2: for every [width >= 1], [spacing >= 1] and worker count [>= 1] the
    chunks of the scheduler lie inside [0, width), are pairwise disjoint,
    and every grid column [k * spacing < width] is visited by exactly one
    chunk, once; chunk after chunk, the visited columns are the columns of
    the whole grid. *)
Theorem chunks_partition_grid_columns
    (numWorkers : nat) (width height spacing : Z) :
  (1 <= numWorkers)%nat -> 1 <= width -> 1 <= spacing ->
  let chunks := Scheduler.computeChunks numWorkers width height spacing in
  (forall c, In c chunks ->
     0 <= Scheduler.startX c < Scheduler.endX c /\ Scheduler.endX c <= width) /\
  (forall (i j : nat) ci cj, (i < j)%nat ->
     chunks !! i = Some ci -> chunks !! j = Some cj ->
     Scheduler.endX ci <= Scheduler.startX cj /\
     forall x, In x (Scheduler.columns spacing ci) ->
               ~ In x (Scheduler.columns spacing cj)) /\
  (forall k, 0 <= k -> k * spacing < width ->
     exists (i : nat) c,
       chunks !! i = Some c /\ In (k * spacing) (Scheduler.columns spacing c) /\
       forall (j : nat) c', chunks !! j = Some c' ->
         In (k * spacing) (Scheduler.columns spacing c') -> j = i) /\
  (forall c, In c chunks -> NoDup (Scheduler.columns spacing c)) /\
  flat_map (Scheduler.columns spacing) chunks = js_range 0 width spacing.
Proof.
  intros Hn Hw Hs chunks.
  destruct (ceil_div_covers width (Z.of_nat numWorkers)) as [Hcw Hcov]; [lia..|].
  pose proof (chunk_loop_inv width height spacing _ Hw Hs Hcw numWorkers) as Hinv.
  unfold Scheduler.chunk_inv in Hinv.
  fold (Scheduler.computeChunks numWorkers width height spacing) in Hinv.
  unfold Scheduler.computeChunks in chunks.
  destruct (fold_left _ _ _) as [cs lastEndX] eqn:E in Hinv, chunks.
  simpl in chunks. subst chunks.
  destruct Hinv as (Hc & Hcols & Hle & _ & Hmin).
  assert (lastEndX = width) as -> by lia.
  assert (Hord : forall (i j : nat) ci cj, (i < j)%nat ->
            cs !! i = Some ci -> cs !! j = Some cj ->
            Scheduler.endX ci <= Scheduler.startX cj /\
            forall x, In x (Scheduler.columns spacing ci) ->
                      ~ In x (Scheduler.columns spacing cj)).
  { intros i j ci cj Hij Hi Hj.
    pose proof (contiguous_ordered _ _ _ _ _ _ _ Hc Hij Hi Hj) as Ho.
    split; [exact Ho|]. intros x Hx Hx'.
    apply js_range_bounds in Hx, Hx'; lia. }
  split; [|split; [exact Hord|split; [|split]]].
  - intros c Hin. destruct (contiguous_in _ _ _ _ Hc Hin). lia.
  - intros k Hk Hlt.
    assert (Hin : In (k * spacing) (flat_map (Scheduler.columns spacing) cs)).
    { rewrite Hcols. apply js_range_In; [lia|]. exists k. lia. }
    apply in_flat_map in Hin as (c & Hc1 & Hc2).
    apply list_elem_of_In, list_elem_of_lookup in Hc1 as [i Hi].
    exists i, c. split; [exact Hi|]. split; [exact Hc2|].
    intros j c' Hj Hin'.
    destruct (Nat.lt_trichotomy j i) as [Hlt'|[->|Hgt]]; [|reflexivity|].
    + destruct (Hord j i c' c Hlt' Hj Hi) as [_ Hd]. destruct (Hd _ Hin' Hc2).
    + destruct (Hord i j c c' Hgt Hi Hj) as [_ Hd]. destruct (Hd _ Hc2 Hin').
  - intros c _. apply js_range_NoDup. lia.
  - exact Hcols.
Qed.

Lemma chunks_partition_grid_columns_witness :
  flat_map (Scheduler.columns 100)
    (Scheduler.computeChunks 8 250 180 100) = js_range 0 250 100.
Proof.
  refine (proj2 (proj2 (proj2 (proj2
    (chunks_partition_grid_columns 8 250 180 100 _ _ _))))); lia.
Defined.

(** ** Insertion-ordered maps *)

Section JSMapFacts.
Context {K V : Type} `{EqDecision K}.
Implicit Types (m : JSMap.t (K:=K) (V:=V)) (k : K) (v : V).

Lemma has_true k m : JSMap.has k m = true <-> In k (JSMap.keys m).
Proof.
  unfold JSMap.has, JSMap.keys. rewrite existsb_exists, in_map_iff.
  split; intros (e & H1 & H2).
  - apply bool_decide_eq_true in H2. eauto.
  - exists e. split; [exact H2|]. apply bool_decide_eq_true. exact H1.
Qed.

Lemma has_false k m : JSMap.has k m = false <-> ~ In k (JSMap.keys m).
Proof.
  rewrite <- has_true. destruct (JSMap.has k m); split; congruence.
Qed.

Lemma set_absent k v m : JSMap.has k m = false -> JSMap.set k v m = m ++ [(k, v)].
Proof.
  rewrite has_false. induction m as [|[k' v'] m IH]; simpl; intros Hn.
  - reflexivity.
  - destruct (decide (k' = k)) as [->|Hne]; [tauto|].
    rewrite IH by tauto. reflexivity.
Qed.

Lemma set_present_keys k v m :
  JSMap.has k m = true -> JSMap.keys (JSMap.set k v m) = JSMap.keys m.
Proof.
  rewrite has_true. induction m as [|[k' v'] m IH]; simpl; intros Hin.
  - destruct Hin.
  - destruct (decide (k' = k)) as [->|Hne]; simpl; [reflexivity|].
    f_equal. apply IH. tauto.
Qed.

Lemma get_set_same k v m : JSMap.get k (JSMap.set k v m) = Some v.
Proof.
  induction m as [|[k' v'] m IH]; simpl.
  - destruct (decide (k = k)); congruence.
  - destruct (decide (k' = k)) as [->|Hne]; simpl.
    + destruct (decide (k = k)); congruence.
    + destruct (decide (k' = k)); congruence.
Qed.

Lemma has_set_same k v m : JSMap.has k (JSMap.set k v m) = true.
Proof.
  destruct (JSMap.has k m) eqn:E.
  - apply has_true. rewrite set_present_keys by exact E. apply has_true, E.
  - rewrite set_absent by exact E. apply has_true.
    unfold JSMap.keys. rewrite map_app. apply in_or_app. right. left. reflexivity.
Qed.

Lemma length_set k v m :
  length (JSMap.set k v m) =
  if JSMap.has k m then length m else S (length m).
Proof.
  destruct (JSMap.has k m) eqn:E.
  - rewrite <- (length_map fst (JSMap.set k v m)).
    fold (JSMap.keys (JSMap.set k v m)).
    rewrite set_present_keys by exact E. apply length_map.
  - rewrite set_absent by exact E. rewrite length_app. simpl. lia.
Qed.
End JSMapFacts.

(** ** Boundary deduplication is idempotent *)

Section Dedup.
Import Scheduler.

Lemma dotMapAdd_ok m d : dotMap_ok m -> dotMap_ok (dotMapAdd m d).
Proof.
  intros [Hnd Hk]. unfold dotMapAdd.
  destruct (JSMap.has (dotKey d) m) eqn:E; [split; assumption|].
  rewrite set_absent by exact E. split.
  - unfold JSMap.keys. rewrite map_app. simpl.
    apply NoDup_app. split; [exact Hnd|]. split.
    + intros k Hin Hin'. apply list_elem_of_In in Hin.
      apply list_elem_of_In in Hin'. destruct Hin' as [<-|[]].
      apply has_false in E. contradiction.
    + apply NoDup_singleton.
  - apply Forall_app. split; [exact Hk|]. constructor; [reflexivity|constructor].
Qed.

Lemma fold_dotMapAdd_ok dots : forall m,
  dotMap_ok m -> dotMap_ok (fold_left dotMapAdd dots m).
Proof.
  induction dots as [|d dots IH]; simpl; intros m Hm; [exact Hm|].
  apply IH, dotMapAdd_ok, Hm.
Qed.

(** Feeding the values of a well-formed map back in rebuilds the map. *)
Lemma fold_dotMapAdd_values m2 : forall m1,
  dotMap_ok (m1 ++ m2) ->
  fold_left dotMapAdd (JSMap.values m2) m1 = m1 ++ m2.
Proof.
  induction m2 as [|[k d] m2 IH]; simpl; intros m1 Hok.
  - rewrite app_nil_r. reflexivity.
  - destruct Hok as [Hnd Hk].
    assert (Hkd : k = dotKey d).
    { rewrite Forall_app in Hk. destruct Hk as [_ Hk].
      apply Forall_cons_1 in Hk. destruct Hk as [Hk _]. exact Hk. }
    assert (Habs : JSMap.has (dotKey d) m1 = false).
    { apply has_false. intros Hin. unfold JSMap.keys in Hnd.
      rewrite map_app in Hnd. simpl in Hnd.
      apply NoDup_app in Hnd as (_ & Hdis & _).
      apply (Hdis (dotKey d)); [apply list_elem_of_In; exact Hin|].
      rewrite <- Hkd. left. }
    unfold dotMapAdd at 2. rewrite Habs, set_absent by exact Habs.
    rewrite <- Hkd. rewrite IH; rewrite <- app_assoc; simpl; [reflexivity|].
    split; assumption.
Qed.

Lemma finalPass_idempotent dots : finalPass (finalPass dots) = finalPass dots.
Proof.
  unfold finalPass.
  assert (Hok : dotMap_ok (fold_left dotMapAdd dots [])).
  { apply fold_dotMapAdd_ok. split; constructor. }
  rewrite (fold_dotMapAdd_values _ []); [reflexivity | exact Hok].
Qed.
End Dedup.

(** C9: when the result of the two deduplication passes is put through
    both passes again, no point is removed and the result set is the
    same. *)
Theorem dedup_idempotent (spacing : Z) (results : list (list Scheduler.Dot)) :
  let deduplicated := fst (Scheduler.dedup spacing results) in
  Scheduler.dedup spacing [deduplicated] = (deduplicated, 0%nat).
Proof.
  intros deduplicated. unfold Scheduler.dedup at 1.
  simpl Scheduler.boundaryPass. unfold Scheduler.totalLength.
  simpl concat. rewrite app_nil_r.
  assert (Hid : Scheduler.finalPass deduplicated = deduplicated).
  { subst deduplicated. unfold Scheduler.dedup. simpl fst.
    apply finalPass_idempotent. }
  rewrite Hid. f_equal. lia.
Qed.

(** The same for the result set cut into chunks again, as long as chunks
    that follow each other are apart (chunks over disjoint ranges of grid
    columns are).  Chunks that are less than [spacing] apart are another
    matter: the first pass takes the first column of the later chunk. *)
Lemma dropBoundary_apart (spacing : Z) (currentChunk nextChunk : list Scheduler.Dot) :
  Scheduler.apart spacing currentChunk nextChunk ->
  Scheduler.dropBoundary spacing currentChunk nextChunk = nextChunk.
Proof.
  unfold Scheduler.apart, Scheduler.dropBoundary.
  destruct (map Scheduler.dot_x currentChunk) as [|c cs]; [reflexivity|].
  destruct (map Scheduler.dot_x nextChunk) as [|n ns]; [reflexivity|].
  intros Hapart.
  destruct (JS.ltb _ _) eqn:E; [|reflexivity].
  apply ltb_lt in E. lra.
Qed.

Lemma boundaryPass_apart (spacing : Z) (results : list (list Scheduler.Dot)) :
  Scheduler.chunksApart spacing results ->
  Scheduler.boundaryPass spacing results = results.
Proof.
  destruct results as [|c rest]; [reflexivity|]. simpl.
  revert c. induction rest as [|next rest IH]; simpl; intros c Hapart;
    [reflexivity|].
  destruct Hapart as [Hcn Hrest].
  rewrite (dropBoundary_apart _ _ _ Hcn), (IH _ Hrest). reflexivity.
Qed.

Lemma dedup_rechunked_idempotent (spacing : Z)
    (results chunks : list (list Scheduler.Dot)) :
  concat chunks = fst (Scheduler.dedup spacing results) ->
  Scheduler.chunksApart spacing chunks ->
  Scheduler.dedup spacing chunks = (fst (Scheduler.dedup spacing results), 0%nat).
Proof.
  intros Hcat Hapart. unfold Scheduler.dedup at 1.
  rewrite (boundaryPass_apart _ _ Hapart). unfold Scheduler.totalLength.
  rewrite Hcat. unfold Scheduler.dedup. simpl fst.
  rewrite finalPass_idempotent. f_equal. lia.
Qed.

(** One column cut across two chunks: the set [(0,0), (0,10)] is its own
    deduplication, and cut into [[(0,0)]; [(0,10)]] it loses its second
    dot to the first pass. *)
Example dedup_rechunked_same_column :
  let dot (x y : Q) := Scheduler.mkDot x y None None in
  Scheduler.dedup 10 [[dot 0%Q 0%Q; dot 0%Q 10%Q]] =
    ([dot 0%Q 0%Q; dot 0%Q 10%Q], 0%nat) /\
  Scheduler.dedup 10 [[dot 0%Q 0%Q]; [dot 0%Q 10%Q]] = ([dot 0%Q 0%Q], 1%nat).
Proof. split; reflexivity. Qed.

(** ** Result cache: the memory tier *)

Section CacheFacts.
Import Cache.
Variables Data Payload : Type.
Variable stringify : Data -> Exc Payload.
Variable parse : Payload -> Exc Data.
Variable strLength : Payload -> Z.
Variable setItemError :
  gmap string (Item Payload) -> string -> Item Payload -> option string.

Local Abbreviation State := (Cache.State Data Payload).
Local Abbreviation get := (Cache.get Data Payload parse strLength setItemError).
Local Abbreviation set := (Cache.set Data Payload stringify strLength setItemError).
Local Abbreviation step := (Cache.step Data Payload stringify parse strLength setItemError).
Local Abbreviation run := (Cache.run Data Payload stringify parse strLength setItemError).
Local Abbreviation new := (Cache.new Data Payload setItemError).
Local Abbreviation saveMetadata := (Cache.saveMetadata Data Payload setItemError).
Local Abbreviation cleanOldEntries := (Cache.cleanOldEntries Data Payload setItemError).
Local Abbreviation enforceSizeLimit := (Cache.enforceSizeLimit Data Payload).

Local Abbreviation same_memory := (Cache.same_memory Data Payload).
Local Abbreviation insertBounded := (Cache.insertBounded Data).
Local Abbreviation bounded := (Cache.bounded Data Payload).

Implicit Types (s : State).

Lemma same_memory_refl s : same_memory s s.
Proof. repeat split. Qed.

Lemma same_memory_trans s1 s2 s3 :
  same_memory s1 s2 -> same_memory s2 s3 -> same_memory s1 s3.
Proof. unfold Cache.same_memory. intros (?&?&?) (?&?&?). repeat split; congruence. Qed.

Lemma saveMetadata_memory s : same_memory s (saveMetadata s).
Proof.
  unfold Cache.saveMetadata, Cache.setItem.
  destruct (negb _); [apply same_memory_refl|].
  destruct (setItemError _ _ _); repeat split.
Qed.

Lemma removeEntry_memory s k : same_memory s (removeEntry _ _ s k).
Proof. repeat split. Qed.

Lemma fold_removeEntry_memory ks : forall s,
  same_memory s (fold_left (removeEntry _ _) ks s).
Proof.
  induction ks as [|k ks IH]; simpl; intros s; [apply same_memory_refl|].
  eapply same_memory_trans; [apply (removeEntry_memory s k) | apply IH].
Qed.

Lemma cleanOldEntries_memory aggressive now s :
  same_memory s (cleanOldEntries aggressive now s).
Proof.
  unfold Cache.cleanOldEntries.
  destruct (negb _); [apply same_memory_refl|].
  match goal with |- context [fold_left _ ?ks s] => generalize ks end.
  intros ks. destruct (0 <? length ks)%nat.
  - eapply same_memory_trans; [apply fold_removeEntry_memory|].
    apply saveMetadata_memory.
  - apply fold_removeEntry_memory.
Qed.

Lemma loadMetadata_memory s : same_memory s (loadMetadata _ _ s).
Proof.
  unfold Cache.loadMetadata. destruct (negb _); [apply same_memory_refl|].
  destruct (_ !! _) as [[?|?]|]; repeat split.
Qed.

Lemma onSetError_memory name now s :
  same_memory s (onSetError _ _ setItemError name now s).
Proof.
  unfold Cache.onSetError. destruct (String.eqb _ _).
  - apply cleanOldEntries_memory.
  - apply same_memory_refl.
Qed.

Lemma enforceSizeLimit_insert s key data :
  memoryCache _ _ (enforceSizeLimit
     (withMemory _ _ s (JSMap.set key data (memoryCache _ _ s)))) =
  insertBounded (maxMemoryItems _ _ s) key data (memoryCache _ _ s) /\
  maxMemoryItems _ _ (enforceSizeLimit
     (withMemory _ _ s (JSMap.set key data (memoryCache _ _ s)))) =
  maxMemoryItems _ _ s /\
  useLocalStorage _ _ (enforceSizeLimit
     (withMemory _ _ s (JSMap.set key data (memoryCache _ _ s)))) =
  useLocalStorage _ _ s.
Proof.
  unfold Cache.enforceSizeLimit, Cache.insertBounded, JSMap.size. simpl.
  destruct (_ <? _)%nat; [|repeat split].
  destruct (JSMap.set key data (memoryCache _ _ s)) as [|[k v] m'] eqn:E;
    simpl; [repeat split|].
  destruct (decide (k = k)); [repeat split | congruence].
Qed.

Lemma set_memory params data now s :
  memoryCache _ _ (set params data now s) =
    insertBounded (maxMemoryItems _ _ s) (generateKey params) data
      (memoryCache _ _ s) /\
  maxMemoryItems _ _ (set params data now s) = maxMemoryItems _ _ s /\
  useLocalStorage _ _ (set params data now s) = useLocalStorage _ _ s.
Proof.
  unfold Cache.set.
  destruct (enforceSizeLimit_insert s (generateKey params) data) as (Hm & Hn & Hu).
  set (s1 := enforceSizeLimit _) in *.
  assert (Hgo : forall s', same_memory s1 s' ->
            memoryCache _ _ s' = insertBounded (maxMemoryItems _ _ s)
              (generateKey params) data (memoryCache _ _ s) /\
            maxMemoryItems _ _ s' = maxMemoryItems _ _ s /\
            useLocalStorage _ _ s' = useLocalStorage _ _ s).
  { intros s' (H1 & H2 & H3). repeat split; congruence. }
  destruct (useLocalStorage _ _ s1); [|apply Hgo, same_memory_refl].
  destruct (stringify data) as [dataStr|name]; [|apply Hgo, onSetError_memory].
  destruct (_ <? _); [apply Hgo, same_memory_refl|].
  unfold Cache.setItem. destruct (setItemError _ _ _) as [name|].
  - apply Hgo, onSetError_memory.
  - apply Hgo. eapply same_memory_trans; [|apply saveMetadata_memory].
    repeat split.
Qed.

Lemma get_hit params now s :
  JSMap.has (generateKey params) (memoryCache _ _ s) = true ->
  get params now s = (JSMap.get (generateKey params) (memoryCache _ _ s), s).
Proof. intros H. unfold Cache.get. rewrite H. reflexivity. Qed.

Lemma get_memory params now s :
  (memoryCache _ _ (snd (get params now s)) = memoryCache _ _ s \/
   exists cached,
     JSMap.has (generateKey params) (memoryCache _ _ s) = false /\
     memoryCache _ _ (snd (get params now s)) =
       insertBounded (maxMemoryItems _ _ s) (generateKey params) cached
         (memoryCache _ _ s)) /\
  maxMemoryItems _ _ (snd (get params now s)) = maxMemoryItems _ _ s /\
  useLocalStorage _ _ (snd (get params now s)) = useLocalStorage _ _ s.
Proof.
  unfold Cache.get.
  destruct (JSMap.has _ _) eqn:Hhas; [simpl; auto|].
  destruct (useLocalStorage _ _ s) eqn:Hu; [|simpl; auto].
  destruct (_ !! _) as [[cachedStr|?]|]; try (simpl; auto; fail).
  destruct (_ =? _); [simpl; auto|].
  destruct (parse cachedStr) as [cached|name]; [|simpl; auto].
  destruct (enforceSizeLimit_insert s (generateKey params) cached) as (Hm & Hn & Hu').
  set (s1 := enforceSizeLimit _) in *. simpl snd.
  assert (Hgo : forall s', same_memory s1 s' ->
    (memoryCache _ _ s' = memoryCache _ _ s \/
     exists cached0, false = false /\
       memoryCache _ _ s' = insertBounded (maxMemoryItems _ _ s)
         (generateKey params) cached0 (memoryCache _ _ s)) /\
    maxMemoryItems _ _ s' = maxMemoryItems _ _ s /\
    useLocalStorage _ _ s' = true).
  { intros s' (H1 & H2 & H3). split; [right; exists cached; split; congruence|].
    split; congruence. }
  destruct (JSMap.get _ (metadata _ _ s1)).
  - apply Hgo. eapply same_memory_trans; [|apply saveMetadata_memory].
    repeat split.
  - apply Hgo, same_memory_refl.
Qed.

Lemma insertBounded_length limit key data m :
  (length m <= limit)%nat ->
  (length (insertBounded limit key data m) <= limit)%nat.
Proof.
  intros Hle. unfold Cache.insertBounded.
  pose proof (length_set key data m) as Hlen.
  destruct (Nat.ltb_spec limit (length (JSMap.set key data m))); [|lia].
  destruct (JSMap.set key data m); simpl in *; destruct (JSMap.has key m); lia.
Qed.

Lemma step_bounded limit s op : bounded limit s -> bounded limit (step s op).
Proof.
  intros [Hn Hle]. unfold JSMap.size in *. destruct op as [params now|params data now]; simpl.
  - destruct (get_memory params now s) as ([Hm | (cached & _ & Hm)] & Hn' & _);
      split; try congruence; unfold JSMap.size; rewrite Hm; [lia|].
    rewrite Hn. apply insertBounded_length. exact Hle.
  - destruct (set_memory params data now s) as (Hm & Hn' & _).
    split; [congruence|]. unfold JSMap.size. rewrite Hm, Hn.
    apply insertBounded_length. exact Hle.
Qed.

Lemma new_bounded limit useStorage storage now :
  bounded limit (new limit useStorage storage now).
Proof.
  unfold Cache.new.
  set (s0 := mkState _ _ _ _ _ _ _).
  assert (H : same_memory s0 (cleanOldEntries false now (loadMetadata _ _ s0))).
  { eapply same_memory_trans; [apply loadMetadata_memory|].
    apply cleanOldEntries_memory. }
  destruct H as (H1 & H2 & _). split; [exact H2|].
  unfold JSMap.size. rewrite H1. simpl. lia.
Qed.

Lemma run_bounded limit ops : forall s, bounded limit s -> bounded limit (run ops s).
Proof.
  induction ops as [|op ops IH]; simpl; intros s Hs; [exact Hs|].
  apply IH, step_bounded, Hs.
Qed.
End CacheFacts.

(** C8: the memory tier never holds more than its limit after any sequence
    of [get] and [set]; an insertion of a new key into a full tier drops
    the first key in insertion order and appends the new one; below the
    limit nothing is dropped; setting a key that is present keeps the keys
    and their order; a memory hit returns the stored value and changes
    nothing. *)
Theorem memory_tier_insertion_order_cap
    (Data Payload : Type) (stringify : Data -> Exc Payload)
    (parse : Payload -> Exc Data) (strLength : Payload -> Z)
    (setItemError : gmap string (Cache.Item Payload) -> string ->
                    Cache.Item Payload -> option string) :
  let get := Cache.get Data Payload parse strLength setItemError in
  let set := Cache.set Data Payload stringify strLength setItemError in
  let run := Cache.run Data Payload stringify parse strLength setItemError in
  let new := Cache.new Data Payload setItemError in
  let memory := Cache.memoryCache Data Payload in
  let limit := Cache.maxMemoryItems Data Payload in
  (forall maxItems useStorage storage now ops,
     (JSMap.size (memory (run ops (new maxItems useStorage storage now)))
      <= maxItems)%nat) /\
  (forall s params data now,
     JSMap.has (Cache.generateKey params) (memory s) = false ->
     JSMap.size (memory s) = limit s -> (0 < limit s)%nat ->
     memory (set params data now s) =
       tail (memory s) ++ [(Cache.generateKey params, data)]) /\
  (forall s params data now,
     JSMap.has (Cache.generateKey params) (memory s) = false ->
     (JSMap.size (memory s) < limit s)%nat ->
     memory (set params data now s) =
       memory s ++ [(Cache.generateKey params, data)]) /\
  (forall s params data now,
     JSMap.has (Cache.generateKey params) (memory s) = true ->
     (JSMap.size (memory s) <= limit s)%nat ->
     JSMap.keys (memory (set params data now s)) = JSMap.keys (memory s)) /\
  (forall s params now,
     JSMap.has (Cache.generateKey params) (memory s) = true ->
     get params now s = (JSMap.get (Cache.generateKey params) (memory s), s)).
Proof.
  intros get set run new memory limit.
  split; [|split; [|split; [|split]]].
  - intros maxItems useStorage storage now ops.
    apply (run_bounded Data Payload stringify parse strLength setItemError maxItems).
    apply new_bounded.
  - intros s params data now Hhas Hsize Hpos.
    destruct (set_memory Data Payload stringify strLength setItemError
                params data now s) as (Hm & _).
    subst memory set limit. cbv beta in *. rewrite Hm.
    unfold Cache.insertBounded, JSMap.size in *.
    rewrite set_absent by exact Hhas. rewrite length_app. simpl.
    destruct (Nat.ltb_spec (Cache.maxMemoryItems Data Payload s)
                (length (Cache.memoryCache Data Payload s) + 1)); [|lia].
    destruct (Cache.memoryCache Data Payload s); simpl in *; [lia | reflexivity].
  - intros s params data now Hhas Hsize.
    destruct (set_memory Data Payload stringify strLength setItemError
                params data now s) as (Hm & _).
    subst memory set limit. cbv beta in *. rewrite Hm.
    unfold Cache.insertBounded, JSMap.size in *.
    rewrite set_absent by exact Hhas. rewrite length_app. simpl.
    destruct (Nat.ltb_spec (Cache.maxMemoryItems Data Payload s)
                (length (Cache.memoryCache Data Payload s) + 1)); [lia | reflexivity].
  - intros s params data now Hhas Hsize.
    destruct (set_memory Data Payload stringify strLength setItemError
                params data now s) as (Hm & _).
    subst memory set limit. cbv beta in *. rewrite Hm.
    unfold Cache.insertBounded, JSMap.size in *.
    pose proof (length_set (Cache.generateKey params) data
                  (Cache.memoryCache Data Payload s)) as Hlen.
    rewrite Hhas in Hlen. rewrite Hlen.
    destruct (Nat.ltb_spec (Cache.maxMemoryItems Data Payload s)
                (length (Cache.memoryCache Data Payload s))); [lia|].
    apply set_present_keys, Hhas.
  - intros s params now Hhas. apply get_hit. exact Hhas.
Qed.

Lemma memory_tier_insertion_order_cap_witness :
  Cache.memoryCache _ _
    (CacheExample.set CacheExample.orthographic 7 1
       (CacheExample.set CacheExample.mercator 5 0 CacheExample.oneSlot)) =
  [(Cache.generateKey CacheExample.orthographic, 7)].
Proof.
  refine (proj1 (proj2 (memory_tier_insertion_order_cap
            CacheExample.Data CacheExample.Payload CacheExample.stringify
            CacheExample.parse CacheExample.strLength CacheExample.setItemError))
          (CacheExample.set CacheExample.mercator 5 0 CacheExample.oneSlot)
          CacheExample.orthographic 7 1 _ _ _).
  - vm_compute. reflexivity.
  - vm_compute. reflexivity.
  - vm_compute. lia.
Defined.

Lemma get_app_absent {K V : Type} `{EqDecision K}
    (k : K) (m l : JSMap.t (K:=K) (V:=V)) :
  ~ In k (JSMap.keys m) -> JSMap.get k (m ++ l) = JSMap.get k l.
Proof.
  induction m as [|[k' v'] m IH]; simpl; intros Hn; [reflexivity|].
  destruct (decide (k' = k)) as [->|Hne]; [tauto|]. apply IH. tauto.
Qed.

Lemma insertBounded_keeps (Data : Type) (limit : nat) (key : string)
    (data : Data) (m : JSMap.t (K:=string) (V:=Data)) :
  (1 <= limit)%nat -> (length m <= limit)%nat ->
  JSMap.get key (Cache.insertBounded Data limit key data m) = Some data.
Proof.
  intros Hpos Hle. unfold Cache.insertBounded.
  pose proof (length_set key data m) as Hlen.
  destruct (JSMap.has key m) eqn:Hhas.
  - destruct (Nat.ltb_spec limit (length (JSMap.set key data m))); [lia|].
    apply get_set_same.
  - rewrite set_absent in * by exact Hhas.
    apply has_false in Hhas.
    destruct (Nat.ltb_spec limit (length (m ++ [(key, data)]))).
    + destruct m as [|[k0 v0] m0]; simpl in *; [lia|].
      rewrite get_app_absent by tauto. simpl.
      destruct (decide (key = key)); congruence.
    + rewrite get_app_absent by exact Hhas. simpl.
      destruct (decide (key = key)); congruence.
Qed.

Lemma get_Some_has {K V : Type} `{EqDecision K}
    (k : K) (v : V) (m : JSMap.t (K:=K) (V:=V)) :
  JSMap.get k m = Some v -> JSMap.has k m = true.
Proof.
  induction m as [|[k' v'] m IH]; simpl; [discriminate|].
  destruct (decide (k' = k)) as [->|Hne]; intros Hg.
  - rewrite bool_decide_eq_true_2 by reflexivity. reflexivity.
  - rewrite (IH Hg). apply orb_true_r.
Qed.

(** C10 (as the code has it): in a cache whose memory tier has room for at
    least one entry, [set] of a result whose serialisation is longer than
    4 MiB leaves [localStorage] and the metadata as they were, and the
    [get] that follows for the same parameters returns the result from the
    memory tier. *)
Theorem oversized_entry_memory_only
    (Data Payload : Type) (stringify : Data -> Exc Payload)
    (parse : Payload -> Exc Data) (strLength : Payload -> Z)
    (setItemError : gmap string (Cache.Item Payload) -> string ->
                    Cache.Item Payload -> option string)
    (s : Cache.State Data Payload) (params : Cache.Params) (data : Data)
    (dataStr : Payload) (now now' : Z) :
  let get := Cache.get Data Payload parse strLength setItemError in
  let set := Cache.set Data Payload stringify strLength setItemError in
  stringify data = Ok dataStr ->
  4 * 1024 * 1024 < strLength dataStr ->
  (1 <= Cache.maxMemoryItems _ _ s)%nat ->
  (JSMap.size (Cache.memoryCache _ _ s) <= Cache.maxMemoryItems _ _ s)%nat ->
  get params now' (set params data now s) = (Some data, set params data now s) /\
  Cache.localStorage _ _ (set params data now s) = Cache.localStorage _ _ s /\
  Cache.metadata _ _ (set params data now s) = Cache.metadata _ _ s.
Proof.
  intros get set Hstr Hbig Hpos Hle.
  destruct (set_memory Data Payload stringify strLength setItemError
              params data now s) as (Hm & _).
  assert (Hget : JSMap.get (Cache.generateKey params)
                   (Cache.memoryCache _ _ (set params data now s)) = Some data).
  { subst set. rewrite Hm. apply insertBounded_keeps; assumption. }
  split.
  - subst get. rewrite get_hit by (eapply get_Some_has; exact Hget).
    rewrite Hget. reflexivity.
  - subst set. unfold Cache.set. rewrite Hstr.
    destruct (Z.ltb_spec (4 * 1024 * 1024) (strLength dataStr)) as [_|]; [|lia].
    match goal with
    | |- context [Cache.enforceSizeLimit ?D ?P ?x] =>
        assert (Hs1 : Cache.localStorage D P (Cache.enforceSizeLimit D P x) =
                        Cache.localStorage D P s /\
                      Cache.metadata D P (Cache.enforceSizeLimit D P x) =
                        Cache.metadata D P s);
        [|destruct (Cache.useLocalStorage D P (Cache.enforceSizeLimit D P x));
          exact Hs1]
    end.
    unfold Cache.enforceSizeLimit. destruct (_ <? _)%nat; [|split; reflexivity].
    destruct (JSMap.keys _); split; reflexivity.
Qed.

Lemma oversized_entry_memory_only_witness :
  CacheExample.get CacheExample.mercator 1
    (CacheExample.set CacheExample.mercator CacheExample.large 0
       CacheExample.oneSlot) =
  (Some CacheExample.large,
   CacheExample.set CacheExample.mercator CacheExample.large 0
     CacheExample.oneSlot).
Proof.
  refine (proj1 (oversized_entry_memory_only
            CacheExample.Data CacheExample.Payload CacheExample.stringify
            CacheExample.parse CacheExample.strLength CacheExample.setItemError
            CacheExample.oneSlot CacheExample.mercator CacheExample.large
            5000000 0 1 _ _ _ _)).
  - reflexivity.
  - vm_compute. reflexivity.
  - vm_compute. lia.
  - vm_compute. lia.
Defined.

(** C10 as written fails when the memory tier has no room: the entry that
    [set] has just stored is the first key, and is deleted at once; the
    persistent tier refused it, so the [get] that follows misses. *)
Lemma oversized_entry_no_room_counterexample :
  CacheExample.stringify CacheExample.large = Ok 5000000 /\
  4 * 1024 * 1024 < CacheExample.strLength 5000000 /\
  fst (CacheExample.get CacheExample.mercator 1
         (CacheExample.set CacheExample.mercator CacheExample.large 0
            CacheExample.noRoom)) = None.
Proof. split; [reflexivity|]. split; vm_compute; reflexivity. Qed.

(** ** Bounding circles of the special regions *)

(** C7 (as the code has it): a centroid south of -60 gives the one fixed
    Antarctica circle; a centroid north of 50 with longitude strictly
    between 60 and 180 gives the one fixed Russia circle; a centroid north
    of 30 with longitude strictly between -180 and -30 gives exactly two
    circles, the mainland circle of 45 degrees at the centroid and the
    fixed Alaska circle of 360/7 (about 51.4) degrees. *)
Theorem special_region_circles {Feature : Type}
    (d3 : Geo.D3 Feature) (geometry : Feature) :
  let centroid := Geo.geoCentroid d3 geometry in
  ((snd centroid < -60)%Q ->
   Geo.calculateCircularBounds d3 geometry =
     Ok [Geo.mkBounds (0, -90)%Q 72 true true true Geo.antarctica]) /\
  ((50 < snd centroid)%Q -> (60 < fst centroid)%Q -> (fst centroid < 180)%Q ->
   Geo.calculateCircularBounds d3 geometry =
     Ok [Geo.mkBounds (100, 65)%Q 72 true true true Geo.russia]) /\
  ((30 < snd centroid)%Q -> (-180 < fst centroid)%Q -> (fst centroid < -30)%Q ->
   Geo.calculateCircularBounds d3 geometry =
     Ok [Geo.mkBounds centroid 45 false false true Geo.usa_main;
         Geo.mkBounds (-170, 65)%Q (360 / 7)%Q true true true Geo.usa_alaska]) /\
  (51.4 < 360 / 7 < 51.5)%Q.
Proof.
  intros centroid. unfold Geo.calculateCircularBounds.
  destruct (Geo.geoBounds d3 geometry) as [[minLon minLat] [maxLon maxLat]].
  fold centroid. destruct centroid as [lon lat]. simpl fst. simpl snd.
  split; [|split; [|split]].
  - intros Hlat. apply ltb_lt in Hlat. rewrite Hlat. reflexivity.
  - intros Hlat Hlo Hhi.
    assert (Ha : JS.ltb lat (-60) = false) by (apply ltb_ge; lra).
    apply ltb_lt in Hlat, Hlo, Hhi. rewrite Ha, Hlat, Hlo, Hhi. reflexivity.
  - intros Hlat Hlo Hhi.
    assert (Ha : JS.ltb lat (-60) = false) by (apply ltb_ge; lra).
    assert (Hr : JS.ltb 60 lon = false) by (apply ltb_ge; lra).
    apply ltb_lt in Hlat, Hlo, Hhi. rewrite Ha, Hr, Hlat, Hlo, Hhi.
    rewrite andb_false_r. reflexivity.
  - split; reflexivity.
Qed.

Lemma special_region_circles_witness :
  Geo.calculateCircularBounds BoxWorld.d3 BoxWorld.usa =
  Ok [Geo.mkBounds (Geo.geoCentroid BoxWorld.d3 BoxWorld.usa) 45
        false false true Geo.usa_main;
      BoxWorld.alaskaCircle].
Proof.
  refine (proj1 (proj2 (proj2
            (special_region_circles BoxWorld.d3 BoxWorld.usa))) _ _ _);
    vm_compute; reflexivity.
Defined.

(** C7 as written fails on the ends of the longitude intervals: with the
    centroid at longitude 60 or 180 (latitude 55), or at -30 or -180
    (latitude 40), the country gets one sampled circle of the general
    path, not a special-region circle. *)
Lemma special_region_interval_ends_counterexample :
  let general (b : BoxWorld.Box) :=
    match Geo.calculateCircularBounds BoxWorld.d3 b with
    | Ok [c] => Geo.regionType c = Geo.standard /\ Geo.isSpecialRegion c = false
    | _ => False
    end in
  let centroid (b : BoxWorld.Box) (lon lat : Q) :=
    (fst (Geo.geoCentroid BoxWorld.d3 b) == lon)%Q /\
    (snd (Geo.geoCentroid BoxWorld.d3 b) == lat)%Q in
  (centroid BoxWorld.centroidAt60 60%Q 55%Q /\
   general BoxWorld.centroidAt60) /\
  (centroid BoxWorld.centroidAt180 180%Q 55%Q /\
   general BoxWorld.centroidAt180) /\
  (centroid BoxWorld.centroidAtMinus30 (-30)%Q 40%Q /\
   general BoxWorld.centroidAtMinus30) /\
  (centroid BoxWorld.centroidAtMinus180 (-180)%Q 40%Q /\
   general BoxWorld.centroidAtMinus180).
Proof. vm_compute. repeat split. Qed.

(** ** The spatial grid *)

(** C4, at the Alaska circle (centre (-170, 65), radius 360/7 degrees):
    the build walks the longitudes -230 to -120; the corners below -180
    keep their value as a key, so the circle is stored under longitudes
    -230 to -190, and the wrapped cells 130 to 170 that its box overlaps do
    not list it. *)
Theorem alaska_circle_cells_not_wrapped :
  let grid := Geo.initializeSpatialGrid [BoxWorld.alaskaEntry] in
  Geo.lonCells BoxWorld.alaskaCircle =
    [-230; -220; -210; -200; -190; -180; -170; -160; -150; -140; -130; -120] /\
  Geo.wrapCell (-230) = -230 /\
  grid !! (60, -230) = Some [BoxWorld.alaskaEntry] /\
  grid !! (60, 130) = None /\
  Geo.getGridCell (135, 65)%Q = (60, 130).
Proof. vm_compute. repeat split. Qed.

(** ** The point classifier does not throw *)

Lemma bind_Ok {A B : Type} (a : A) (k : A -> Exc B) : (Ok a ≫= k) = k a.
Proof. reflexivity. Qed.

Lemma bind_Throw {A B : Type} (name : string) (k : A -> Exc B) :
  (Throw name ≫= k) = Throw name.
Proof. reflexivity. Qed.

Lemma invalid_coordinate_rejected (lon lat : JS.Num) :
  JS.isFinite lon = false \/ JS.isFinite lat = false \/
  (exists q, lat = JS.Fin q /\ (90 < Qabs q)%Q) ->
  Classifier.isValidCoordinate (lon, lat) = false.
Proof.
  unfold Classifier.isValidCoordinate.
  intros [Hlon | [Hlat | (q & -> & Hq)]].
  - destruct lon; try discriminate Hlon; simpl;
      rewrite ?andb_false_r; reflexivity.
  - destruct lat; try discriminate Hlat; simpl;
      rewrite ?andb_false_r; reflexivity.
  - simpl. assert (H : JS.leb (Qabs q) 90 = false).
    { destruct (JS.leb (Qabs q) 90) eqn:E; [|reflexivity].
      apply leb_le in E. lra. }
    rewrite H, andb_false_r. reflexivity.
Qed.

(** A coordinate that passes [isValidCoordinate] has two finite
    components: the last branch of the body is never taken. *)
Lemma valid_coordinate_finite (lon lat : JS.Num) :
  Classifier.isValidCoordinate (lon, lat) = true ->
  exists qlon qlat, lon = JS.Fin qlon /\ lat = JS.Fin qlat.
Proof.
  unfold Classifier.isValidCoordinate.
  destruct lon, lat; simpl; rewrite ?andb_false_r; try discriminate; eauto.
Qed.

(** C6: [getCountryAtPointSlow] returns for every point and never throws;
    a coordinate with a component that is not finite, or with a latitude
    beyond 90 degrees, gives [null]; and whenever the inversion or anything
    else in the body (a containment test) throws, the result is [null]. *)
Theorem classifier_never_throws {Feature : Type}
    (d3 : Geo.D3 Feature) (w : Classifier.World (Feature:=Feature))
    (point : Z * Z) :
  (exists country, Classifier.getCountryAtPointSlow d3 w point = Ok country) /\
  (forall lon lat,
     Classifier.invert w point = Ok (Some (lon, lat)) ->
     JS.isFinite lon = false \/ JS.isFinite lat = false \/
     (exists q, lat = JS.Fin q /\ (90 < Qabs q)%Q) ->
     Classifier.getCountryAtPointSlow d3 w point = Ok None) /\
  (forall name,
     Classifier.invert w point = Throw name ->
     Classifier.getCountryAtPointSlow d3 w point = Ok None) /\
  (forall name,
     Classifier.getCountryAtPointSlowBody d3 w point = Throw name ->
     Classifier.getCountryAtPointSlow d3 w point = Ok None).
Proof.
  unfold Classifier.getCountryAtPointSlow.
  split; [|split; [|split]].
  - destruct (Classifier.getCountryAtPointSlowBody d3 w point) as [c|name];
      simpl; eauto.
  - intros lon lat Hinv Hbad.
    unfold Classifier.getCountryAtPointSlowBody. rewrite Hinv, bind_Ok.
    rewrite (invalid_coordinate_rejected lon lat Hbad). reflexivity.
  - intros name Hinv.
    unfold Classifier.getCountryAtPointSlowBody. rewrite Hinv. reflexivity.
  - intros name Hbody. rewrite Hbody. reflexivity.
Qed.

(** Two instances: a projection that returns [NaN] for the longitude, and
    a containment test that throws on the candidate of pixel (185, 85). *)
Lemma classifier_never_throws_witness :
  Classifier.getCountryAtPointSlow BoxWorld.d3
    (Classifier.withProjection BoxWorld.twoSquares
       (fun _ => Ok (Some (JS.NaN, JS.Fin 0)))) (0, 0) = Ok None /\
  Classifier.getCountryAtPointSlow BoxWorld.throwingD3
    BoxWorld.twoSquares (185, 85) = Ok None.
Proof.
  split.
  - refine (proj1 (proj2 (classifier_never_throws BoxWorld.d3 _ (0, 0)))
              JS.NaN (JS.Fin 0) _ _).
    + reflexivity.
    + left. reflexivity.
  - refine (proj2 (proj2 (proj2 (classifier_never_throws BoxWorld.throwingD3
              BoxWorld.twoSquares (185, 85)))) "TypeError" _).
    vm_compute. reflexivity.
Defined.

(** ** The lookup map and the two callers *)

(** [calculateDots] reads the map only when its size is that of the
    query at the resolution of the map. *)
Lemma calculateDots_checks_dimensions {Feature : Type}
    `{EqDecision Feature} (d3 : Geo.D3 Feature)
    (w : Classifier.World (Feature:=Feature)) (q : Classifier.Query)
    (m : Classifier.LookupMap) (point : Z * Z) :
  Classifier.countryLookupMap w = Some m ->
  (Classifier.mapWidth m <>
     JS.ceil_div (Classifier.width q) (Classifier.resolution m) \/
   Classifier.mapHeight m <>
     JS.ceil_div (Classifier.height q) (Classifier.resolution m)) ->
  Classifier.dotsClassify d3 w q point =
  Classifier.getCountryAtPointSlow d3 w point.
Proof.
  intros Hm Hne. unfold Classifier.dotsClassify, Classifier.useFast.
  rewrite Hm.
  destruct (Z.eqb_spec (Classifier.mapWidth m)
              (JS.ceil_div (Classifier.width q) (Classifier.resolution m)));
  destruct (Z.eqb_spec (Classifier.mapHeight m)
              (JS.ceil_div (Classifier.height q) (Classifier.resolution m)));
  simpl; try reflexivity. tauto.
Qed.

(** [processChunk] reads the map whenever there is one: the query is not
    looked at. *)
Lemma processChunk_reads_any_map {Feature : Type}
    `{EqDecision Feature} (d3 : Geo.D3 Feature)
    (w : Classifier.World (Feature:=Feature))
    (m : Classifier.LookupMap) (point : Z * Z) :
  Classifier.countryLookupMap w = Some m ->
  Classifier.chunkClassify d3 w point =
  Classifier.getCountryAtPointFast d3 w point.
Proof. intros Hm. unfold Classifier.chunkClassify. rewrite Hm. reflexivity. Qed.

(** C3, at a map built for a 36 x 18 canvas and a query for 360 x 180:
    the sizes do not match, [calculateDots] classifies pixel (185, 85)
    with the tiered pipeline and finds country A, and [processChunk] reads
    the map of the other canvas and reports ocean, so that the chunk holds
    no dot. *)
Theorem processChunk_reads_stale_map :
  let w := BoxWorld.withStaleMap in
  let pixel := (185, 85) in
  Classifier.useFast w BoxWorld.globe = false /\
  Classifier.getCountryAtPointSlow BoxWorld.d3 w pixel = Ok (Some BoxWorld.squareA) /\
  Classifier.dotsClassify BoxWorld.d3 w BoxWorld.globe pixel =
    Ok (Some BoxWorld.squareA) /\
  Classifier.chunkClassify BoxWorld.d3 w pixel = Ok None /\
  snd (Classifier.processChunk BoxWorld.d3 BoxWorld.boxName w BoxWorld.globe
         (Scheduler.mkChunk 185 190 85 90)) = Ok [].
Proof. vm_compute. repeat split. Qed.

(** ** What the grid cells hold *)

Section GridCells.
Import Geo.
Context {Feature : Type}.
Implicit Types (e : Entry (Feature:=Feature)) (key : Z * Z).
Implicit Types (grid : gmap (Z * Z) (list (Entry (Feature:=Feature)))).

Lemma gridPush_lookup grid k e key :
  default [] (gridPush grid k e !! key) =
  default [] (grid !! key) ++ (if bool_decide (k = key) then [e] else []).
Proof.
  unfold gridPush. case_bool_decide as Hk.
  - subst k. rewrite lookup_insert_eq. reflexivity.
  - rewrite lookup_insert_ne by exact Hk. rewrite app_nil_r. reflexivity.
Qed.

Lemma row_lookup e key lat (lons : list Z) : forall grid,
  default []
    (fold_left (fun g lon => gridPush g (lat, wrapCell lon) e) lons grid !! key) =
  default [] (grid !! key) ++ repeat e (hitsInRow key lat lons).
Proof.
  unfold hitsInRow.
  induction lons as [|lon lons IH]; simpl; intros grid.
  - rewrite app_nil_r. reflexivity.
  - rewrite IH, gridPush_lookup. rewrite filter_cons.
    destruct (decide ((lat, wrapCell lon) = key)) as [Hk|Hk].
    + rewrite (bool_decide_eq_true_2 _ Hk). simpl.
      rewrite <- app_assoc. reflexivity.
    + rewrite (bool_decide_eq_false_2 _ Hk). simpl.
      rewrite app_nil_r. reflexivity.
Qed.

Lemma addCircle_lookup grid e key :
  default [] (addCircle grid e !! key) =
  default [] (grid !! key) ++ repeat e (hits key e).
Proof.
  unfold addCircle, hits.
  generalize (lonCells (bounds e)) as lons. intros lons.
  revert grid. induction (latCells (bounds e)) as [|lat lats IH]; simpl; intros grid.
  - rewrite app_nil_r. reflexivity.
  - rewrite IH, row_lookup, repeat_app, app_assoc. reflexivity.
Qed.

Lemma fold_addCircle_lookup (circles : list (Entry (Feature:=Feature))) key :
  forall grid,
  default [] (fold_left addCircle circles grid !! key) =
  default [] (grid !! key) ++ flat_map (fun e => repeat e (hits key e)) circles.
Proof.
  induction circles as [|e circles IH]; simpl; intros grid.
  - rewrite app_nil_r. reflexivity.
  - rewrite IH, addCircle_lookup, app_assoc. reflexivity.
Qed.

(** A cell lists the circles in the order of [countryCircles], each as
    often as the build reached the key from it. *)
Lemma initializeSpatialGrid_lookup (circles : list (Entry (Feature:=Feature))) key :
  default [] (initializeSpatialGrid circles !! key) =
  flat_map (fun e => repeat e (hits key e)) circles.
Proof.
  unfold initializeSpatialGrid. rewrite fold_addCircle_lookup.
  rewrite lookup_empty. reflexivity.
Qed.

Lemma hits_walked e lat lon :
  In lat (latCells (bounds e)) -> In lon (lonCells (bounds e)) ->
  (0 < hits (lat, wrapCell lon) e)%nat.
Proof.
  intros Hlat Hlon. unfold hits.
  assert (Hrow : (0 < hitsInRow (lat, wrapCell lon) lat (lonCells (bounds e)))%nat).
  { unfold hitsInRow.
    assert (Hin : lon ∈ filter
              (fun lon' => bool_decide ((lat, wrapCell lon') = (lat, wrapCell lon)))
              (lonCells (bounds e))).
    { apply list_elem_of_filter. split; [|apply list_elem_of_In, Hlon].
      apply bool_decide_pack. reflexivity. }
    destruct (filter _ _); [inversion Hin | simpl; lia]. }
  revert Hlat. induction (latCells (bounds e)) as [|lat' lats IH]; simpl.
  - intros [].
  - intros [-> | Hin]; [lia|]. specialize (IH Hin). lia.
Qed.

(** The part of the grid invariant that holds: a circle is listed in
    every cell whose corner the build walks for it, under the key that
    [wrapCell] gives that corner. *)
Lemma initializeSpatialGrid_lists_walked_cells
    (circles : list (Entry (Feature:=Feature))) e lat lon :
  In e circles ->
  In lat (latCells (bounds e)) -> In lon (lonCells (bounds e)) ->
  In e (default [] (initializeSpatialGrid circles !! (lat, wrapCell lon))).
Proof.
  intros He Hlat Hlon. rewrite initializeSpatialGrid_lookup.
  apply in_flat_map. exists e. split; [exact He|].
  pose proof (hits_walked e lat lon Hlat Hlon) as Hpos.
  destruct (hits (lat, wrapCell lon) e); [lia | left; reflexivity].
Qed.
End GridCells.

(** ** The cells that the build walks are the cells that the box meets *)

Lemma floor_cell (x : Q) (m : Z) :
  JS.floor (x / inject_Z Geo.GRID_SIZE) * Geo.GRID_SIZE <= Geo.GRID_SIZE * m <->
  (x < inject_Z (Geo.GRID_SIZE * m + Geo.GRID_SIZE))%Q.
Proof.
  unfold JS.floor, Geo.GRID_SIZE.
  change (inject_Z 10) with 10%Q.
  assert (Hx : (x == 10 * (x / 10))%Q) by field.
  revert Hx. generalize (x / 10)%Q. intros x10 Hx.
  pose proof (Qfloor_le x10) as Hle.
  pose proof (Qlt_floor x10) as Hlt.
  rewrite inject_Z_plus, inject_Z_mult. change (inject_Z 10) with 10%Q.
  rewrite inject_Z_plus in Hlt. change (inject_Z 1) with 1%Q in Hlt.
  split; intros H.
  - assert (Hm : (Qfloor x10 <= m)%Z) by lia.
    rewrite Zle_Qle in Hm. lra.
  - assert (Hm : (Qfloor x10 <= m)%Z); [|lia].
    destruct (Z_le_gt_dec (Qfloor x10) m) as [?|Hgt]; [assumption|].
    assert (Hm1 : (m + 1 <= Qfloor x10)%Z) by lia.
    rewrite Zle_Qle, inject_Z_plus in Hm1. change (inject_Z 1) with 1%Q in Hm1.
    lra.
Qed.

Lemma ceil_cell (y : Q) (m : Z) :
  Geo.GRID_SIZE * m < JS.ceil (y / inject_Z Geo.GRID_SIZE) * Geo.GRID_SIZE <->
  (inject_Z (Geo.GRID_SIZE * m) < y)%Q.
Proof.
  unfold JS.ceil, Geo.GRID_SIZE.
  change (inject_Z 10) with 10%Q.
  assert (Hy : (y == 10 * (y / 10))%Q) by field.
  revert Hy. generalize (y / 10)%Q. intros y10 Hy.
  pose proof (Qle_ceiling y10) as Hle.
  pose proof (Qceiling_lt y10) as Hlt.
  rewrite inject_Z_mult. change (inject_Z 10) with 10%Q.
  unfold Z.sub in Hlt. rewrite inject_Z_plus in Hlt.
  change (inject_Z (- (1))) with (-1)%Q in Hlt.
  split; intros H.
  - assert (Hm : (m + 1 <= Qceiling y10)%Z) by lia.
    rewrite Zle_Qle, inject_Z_plus in Hm. change (inject_Z 1) with 1%Q in Hm.
    lra.
  - assert (Hm : (m < Qceiling y10)%Z); [|lia].
    rewrite Zlt_Qlt. lra.
Qed.

Lemma latCells_spec (b : Geo.Bounds) (lat : Z) :
  In lat (Geo.latCells b) <->
  (exists k, lat = Geo.GRID_SIZE * k) /\ -90 <= lat < 90 /\
  (snd (Geo.center b) - Geo.radius b < inject_Z (lat + Geo.GRID_SIZE))%Q /\
  (inject_Z lat < snd (Geo.center b) + Geo.radius b)%Q.
Proof.
  unfold Geo.latCells. rewrite js_range_In by (unfold Geo.GRID_SIZE; lia).
  pose proof (floor_cell (snd (Geo.center b) - Geo.radius b)) as Hfloor.
  pose proof (ceil_cell (snd (Geo.center b) + Geo.radius b)) as Hceil.
  pose proof (eq_refl : Geo.GRID_SIZE = 10) as Hgrid.
  revert Hfloor Hceil.
  generalize (JS.floor ((snd (Geo.center b) - Geo.radius b) / inject_Z Geo.GRID_SIZE)).
  generalize (JS.ceil ((snd (Geo.center b) + Geo.radius b) / inject_Z Geo.GRID_SIZE)).
  intros c f Hfloor Hceil.
  split.
  - intros (k & Hk & Heq & Hlt).
    assert (Hmult : exists m, lat = Geo.GRID_SIZE * m).
    { destruct (Z.max_spec (-90) (f * Geo.GRID_SIZE)) as [[_ Hmax] | [_ Hmax]];
        rewrite Hmax in Heq.
      - exists (f + k). lia.
      - exists (-9 + k). lia. }
    destruct Hmult as [m Hm]. split; [eauto|]. split; [lia|].
    rewrite Hm. split.
    + apply Hfloor. lia.
    + apply Hceil. lia.
  - intros ([m Hm] & Hrange & Hlo & Hhi). rewrite Hm in Hlo, Hhi.
    apply Hfloor in Hlo. apply Hceil in Hhi.
    destruct (Z.max_spec (-90) (f * Geo.GRID_SIZE)) as [[_ Hmax] | [_ Hmax]];
      rewrite Hmax.
    + exists (m - f). lia.
    + exists (m + 9). lia.
Qed.

Lemma lonCells_spec (b : Geo.Bounds) (lon : Z) :
  In lon (Geo.lonCells b) <->
  (exists k, lon = Geo.GRID_SIZE * k) /\
  (fst (Geo.center b) - Geo.radius b < inject_Z (lon + Geo.GRID_SIZE))%Q /\
  (inject_Z lon < fst (Geo.center b) + Geo.radius b)%Q.
Proof.
  unfold Geo.lonCells. rewrite js_range_In by (unfold Geo.GRID_SIZE; lia).
  pose proof (floor_cell (fst (Geo.center b) - Geo.radius b)) as Hfloor.
  pose proof (ceil_cell (fst (Geo.center b) + Geo.radius b)) as Hceil.
  pose proof (eq_refl : Geo.GRID_SIZE = 10) as Hgrid.
  revert Hfloor Hceil.
  generalize (JS.floor ((fst (Geo.center b) - Geo.radius b) / inject_Z Geo.GRID_SIZE)).
  generalize (JS.ceil ((fst (Geo.center b) + Geo.radius b) / inject_Z Geo.GRID_SIZE)).
  intros c f Hfloor Hceil.
  split.
  - intros (k & Hk & Heq & Hlt).
    assert (Hm : lon = Geo.GRID_SIZE * (f + k)) by lia.
    split; [eauto|]. rewrite Hm. split.
    + apply Hfloor. lia.
    + apply Hceil. lia.
  - intros ([m Hm] & Hlo & Hhi). rewrite Hm in Hlo, Hhi.
    apply Hfloor in Hlo. apply Hceil in Hhi.
    exists (m - f). lia.
Qed.

(** The part of the grid invariant that holds as the specification has
    it, up to the key: every circle is listed for every cell that its box
    meets, under the key that [wrapCell] gives the corner of the cell. *)
Lemma initializeSpatialGrid_covers_overlapping_cells {Feature : Type}
    (circles : list (Geo.Entry (Feature:=Feature)))
    (e : Geo.Entry (Feature:=Feature)) (lat lon : Z) :
  In e circles -> Geo.overlapsCell (Geo.bounds e) lat lon ->
  In e (default [] (Geo.initializeSpatialGrid circles !! (lat, Geo.wrapCell lon))).
Proof.
  intros He (Hlat & Hlon & Hrange & H1 & H2 & H3 & H4).
  apply initializeSpatialGrid_lists_walked_cells; [exact He| |].
  - apply latCells_spec. tauto.
  - apply lonCells_spec. tauto.
Qed.

(** ** The tiered pipeline against brute force *)

Section Tiered.
Import Geo Classifier.
Context {Feature : Type} `{EqDecision Feature}.
Variable d3 : D3 Feature.

(** Containment tests that do not throw. *)
Variable contains : Feature -> Q * Q -> bool.
Hypothesis geoContains_total :
  forall c p, geoContains d3 c p = Ok (contains c p).

Lemma containsAny_total c lat lons :
  containsAny d3 c lat lons = Ok (existsb (fun l => contains c (l, lat)) lons).
Proof.
  induction lons as [|l lons IH]; simpl; [reflexivity|].
  rewrite geoContains_total, bind_Ok.
  destruct (contains c (l, lat)); [reflexivity | exact IH].
Qed.

Lemma firstMatch_total (test : Entry -> Exc bool) (testb : Entry -> bool)
    (entries : list (Entry (Feature:=Feature))) :
  (forall e, test e = Ok (testb e)) ->
  firstMatch test entries = Ok (country <$> List.find testb entries).
Proof.
  intros Ht. induction entries as [|e entries IH]; simpl; [reflexivity|].
  rewrite Ht, bind_Ok. destruct (testb e); [reflexivity | exact IH].
Qed.

Lemma generalTest_total lons lat e :
  generalTest d3 lons lat e =
  Ok (prefilter d3 lons lat (bounds e) &&
      existsb (fun l => contains (country e) (l, lat)) lons).
Proof.
  unfold generalTest, prefilter. rewrite containsAny_total.
  destruct (isPolar (bounds e) || crossesAntimeridian (bounds e)); simpl;
    [reflexivity|].
  destruct (withinBounds d3 lons lat (bounds e)); reflexivity.
Qed.

Lemma bruteForce_total countries p :
  bruteForce d3 countries p = Ok (List.find (fun c => contains c p) countries).
Proof.
  induction countries as [|c countries IH]; simpl; [reflexivity|].
  rewrite geoContains_total, bind_Ok.
  destruct (contains c p); [reflexivity | exact IH].
Qed.

Lemma find_app_l {A : Type} (f : A -> bool) (l1 l2 : list A) :
  List.find f (l1 ++ l2) =
  match List.find f l1 with Some a => Some a | None => List.find f l2 end.
Proof.
  induction l1 as [|a l1 IH]; simpl; [reflexivity|].
  destruct (f a); [reflexivity | exact IH].
Qed.

(** Entries grouped by country, in the order of the countries: the first
    entry that passes belongs to the first country that contains the
    point, provided every such country has an entry that passes the
    prefilter. *)
Lemma find_grouped (pre : Entry (Feature:=Feature) -> bool)
    (inside : Feature -> bool)
    (group : Feature -> list (Entry (Feature:=Feature)))
    (countries : list Feature) :
  (forall c e, In e (group c) -> country e = c) ->
  (forall c, In c countries -> inside c = true ->
     exists e, In e (group c) /\ pre e = true) ->
  country <$> List.find (fun e => pre e && inside (country e))
                (flat_map group countries) =
  List.find inside countries.
Proof.
  intros Hgroup. induction countries as [|c countries IH]; intros Hsound;
    simpl; [reflexivity|].
  rewrite find_app_l.
  destruct (inside c) eqn:Hc.
  - destruct (Hsound c (or_introl eq_refl) Hc) as (e & He & Hpre).
    destruct (List.find _ (group c)) as [e'|] eqn:Hfind.
    + apply find_some in Hfind as [Hin _]. simpl. f_equal.
      apply Hgroup, Hin.
    + exfalso. pose proof (find_none _ _ Hfind _ He) as Hno.
      simpl in Hno. rewrite Hpre, (Hgroup _ _ He), Hc in Hno. discriminate Hno.
  - destruct (List.find _ (group c)) as [e'|] eqn:Hfind.
    + apply find_some in Hfind as [Hin Htest].
      rewrite (Hgroup _ _ Hin), Hc, andb_false_r in Htest. discriminate Htest.
    + apply IH. intros c' Hin. apply Hsound. right. exact Hin.
Qed.

Lemma buildCountryCircles_flat countries : forall acc circles,
  foldExc (fun acc country =>
             bs ← calculateCircularBounds d3 country;
             Ok (acc ++ map (mkEntry country) bs)) countries acc = Ok circles ->
  circles = acc ++ flat_map (fun c => map (mkEntry c) (boundsOf d3 c)) countries.
Proof.
  induction countries as [|c countries IH]; simpl; intros acc circles Hfold.
  - injection Hfold as <-. rewrite app_nil_r. reflexivity.
  - unfold boundsOf at 1.
    destruct (calculateCircularBounds d3 c) as [bs|name]; [|discriminate Hfold].
    rewrite bind_Ok in Hfold. rewrite bind_Ok in Hfold.
    apply IH in Hfold. rewrite Hfold, <- app_assoc. reflexivity.
Qed.

Lemma flat_map_flat_map {A B C : Type} (f : A -> list B) (g : B -> list C)
    (l : list A) :
  flat_map g (flat_map f l) = flat_map (fun a => flat_map g (f a)) l.
Proof.
  induction l as [|a l IH]; simpl; [reflexivity|].
  rewrite flat_map_app, IH. reflexivity.
Qed.

Lemma cellCandidates_grouped (w : World) p :
  initialized d3 w ->
  cellCandidates (spatialGrid w) p =
  flat_map (cellGroup d3 (getGridCell p)) (features w).
Proof.
  intros [Hc Hg]. unfold cellCandidates. rewrite Hg.
  rewrite initializeSpatialGrid_lookup.
  apply buildCountryCircles_flat in Hc. simpl in Hc. rewrite Hc.
  apply flat_map_flat_map.
Qed.

Lemma cellGroup_country key c e : In e (cellGroup d3 key c) -> country e = c.
Proof.
  unfold cellGroup. intros Hin.
  apply in_flat_map in Hin as (e' & He' & Hrep).
  apply repeat_spec in Hrep. subst e.
  apply in_map_iff in He' as (b & <- & _). reflexivity.
Qed.
End Tiered.

Lemma specialTest_total {Feature : Type} (d3 : Geo.D3 Feature)
    (contains : Feature -> Q * Q -> bool) (lon lat : Q)
    (e : Geo.Entry (Feature:=Feature)) :
  (forall c p, Geo.geoContains d3 c p = Ok (contains c p)) ->
  Classifier.specialTest d3 lon lat e =
  Ok (Geo.isSpecialRegion (Geo.bounds e) &&
      existsb (fun l => contains (Geo.country e) (l, lat))
        (Classifier.testLons lon)).
Proof.
  intros Htotal. unfold Classifier.specialTest.
  rewrite (containsAny_total d3 contains Htotal).
  destruct (Geo.isSpecialRegion (Geo.bounds e)); reflexivity.
Qed.

Lemma find_all_false {A : Type} (f : A -> bool) (l : list A) :
  (forall a, In a l -> f a = false) -> List.find f l = None.
Proof.
  induction l as [|a l IH]; simpl; intros Hf; [reflexivity|].
  rewrite (Hf a (or_introl eq_refl)). apply IH. intros a' Ha'. apply Hf. right.
  exact Ha'.
Qed.

(** C1 (as the code has it): take a point whose coordinate is valid, at
    least 30 degrees away from the antimeridian, and either at latitude at
    most 60 or inside no country that has a special-region circle.  The
    tiered pipeline returns for it what the brute-force test over every
    country returns, provided no containment test throws and every country
    that contains the point has, in the grid cell of the point, a circle
    that is polar or antimeridian-crossing or whose radius reaches the
    point. *)
Theorem tiered_pipeline_agrees_with_brute_force
    {Feature : Type} `{EqDecision Feature} (d3 : Geo.D3 Feature)
    (contains : Feature -> Q * Q -> bool)
    (w : Classifier.World (Feature:=Feature))
    (projection : Geo.Projection) (point : Z * Z) (lon0 lat : Q) :
  let lon := wrapLongitude lon0 in
  (forall c p, Geo.geoContains d3 c p = Ok (contains c p)) ->
  Classifier.initialized d3 w ->
  Classifier.currentProjection w = Some projection ->
  projection point = Ok (Some (JS.Fin lon0, JS.Fin lat)) ->
  (Qabs lat <= 90)%Q -> (-150 <= lon)%Q -> (lon <= 150)%Q ->
  ((Qabs lat <= 60)%Q \/
   forall e, In e (Classifier.countryCircles w) ->
     Geo.isSpecialRegion (Geo.bounds e) = true ->
     contains (Geo.country e) (lon, lat) = false) ->
  (forall c, In c (Classifier.features w) -> contains c (lon, lat) = true ->
     exists e, In e (Geo.cellCandidates (Classifier.spatialGrid w) (lon, lat)) /\
               Geo.country e = c /\
               Classifier.prefilter d3 [lon] lat (Geo.bounds e) = true) ->
  Classifier.getCountryAtPointSlow d3 w point =
  Classifier.bruteForce d3 (Classifier.features w) (lon, lat).
Proof.
  intros lon Htotal Hinit Hcur Hproj Hlat Hlo Hhi Hspecial Hsound.
  assert (Hvalid : JS.leb (Qabs lat) 90 = true) by (apply leb_le; lra).
  assert (Heast : JS.ltb 150 lon = false) by (apply ltb_ge; lra).
  assert (Hwest : JS.ltb lon (-150) = false) by (apply ltb_ge; lra).
  unfold Classifier.getCountryAtPointSlow, Classifier.getCountryAtPointSlowBody.
  unfold Classifier.invert. rewrite Hcur, Hproj, bind_Ok.
  unfold Classifier.isValidCoordinate, JS.isNaN, JS.isFinite, JS.absLeb.
  rewrite Hvalid. simpl negb. cbv iota. simpl andb. cbv iota.
  unfold Classifier.classify. fold lon.
  rewrite Hwest, andb_false_r, bind_Ok, Heast, orb_false_r.
  assert (Htier2 :
    (if JS.ltb 60 (Qabs lat)
     then Classifier.firstMatch (Classifier.specialTest d3 lon lat)
            (Classifier.countryCircles w)
     else Ok None) = Ok None).
  { destruct (JS.ltb 60 (Qabs lat)) eqn:Hhigh; [|reflexivity].
    destruct Hspecial as [Hlow | Hnone]; [apply ltb_lt in Hhigh; lra|].
    rewrite (firstMatch_total _
               (fun e => Geo.isSpecialRegion (Geo.bounds e) &&
                         existsb (fun l => contains (Geo.country e) (l, lat))
                           (Classifier.testLons lon)))
      by (intros e; apply specialTest_total, Htotal).
    rewrite find_all_false; [reflexivity|].
    intros e He. unfold Classifier.testLons. rewrite Heast, Hwest. simpl.
    destruct (Geo.isSpecialRegion (Geo.bounds e)) eqn:Hs; [|reflexivity].
    rewrite (Hnone e He Hs). reflexivity. }
  rewrite Htier2, bind_Ok.
  unfold Classifier.testLons. rewrite Heast, Hwest. simpl app.
  unfold Classifier.candidates. simpl flat_map. rewrite app_nil_r.
  rewrite (firstMatch_total
             (Classifier.generalTest d3 [lon] lat)
             (fun e => Classifier.prefilter d3 [lon] lat (Geo.bounds e) &&
                       contains (Geo.country e) (lon, lat))).
  2:{ intros e. rewrite (generalTest_total d3 contains Htotal). simpl existsb.
      rewrite orb_false_r. reflexivity. }
  rewrite (bruteForce_total d3 contains Htotal). simpl tryCatch. f_equal.
  rewrite (cellCandidates_grouped d3 w (lon, lat) Hinit).
  apply (find_grouped
           (fun e => Classifier.prefilter d3 [lon] lat (Geo.bounds e))
           (fun c => contains c (lon, lat))).
  - intros c e. apply cellGroup_country.
  - intros c Hin Hc. destruct (Hsound c Hin Hc) as (e & He & Hce & Hpre).
    exists e. split; [|exact Hpre].
    rewrite (cellCandidates_grouped d3 w (lon, lat) Hinit) in He.
    apply in_flat_map in He as (c' & _ & He).
    rewrite <- Hce, (cellGroup_country d3 _ _ _ He) at 1. exact He.
Qed.

(** The end-to-end scenario of the specification: pixel (185, 85) of the
    360 x 180 globe, at longitude 5 and latitude 5, inside country A. *)
Lemma tiered_pipeline_agrees_with_brute_force_witness :
  Classifier.getCountryAtPointSlow BoxWorld.d3 BoxWorld.twoSquares (185, 85) =
  Classifier.bruteForce BoxWorld.d3 [BoxWorld.squareA; BoxWorld.squareB]
    (wrapLongitude (inject_Z 185 * 360 / inject_Z 360 - 180),
     (90 - inject_Z 85 * 180 / inject_Z 180)%Q).
Proof.
  refine (tiered_pipeline_agrees_with_brute_force BoxWorld.d3
            BoxWorld.boxContains BoxWorld.twoSquares
            (BoxWorld.equirectangular 360 180) (185, 85) _ _
            _ _ _ _ _ _ _ _ _).
  - intros c p. reflexivity.
  - split; vm_compute; reflexivity.
  - reflexivity.
  - reflexivity.
  - vm_compute. discriminate.
  - vm_compute. discriminate.
  - vm_compute. discriminate.
  - left. vm_compute. discriminate.
  - intros c Hin Hc. vm_compute in Hin. destruct Hin as [<- | [<- | []]].
    + exists BoxWorld.squareAEntry. split; [|split].
      * vm_compute. left. reflexivity.
      * reflexivity.
      * vm_compute. reflexivity.
    + vm_compute in Hc. discriminate Hc.
Defined.

(** C1 as written fails: the arctic territory of the examples gets the
    generic polar circle of 60 degrees at its centroid (25, 65), which
    reaches the cells of longitude -40 to 80 only.  Pixel (280, 40) lies at
    longitude 100 and latitude 50, inside the territory; no circle of the
    world is a special-region circle; the pipeline finds no candidate in
    the cell (50, 100) and returns [null], the brute-force test returns the
    territory. *)
Lemma tiered_pipeline_arctic_counterexample :
  let w := BoxWorld.arcticWorld in
  let lon0 := (inject_Z 280 * 360 / inject_Z 360 - 180)%Q in
  let lat := (90 - inject_Z 40 * 180 / inject_Z 180)%Q in
  let lon := wrapLongitude lon0 in
  Classifier.invert w (280, 40) = Ok (Some (JS.Fin lon0, JS.Fin lat)) /\
  (lon == 100)%Q /\ (lat == 50)%Q /\
  Classifier.initialized BoxWorld.d3 w /\
  Forall (fun e => Geo.isSpecialRegion (Geo.bounds e) = false)
    (Classifier.countryCircles w) /\
  Geo.lonCells (Geo.mkBounds (25, 65)%Q 60 true false false Geo.polar) =
    [-40; -30; -20; -10; 0; 10; 20; 30; 40; 50; 60; 70; 80] /\
  Geo.cellCandidates (Classifier.spatialGrid w) (lon, lat) = [] /\
  Classifier.getCountryAtPointSlow BoxWorld.d3 w (280, 40) = Ok None /\
  Classifier.bruteForce BoxWorld.d3 (Classifier.features w) (lon, lat) =
    Ok (Some BoxWorld.arctic) /\
  Classifier.getCountryAtPointSlow BoxWorld.d3 w (280, 40) <>
  Classifier.bruteForce BoxWorld.d3 (Classifier.features w) (lon, lat).
Proof.
  cbv zeta.
  split; [reflexivity|].
  split; [vm_compute; reflexivity|].
  split; [vm_compute; reflexivity|].
  split; [split; vm_compute; reflexivity|].
  split; [vm_compute; repeat constructor|].
  split; [vm_compute; reflexivity|].
  split; [vm_compute; reflexivity|].
  split; [vm_compute; reflexivity|].
  split; [vm_compute; reflexivity|].
  intros Hsame. vm_compute in Hsame. discriminate Hsame.
Qed.


(** * Further properties of the code *)

(** ** Longitude wrap *)










(** ** Geometry preprocessing *)





Lemma last_cons_snoc {A : Type} (first : A) (rest : list A) (a d : A) :
  List.last (first :: rest ++ [a]) d = a.
Proof. exact (last_last (first :: rest) a d). Qed.

Lemma closeRing_of_closed (ring : Preprocess.Ring) :
  Preprocess.closed ring -> Preprocess.closeRing ring = Ok ring.
Proof.
  unfold Preprocess.closed, Preprocess.closeRing.
  destruct ring as [|first rest]; [intros []|].
  intros [H1 H2]. unfold Preprocess.differ.
  apply Qeq_bool_iff in H1, H2. rewrite H1, H2. reflexivity.
Qed.

Lemma closeRing_closed (ring ring' : Preprocess.Ring) :
  Preprocess.closeRing ring = Ok ring' ->
  Preprocess.closed ring' /\ Preprocess.closeRing ring' = Ok ring' /\
  (ring' = ring \/ exists first, head ring = Some first /\ ring' = ring ++ [first]).
Proof.
  intros Hclose.
  assert (Hc : Preprocess.closed ring' /\
               (ring' = ring \/
                exists first, head ring = Some first /\ ring' = ring ++ [first])).
  { unfold Preprocess.closeRing in Hclose.
    destruct ring as [|first rest]; [discriminate|].
    destruct (_ || _) eqn:Hopen; injection Hclose as <-.
    - split; [|right; exists first; split; reflexivity].
      unfold Preprocess.closed.
      change ((first :: rest) ++ [first]) with (first :: rest ++ [first]).
      rewrite last_cons_snoc. split; reflexivity.
    - split; [|left; reflexivity].
      apply orb_false_iff in Hopen as [H1 H2].
      unfold Preprocess.differ in H1, H2.
      apply negb_false_iff in H1, H2. apply Qeq_bool_iff in H1, H2.
      unfold Preprocess.closed. split; assumption. }
  destruct Hc as [Hclosed Hshape].
  split; [exact Hclosed|]. split; [|exact Hshape].
  apply closeRing_of_closed, Hclosed.
Qed.

Lemma mapExc_Ok {A B : Type} (f : A -> Exc B) (l : list A) (l' : list B) :
  Preprocess.mapExc f l = Ok l' -> Forall2 (fun a b => f a = Ok b) l l'.
Proof.
  revert l'. induction l as [|a l IH]; simpl; intros l' H.
  - injection H as <-. constructor.
  - destruct (f a) as [b|] eqn:Hfa; [|discriminate].
    rewrite bind_Ok in H.
    destruct (Preprocess.mapExc f l) as [bs|]; [|discriminate].
    rewrite bind_Ok in H. injection H as <-.
    constructor; [exact Hfa | apply IH; reflexivity].
Qed.

Lemma mapExc_fixed {A : Type} (f : A -> Exc A) (l : list A) :
  Forall (fun a => f a = Ok a) l -> Preprocess.mapExc f l = Ok l.
Proof.
  induction 1 as [|a l Ha _ IH]; simpl; [reflexivity|].
  rewrite Ha, bind_Ok, IH. reflexivity.
Qed.

Lemma mapExc_Throw {A B : Type} (f : A -> Exc B) (l : list A) :
  (exists name, Preprocess.mapExc f l = Throw name) <->
  Exists (fun a => exists name, f a = Throw name) l.
Proof.
  induction l as [|a l IH]; simpl.
  - split; [intros [? [=]] | intros H; inversion H].
  - destruct (f a) as [b|name] eqn:Hfa.
    + rewrite bind_Ok. destruct (Preprocess.mapExc f l) as [bs|name] eqn:Hl.
      * rewrite bind_Ok. split; [intros [? [=]]|].
        intros Hex. apply Exists_cons in Hex as [[? Hc] | Hex]; [congruence|].
        apply IH in Hex as [? [=]].
      * rewrite bind_Throw. split; [|eauto].
        intros _. apply Exists_cons_tl, IH. eauto.
    + rewrite bind_Throw. split; [|eauto].
      intros _. apply Exists_cons_hd. eauto.
Qed.

(** X5: when [normalizePolygon] returns, it returns as many rings as it
    was given, every ring closed, every ring either left as it was or with
    its first point appended, and normalizing the result again gives the
    result; it throws exactly when the polygon has an empty ring. *)
Theorem normalizePolygon_closes_rings (polygon : list Preprocess.Ring) :
  (forall rings, Preprocess.normalizePolygon polygon = Ok rings ->
     length rings = length polygon /\
     Forall Preprocess.closed rings /\
     Forall2 (fun ring ring' =>
                ring' = ring \/
                exists first, head ring = Some first /\ ring' = ring ++ [first])
       polygon rings /\
     Preprocess.normalizePolygon rings = Ok rings) /\
  ((exists name, Preprocess.normalizePolygon polygon = Throw name) <->
   In [] polygon).
Proof.
  unfold Preprocess.normalizePolygon. split.
  - intros rings Hok. apply mapExc_Ok in Hok.
    split; [symmetry; eapply Forall2_length; exact Hok|].
    split; [|split].
    + induction Hok as [|ring ring' p r Hr _ IH]; constructor; [|exact IH].
      apply (closeRing_closed _ _ Hr).
    + induction Hok as [|ring ring' p r Hr _ IH]; constructor; [|exact IH].
      apply (closeRing_closed _ _ Hr).
    + apply mapExc_fixed.
      induction Hok as [|ring ring' p r Hr _ IH]; constructor; [|exact IH].
      apply (closeRing_closed _ _ Hr).
  - rewrite mapExc_Throw, Exists_exists. split.
    + intros (ring & Hin & name & Hthrow).
      unfold Preprocess.closeRing in Hthrow.
      destruct ring as [|first rest]; [apply list_elem_of_In; exact Hin|].
      destruct (_ || _); discriminate.
    + intros Hin. exists []. split; [apply list_elem_of_In; exact Hin|].
      exists "TypeError"%string. reflexivity.
Qed.

Lemma normalizePolygon_closes_rings_witness :
  Preprocess.normalizePolygon
    [[(0, 0); (10, 0); (10, 10); (0, 0)]%Q; [(0, 0); (10, 0); (10, 10)]%Q] =
  Ok [[(0, 0); (10, 0); (10, 10); (0, 0)]%Q; [(0, 0); (10, 0); (10, 10); (0, 0)]%Q] /\
  exists name, Preprocess.normalizePolygon [[(0, 0)%Q]; []] = Throw name.
Proof.
  split; [reflexivity|].
  apply (proj2 (proj2 (normalizePolygon_closes_rings [[(0, 0)%Q]; []]))).
  right. left. reflexivity.
Defined.


(** ** The sampling grid and the chunks *)

Lemma in_createDotsGrid (spacing width height x y : Z) :
  1 <= spacing ->
  In (x, y) (Classifier.createDotsGrid spacing width height) <->
  In x (js_range 0 width spacing) /\ In y (js_range 0 height spacing).
Proof.
  intros Hs. unfold Classifier.createDotsGrid. rewrite in_flat_map. split.
  - intros (x' & Hx & Hin). apply in_map_iff in Hin as (y' & [= <- <-] & Hy).
    split; assumption.
  - intros [Hx Hy]. exists x. split; [exact Hx|].
    apply in_map_iff. exists y. split; [reflexivity | exact Hy].
Qed.

Lemma NoDup_flat_map_pairs (xs ys : list Z) :
  NoDup xs -> NoDup ys ->
  NoDup (flat_map (fun x => map (fun y => (x, y)) ys) xs).
Proof.
  intros Hxs Hys. induction Hxs as [|x xs Hx _ IH]; simpl; [constructor|].
  apply NoDup_app. split; [|split; [|exact IH]].
  - clear -Hys. induction Hys as [|y ys Hy _ IHy]; simpl; constructor; [|exact IHy].
    intros Hin. apply list_elem_of_In, in_map_iff in Hin as (y' & [= ->] & Hin).
    apply Hy, list_elem_of_In, Hin.
  - intros [x' y'] Hin Hin'.
    apply list_elem_of_In, in_map_iff in Hin as (y1 & [= <- <-] & _).
    apply list_elem_of_In, in_flat_map in Hin' as (x2 & Hx2 & Hin').
    apply in_map_iff in Hin' as (y2 & [= <- <-] & _).
    apply Hx, list_elem_of_In, Hx2.
Qed.

(** X6: for a spacing of at least 1, [createDotsGrid] lists exactly the
    points [(i * spacing, j * spacing)] with [i, j >= 0] that lie in
    [0, width) x [0, height), and lists each of them once. *)
Theorem createDotsGrid_lists_grid_points (spacing width height : Z) :
  1 <= spacing ->
  (forall x y,
     In (x, y) (Classifier.createDotsGrid spacing width height) <->
     exists i j, 0 <= i /\ 0 <= j /\ x = i * spacing /\ y = j * spacing /\
                 x < width /\ y < height) /\
  NoDup (Classifier.createDotsGrid spacing width height).
Proof.
  intros Hs. split.
  - intros x y. rewrite (in_createDotsGrid) by exact Hs.
    rewrite !js_range_In by exact Hs. split.
    + intros [(i & Hi & -> & Hx) (j & Hj & -> & Hy)]. exists i, j. lia.
    + intros (i & j & Hi & Hj & -> & -> & Hx & Hy).
      split; [exists i | exists j]; lia.
  - apply NoDup_flat_map_pairs; apply js_range_NoDup; exact Hs.
Qed.

Lemma createDotsGrid_lists_grid_points_witness :
  NoDup (Classifier.createDotsGrid 5 12 7).
Proof.
  refine (proj2 (createDotsGrid_lists_grid_points 5 12 7 _)). lia.
Defined.

Lemma chunkStep_length (width height spacing chunkWidth : Z)
    (st : list Scheduler.Chunk * Z) (i : Z) :
  (length (fst (Scheduler.chunkStep width height spacing chunkWidth st i))
   <= S (length (fst st)))%nat.
Proof.
  destruct st as [chunks lastEndX]. unfold Scheduler.chunkStep.
  destruct (_ && _); simpl; [rewrite length_app; simpl|]; lia.
Qed.

Lemma computeChunks_length (n : nat) (width height spacing : Z) :
  (length (Scheduler.computeChunks n width height spacing) <= n)%nat.
Proof.
  unfold Scheduler.computeChunks.
  generalize (JS.ceil_div width (Z.of_nat n)). intros chunkWidth.
  assert (H : forall (l : list Z) st,
            (length (fst (fold_left
               (Scheduler.chunkStep width height spacing chunkWidth) l st))
             <= length (fst st) + length l)%nat).
  { induction l as [|i l IH]; simpl; intros st; [lia|].
    specialize (IH (Scheduler.chunkStep width height spacing chunkWidth st i)).
    pose proof (chunkStep_length width height spacing chunkWidth st i). lia. }
  specialize (H (map Z.of_nat (seq 0 n)) ([], 0)).
  rewrite length_map, length_seq in H. exact H.
Qed.

(** X7: a pool asked for any number of workers (at least one) cuts a grid
    that is at least one pixel wide into at least one and at most eight
    chunks, never more chunks than workers. *)
Theorem pool_chunk_count (requested : nat) (width height spacing : Z) :
  (1 <= requested)%nat -> 1 <= width -> 1 <= spacing ->
  let chunks := WorkerPool.chunks requested width height spacing in
  (1 <= length chunks)%nat /\ (length chunks <= 8)%nat /\
  (length chunks <= WorkerPool.numWorkers requested)%nat /\
  (WorkerPool.numWorkers requested <= requested)%nat.
Proof.
  intros Hr Hw Hs chunks. subst chunks. unfold WorkerPool.chunks.
  pose proof (computeChunks_length (WorkerPool.numWorkers requested)
                width height spacing) as Hlen.
  assert (Hn : (1 <= WorkerPool.numWorkers requested <= 8)%nat)
    by (unfold WorkerPool.numWorkers; lia).
  split; [|unfold WorkerPool.numWorkers in *; lia].
  destruct (ceil_div_covers width (Z.of_nat (WorkerPool.numWorkers requested)))
    as [Hcw Hcov]; [lia..|].
  pose proof (chunk_loop_inv width height spacing _ Hw Hs Hcw
                (WorkerPool.numWorkers requested)) as Hinv.
  unfold Scheduler.chunk_inv, Scheduler.computeChunks in *.
  destruct (fold_left _ _ _) as [cs lastEndX]. simpl in *.
  destruct Hinv as (_ & Hcols & Hle & _ & Hmin).
  assert (lastEndX = width) as -> by lia.
  destruct cs as [|c cs]; [|simpl; lia].
  simpl in Hcols. rewrite js_range_cons in Hcols by lia. discriminate Hcols.
Qed.

Lemma pool_chunk_count_witness :
  (1 <= length (WorkerPool.chunks 16 1920 1080 10))%nat.
Proof.
  refine (proj1 (pool_chunk_count 16 1920 1080 10 _ _ _)); lia.
Defined.


(** ** The two deduplication passes *)

Lemma values_app {K V : Type} (m1 m2 : JSMap.t (K:=K) (V:=V)) :
  JSMap.values (m1 ++ m2) = JSMap.values m1 ++ JSMap.values m2.
Proof. apply map_app. Qed.

Lemma keys_app {K V : Type} (m1 m2 : JSMap.t (K:=K) (V:=V)) :
  JSMap.keys (m1 ++ m2) = JSMap.keys m1 ++ JSMap.keys m2.
Proof. apply map_app. Qed.

(** The [dotMap] loop computes the first occurrences. *)
Lemma fold_dotMapAdd_firstOccurrences (dots : list Scheduler.Dot) : forall m,
  JSMap.values (fold_left Scheduler.dotMapAdd dots m) =
  JSMap.values m ++ WorkerPool.firstOccurrences (JSMap.keys m) dots.
Proof.
  induction dots as [|d dots IH]; simpl; intros m.
  - rewrite app_nil_r. reflexivity.
  - rewrite IH. unfold Scheduler.dotMapAdd.
    destruct (JSMap.has (Scheduler.dotKey d) m) eqn:Hhas.
    + rewrite bool_decide_eq_true_2
        by (apply list_elem_of_In, has_true, Hhas). reflexivity.
    + rewrite bool_decide_eq_false_2
        by (intros Hin; apply list_elem_of_In in Hin;
            apply has_false in Hhas; contradiction).
      rewrite set_absent by exact Hhas.
      rewrite values_app, keys_app, <- app_assoc. reflexivity.
Qed.

Lemma finalPass_firstOccurrences (dots : list Scheduler.Dot) :
  Scheduler.finalPass dots = WorkerPool.firstOccurrences [] dots.
Proof. unfold Scheduler.finalPass. apply fold_dotMapAdd_firstOccurrences. Qed.

Lemma firstOccurrences_sublist (dots : list Scheduler.Dot) : forall seen,
  WorkerPool.firstOccurrences seen dots `sublist_of` dots.
Proof.
  induction dots as [|d dots IH]; simpl; intros seen; [constructor|].
  case_bool_decide.
  - apply sublist_cons, IH.
  - apply sublist_skip, IH.
Qed.

Lemma firstOccurrences_keys (dots : list Scheduler.Dot) : forall seen,
  NoDup (map Scheduler.dotKey (WorkerPool.firstOccurrences seen dots)) /\
  forall d, In d (WorkerPool.firstOccurrences seen dots) ->
            Scheduler.dotKey d ∉ seen.
Proof.
  induction dots as [|d dots IH]; simpl; intros seen.
  - split; [constructor | intros d []].
  - case_bool_decide as Hseen; [apply IH|].
    destruct (IH (seen ++ [Scheduler.dotKey d])) as [Hnd Hnew].
    split.
    + simpl. constructor; [|exact Hnd].
      intros Hin. apply list_elem_of_In, in_map_iff in Hin as (d' & Hk & Hin).
      apply (Hnew d' Hin). rewrite Hk. apply elem_of_app. right. left.
    + intros d' [<- | Hin]; [exact Hseen|].
      intros Hs. apply (Hnew d' Hin). apply elem_of_app. left. exact Hs.
Qed.

Lemma firstOccurrences_find (k : Z * Z) (dots : list Scheduler.Dot) :
  forall seen, k ∉ seen ->
  List.find (fun d => bool_decide (Scheduler.dotKey d = k))
    (WorkerPool.firstOccurrences seen dots) =
  List.find (fun d => bool_decide (Scheduler.dotKey d = k)) dots.
Proof.
  induction dots as [|d dots IH]; simpl; intros seen Hk; [reflexivity|].
  case_bool_decide as Hseen.
  - rewrite bool_decide_eq_false_2
      by (intros Heq; apply Hk; rewrite <- Heq; exact Hseen).
    apply IH, Hk.
  - simpl. case_bool_decide as Hd; [reflexivity|].
    apply IH. intros Hin. apply elem_of_app in Hin as [Hin | Hin]; [contradiction|].
    apply list_elem_of_singleton in Hin. congruence.
Qed.

(** X8: the final pass keeps, for every rounded [(x, y)] key, the first
    dot of the input that has it, and nothing else: the dots kept have
    pairwise different keys, they are dots of the input in the order of
    the input, and looking a key up among them gives what looking it up in
    the input gives. *)
Theorem finalPass_keeps_first_of_each_key (dots : list Scheduler.Dot) :
  NoDup (map Scheduler.dotKey (Scheduler.finalPass dots)) /\
  Scheduler.finalPass dots `sublist_of` dots /\
  forall k,
    List.find (fun d => bool_decide (Scheduler.dotKey d = k))
      (Scheduler.finalPass dots) =
    List.find (fun d => bool_decide (Scheduler.dotKey d = k)) dots.
Proof.
  rewrite finalPass_firstOccurrences.
  split; [apply firstOccurrences_keys|].
  split; [apply firstOccurrences_sublist|].
  intros k. apply firstOccurrences_find. apply not_elem_of_nil.
Qed.

Lemma dropBoundary_sublist (spacing : Z) (cur next : list Scheduler.Dot) :
  Scheduler.dropBoundary spacing cur next `sublist_of` next.
Proof.
  unfold Scheduler.dropBoundary.
  destruct (map Scheduler.dot_x cur); [reflexivity|].
  destruct (map Scheduler.dot_x next); [reflexivity|].
  destruct (JS.ltb _ _); [apply sublist_filter | reflexivity].
Qed.

Lemma boundaryPassFrom_sublist (spacing : Z) (rest : list (list Scheduler.Dot)) :
  forall cur,
  concat (Scheduler.boundaryPassFrom spacing cur rest) `sublist_of`
  cur ++ concat rest.
Proof.
  induction rest as [|next rest IH]; simpl; intros cur; [reflexivity|].
  apply sublist_app; [reflexivity|].
  etransitivity; [apply IH|].
  apply sublist_app; [apply dropBoundary_sublist | reflexivity].
Qed.

Lemma boundaryPass_sublist (spacing : Z) (results : list (list Scheduler.Dot)) :
  concat (Scheduler.boundaryPass spacing results) `sublist_of` concat results.
Proof.
  destruct results as [|c rest]; [reflexivity|]. apply boundaryPassFrom_sublist.
Qed.

(** X9: the two passes only remove: the dots returned are dots of the
    chunks, in the order of the chunks, and the number returned plus
    [duplicatesRemoved] is the number of dots that came in. *)
Theorem dedup_only_removes (spacing : Z) (results : list (list Scheduler.Dot)) :
  fst (Scheduler.dedup spacing results) `sublist_of` concat results /\
  (length (fst (Scheduler.dedup spacing results)) +
   snd (Scheduler.dedup spacing results) =
   Scheduler.totalLength results)%nat.
Proof.
  unfold Scheduler.dedup, Scheduler.totalLength. simpl.
  pose proof (boundaryPass_sublist spacing results) as Ha.
  pose proof (firstOccurrences_sublist
                (concat (Scheduler.boundaryPass spacing results)) []) as Hb.
  rewrite <- finalPass_firstOccurrences in Hb.
  split; [etransitivity; eassumption|].
  apply sublist_length in Ha, Hb. lia.
Qed.


(** ** The dots of a chunk and of the whole grid *)

Section DotsFacts.
Import Geo Classifier.
Context {Feature : Type} `{EqDecision Feature}.
Variable d3 : D3 Feature.
Variable nameOf : Feature -> string.
Implicit Types (w : World (Feature:=Feature)) (q : Query) (point : Z * Z).

Lemma slow_total w point :
  exists country, getCountryAtPointSlow d3 w point = Ok country.
Proof.
  unfold getCountryAtPointSlow.
  destruct (getCountryAtPointSlowBody d3 w point); simpl; eauto.
Qed.

Lemma fast_total w point :
  exists country, getCountryAtPointFast d3 w point = Ok country.
Proof.
  unfold getCountryAtPointFast.
  destruct (countryLookupMap w) as [m|]; [|apply slow_total].
  destruct (_ || _); [eauto|]. destruct (0 <? _); eauto.
Qed.

Lemma chunkClassify_total w point :
  exists country, chunkClassify d3 w point = Ok country.
Proof.
  unfold chunkClassify. destruct (countryLookupMap w);
    [apply fast_total | apply slow_total].
Qed.

Lemma dotsClassify_total w q point :
  exists country, dotsClassify d3 w q point = Ok country.
Proof.
  unfold dotsClassify. destruct (useFast w q);
    [apply fast_total | apply slow_total].
Qed.

Lemma isPointInProjection_invert w point :
  isPointInProjection w point = true ->
  exists coords, invert w point = Ok (Some coords).
Proof.
  unfold isPointInProjection.
  destruct (invert w point) as [[coords|]|]; try discriminate. eauto.
Qed.

Lemma foldExc_flat_in {A B : Type} (f : list A -> B -> Exc (list A))
    (g : B -> list A) (l : list B) :
  (forall acc b, In b l -> f acc b = Ok (acc ++ g b)) ->
  forall acc, foldExc f l acc = Ok (acc ++ flat_map g l).
Proof.
  induction l as [|b l IH]; simpl; intros Hf acc.
  - rewrite app_nil_r. reflexivity.
  - rewrite Hf by (left; reflexivity). rewrite bind_Ok, IH, <- app_assoc.
    + reflexivity.
    + intros acc' b' Hb'. apply Hf. right. exact Hb'.
Qed.

Lemma foldExc_flat {A B : Type} (f : list A -> B -> Exc (list A))
    (g : B -> list A) (l : list B) :
  (forall acc b, f acc b = Ok (acc ++ g b)) ->
  forall acc, foldExc f l acc = Ok (acc ++ flat_map g l).
Proof. intros Hf. apply foldExc_flat_in. intros acc b _. apply Hf. Qed.

(** One step of the loops of [processChunk] and [calculateDots]. *)
Lemma point_step w (showOcean : bool) (classify : Z * Z -> Exc (option Feature))
    (results : list Scheduler.Dot) point :
  (exists country, classify point = Ok country) ->
  (if isPointInProjection w point then
     country ← classify point;
     dot ← makeDot w showOcean point country nameOf;
     Ok (results ++ dot)
   else Ok results) =
  Ok (results ++ Dots.pointDots nameOf w showOcean classify point).
Proof.
  intros [country Hc]. unfold Dots.pointDots.
  destruct (isPointInProjection w point) eqn:Hin;
    [|rewrite app_nil_r; reflexivity].
  destruct (isPointInProjection_invert _ _ Hin) as [coords Hinv].
  rewrite Hc, bind_Ok, Hinv. unfold makeDot.
  destruct country, showOcean; rewrite ?Hinv, ?bind_Ok; reflexivity.
Qed.

Lemma flat_map_map {A B C : Type} (f : A -> B) (g : B -> list C) (l : list A) :
  flat_map g (map f l) = flat_map (fun a => g (f a)) l.
Proof.
  induction l as [|a l IH]; simpl; [reflexivity|]. rewrite IH. reflexivity.
Qed.

(** [processChunk] in closed form. *)
Lemma processChunk_dots w q (c : Scheduler.Chunk) :
  snd (processChunk d3 nameOf w q c) =
  Ok (flat_map
        (Dots.pointDots nameOf (Dots.chunkWorld d3 w q) (showOceanDots q)
           (chunkClassify d3 (Dots.chunkWorld d3 w q)))
        (Dots.chunkPoints (spacing q) c)).
Proof.
  unfold processChunk, Dots.chunkPoints. simpl snd.
  fold (Dots.chunkWorld d3 w q). set (w1 := Dots.chunkWorld d3 w q).
  rewrite flat_map_flat_map.
  rewrite (foldExc_flat _
    (fun x => flat_map
       (Dots.pointDots nameOf w1 (showOceanDots q) (chunkClassify d3 w1))
       (map (fun y => (x, y))
          (js_range (Scheduler.startY c) (Scheduler.endY c) (spacing q))))).
  - reflexivity.
  - intros acc x. rewrite flat_map_map.
    apply (foldExc_flat _
      (fun y => Dots.pointDots nameOf w1 (showOceanDots q)
                  (chunkClassify d3 w1) (x, y))).
    intros acc' y. apply point_step, chunkClassify_total.
Qed.

Lemma flat_map_filter_inProjection w (g : Z * Z -> list Scheduler.Dot)
    (l : list (Z * Z)) :
  (forall p, isPointInProjection w p = false -> g p = []) ->
  flat_map g (filter (fun p => isPointInProjection w p) l) = flat_map g l.
Proof.
  intros Hg. induction l as [|p l IH]; [reflexivity|].
  rewrite filter_cons. simpl.
  destruct (isPointInProjection w p) eqn:Hp; simpl.
  - rewrite IH. reflexivity.
  - rewrite IH, (Hg p Hp). reflexivity.
Qed.

Lemma pointDots_outside w showOcean classify point :
  isPointInProjection w point = false ->
  Dots.pointDots nameOf w showOcean classify point = [].
Proof. intros Hp. unfold Dots.pointDots. rewrite Hp. reflexivity. Qed.

(** [calculateDots] in closed form. *)
Lemma calculateDots_dots w q :
  snd (calculateDots d3 nameOf w q) =
  Ok (flat_map
        (Dots.pointDots nameOf
           (withProjection w
              (setupProjection d3 (projectionName q) (width q) (height q)))
           (showOceanDots q)
           (dotsClassify d3
              (withProjection w
                 (setupProjection d3 (projectionName q) (width q) (height q))) q))
        (createDotsGrid (spacing q) (width q) (height q))).
Proof.
  unfold calculateDots. simpl snd.
  set (w1 := withProjection w _).
  rewrite (foldExc_flat_in _
    (Dots.pointDots nameOf w1 (showOceanDots q) (dotsClassify d3 w1 q))).
  - simpl. f_equal. apply flat_map_filter_inProjection.
    intros p. apply pointDots_outside.
  - intros acc p Hp.
    apply list_elem_of_In, list_elem_of_filter in Hp as [Hp _].
    apply Is_true_true in Hp.
    pose proof (point_step w1 (showOceanDots q) (dotsClassify d3 w1 q) acc p
                  (dotsClassify_total w1 q p)) as Hstep.
    rewrite Hp in Hstep. exact Hstep.
Qed.

(** The [calculate] message of the stand-alone worker in closed form. *)
Lemma calculate_dots w q :
  snd (Dots.calculate d3 nameOf w q) =
  Ok (flat_map
        (Dots.pointDots nameOf
           (withProjection w
              (setupProjection d3 (projectionName q) (width q) (height q)))
           true
           (getCountryAtPointSlow d3
              (withProjection w
                 (setupProjection d3 (projectionName q) (width q) (height q)))))
        (createDotsGrid (spacing q) (width q) (height q))).
Proof.
  unfold Dots.calculate. simpl snd.
  set (w1 := withProjection w _).
  apply (foldExc_flat _
    (Dots.pointDots nameOf w1 true (getCountryAtPointSlow d3 w1))).
  intros acc p. unfold Dots.pointDots.
  destruct (isPointInProjection w1 p) eqn:Hp; [|rewrite app_nil_r; reflexivity].
  destruct (isPointInProjection_invert _ _ Hp) as [coords Hinv].
  destruct (slow_total w1 p) as [country Hc].
  rewrite Hc, bind_Ok, Hinv, bind_Ok. destruct country; reflexivity.
Qed.

(** The rows of every chunk are the rows of the grid. *)
Lemma computeChunks_rows (n : nat) (width height spacing : Z) :
  Forall (fun c => Scheduler.startY c = 0 /\ Scheduler.endY c = height)
    (Scheduler.computeChunks n width height spacing).
Proof.
  unfold Scheduler.computeChunks.
  generalize (JS.ceil_div width (Z.of_nat n)). intros chunkWidth.
  assert (Hgo : forall (l : list Z) st,
            Forall (fun c => Scheduler.startY c = 0 /\ Scheduler.endY c = height)
              (fst st) ->
            Forall (fun c => Scheduler.startY c = 0 /\ Scheduler.endY c = height)
              (fst (fold_left
                 (Scheduler.chunkStep width height spacing chunkWidth) l st))).
  { induction l as [|i l IH]; simpl; intros st Hst; [exact Hst|].
    apply IH. destruct st as [chunks lastEndX]. unfold Scheduler.chunkStep.
    destruct (_ && _); simpl; [|exact Hst].
    apply Forall_app. split; [exact Hst|]. constructor; [split; reflexivity|].
    constructor. }
  apply Hgo. constructor.
Qed.

(** The grid points of the chunks, chunk after chunk, are the grid. *)
Lemma chunkPoints_cover (n : nat) (width height spacing : Z) :
  (1 <= n)%nat -> 1 <= width -> 1 <= spacing ->
  flat_map (Dots.chunkPoints spacing)
    (Scheduler.computeChunks n width height spacing) =
  createDotsGrid spacing width height.
Proof.
  intros Hn Hw Hs.
  destruct (ceil_div_covers width (Z.of_nat n)) as [Hcw Hcov]; [lia..|].
  pose proof (chunk_loop_inv width height spacing _ Hw Hs Hcw n) as Hinv.
  pose proof (computeChunks_rows n width height spacing) as Hrows.
  unfold Scheduler.chunk_inv, Scheduler.computeChunks in *.
  destruct (fold_left _ _ _) as [cs lastEndX]. simpl in *.
  destruct Hinv as (_ & Hcols & Hle & _ & Hmin).
  assert (lastEndX = width) as -> by lia.
  unfold createDotsGrid. rewrite <- Hcols. rewrite flat_map_flat_map.
  clear Hcols. induction Hrows as [|c cs [Hy0 Hy1] _ IH]; simpl; [reflexivity|].
  rewrite IH. unfold Dots.chunkPoints at 1. rewrite Hy0, Hy1. reflexivity.
Qed.

Lemma mapExc_total {A B : Type} (f : A -> Exc B) (g : A -> B) (l : list A) :
  (forall a, f a = Ok (g a)) -> Preprocess.mapExc f l = Ok (map g l).
Proof.
  intros Hf. induction l as [|a l IH]; simpl; [reflexivity|].
  rewrite Hf, bind_Ok, IH, bind_Ok. reflexivity.
Qed.

Lemma chunkResults_dots w q (chunks : list Scheduler.Chunk) :
  Dots.chunkResults d3 nameOf w q chunks =
  Ok (map (fun c =>
             flat_map
               (Dots.pointDots nameOf (Dots.chunkWorld d3 w q) (showOceanDots q)
                  (chunkClassify d3 (Dots.chunkWorld d3 w q)))
               (Dots.chunkPoints (spacing q) c)) chunks).
Proof.
  unfold Dots.chunkResults. apply mapExc_total. intros c. apply processChunk_dots.
Qed.

(** The worlds and the classifiers of the two paths agree when the
    worker has no projection yet or the projection of the query, and no
    lookup map or one of the size of the query. *)
Lemma chunkWorld_fresh w q :
  (currentProjection w = None \/
   currentProjection w =
     Some (setupProjection d3 (projectionName q) (width q) (height q))) ->
  Dots.chunkWorld d3 w q =
  withProjection w (setupProjection d3 (projectionName q) (width q) (height q)).
Proof.
  unfold Dots.chunkWorld, withProjection.
  intros [Hnone | Hsame]; rewrite ?Hnone; [reflexivity|].
  rewrite Hsame. destruct w; simpl in *. rewrite Hsame. reflexivity.
Qed.

Lemma classifiers_agree w q point :
  (countryLookupMap w = None \/ useFast w q = true) ->
  chunkClassify d3 w point = dotsClassify d3 w q point.
Proof.
  unfold chunkClassify, dotsClassify, useFast.
  intros [Hnone | Hfast].
  - rewrite Hnone. reflexivity.
  - destruct (countryLookupMap w) as [m|]; [|discriminate Hfast].
    rewrite Hfast. reflexivity.
Qed.

Lemma flat_map_ext_all {A B : Type} (f g : A -> list B) (l : list A) :
  (forall a, f a = g a) -> flat_map f l = flat_map g l.
Proof.
  intros Hfg. induction l as [|a l IH]; simpl; [reflexivity|].
  rewrite Hfg, IH. reflexivity.
Qed.

Lemma pointDots_ext w showOcean (c1 c2 : Z * Z -> Exc (option Feature)) point :
  c1 point = c2 point ->
  Dots.pointDots nameOf w showOcean c1 point =
  Dots.pointDots nameOf w showOcean c2 point.
Proof. intros Hc. unfold Dots.pointDots. rewrite Hc. reflexivity. Qed.

(** X11: cut into chunks for any number of workers, answered chunk by
    chunk by [processChunk] and put together in the order of the chunks,
    a query gives the dots that [calculateDots] gives on one worker, in
    the same order, when the worker has no projection yet (or the one of
    the query) and no lookup map (or one of the size of the query). *)
Theorem chunks_concat_sequential (n : nat) w q :
  (1 <= n)%nat -> 1 <= width q -> 1 <= spacing q ->
  (currentProjection w = None \/
   currentProjection w =
     Some (setupProjection d3 (projectionName q) (width q) (height q))) ->
  (countryLookupMap w = None \/ useFast w q = true) ->
  exists results,
    Dots.chunkResults d3 nameOf w q
      (Scheduler.computeChunks n (width q) (height q) (spacing q)) = Ok results /\
    snd (calculateDots d3 nameOf w q) = Ok (concat results).
Proof.
  intros Hn Hw Hs Hproj Hmap. eexists. split; [apply chunkResults_dots|].
  rewrite calculateDots_dots, <- (chunkWorld_fresh w q Hproj).
  rewrite <- flat_map_concat_map, <- flat_map_flat_map.
  rewrite chunkPoints_cover by assumption. f_equal.
  apply flat_map_ext_all. intros p. apply pointDots_ext. symmetry.
  apply classifiers_agree.
  destruct Hmap as [Hnone | Hfast]; [left | right].
  - unfold Dots.chunkWorld. destruct (currentProjection w); [exact Hnone|].
    simpl. exact Hnone.
  - unfold useFast, Dots.chunkWorld in *.
    destruct (currentProjection w); [exact Hfast|]. simpl. exact Hfast.
Qed.

(** X13: the stand-alone worker answers [calculate] with the dots that
    [calculateDots] of the fast worker gives when ocean dots are shown
    and the lookup map is not used, and leaves the same world behind. *)
Theorem standalone_calculate_agrees w q :
  showOceanDots q = true -> useFast w q = false ->
  Dots.calculate d3 nameOf w q = calculateDots d3 nameOf w q.
Proof.
  intros Hocean Hfast.
  rewrite (surjective_pairing (Dots.calculate d3 nameOf w q)).
  rewrite (surjective_pairing (calculateDots d3 nameOf w q)).
  f_equal. rewrite calculate_dots, calculateDots_dots, Hocean. f_equal.
  apply flat_map_ext_all. intros p. apply pointDots_ext.
  unfold dotsClassify.
  replace (useFast (withProjection w _) q) with (useFast w q) by reflexivity.
  rewrite Hfast. reflexivity.
Qed.
End DotsFacts.

(** ** The deduplication passes on the chunks of the scheduler *)

Lemma round_inject_Z (x : Z) : JS.round (inject_Z x) = x.
Proof.
  unfold JS.round, Qfloor, Qplus, inject_Z. simpl.
  symmetry. apply Z.div_unique with (r := 1); lia.
Qed.




(** The start of every chunk is a grid column. *)
Lemma chunkStep_aligned (width height spacing chunkWidth i : Z)
    (st : list Scheduler.Chunk * Z) :
  Scheduler.chunk_inv width spacing chunkWidth i st ->
  Forall (fun c => exists k, Scheduler.startX c = k * spacing) (fst st) ->
  Forall (fun c => exists k, Scheduler.startX c = k * spacing)
    (fst (Scheduler.chunkStep width height spacing chunkWidth st i)).
Proof.
  destruct st as [chunks lastEndX].
  intros (_ & _ & _ & Hal & _) Hall. unfold Scheduler.chunkStep. cbv zeta.
  destruct (_ && _) eqn:E; simpl; [|exact Hall].
  apply Forall_app. split; [exact Hall|]. constructor; [|constructor]. simpl.
  apply andb_true_iff in E as [E1 _]. apply Z.ltb_lt in E1. revert E1.
  destruct (Z.ltb_spec (i * chunkWidth / spacing * spacing) lastEndX);
    intros E1.
  - destruct Hal as [-> | (k & _ & ->)]; [lia|]. exists k. lia.
  - eexists. reflexivity.
Qed.

Lemma computeChunks_aligned (n : nat) (width height spacing : Z) :
  (1 <= n)%nat -> 1 <= width -> 1 <= spacing ->
  Forall (fun c => exists k, Scheduler.startX c = k * spacing)
    (Scheduler.computeChunks n width height spacing).
Proof.
  intros Hn Hw Hs. unfold Scheduler.computeChunks.
  destruct (ceil_div_covers width (Z.of_nat n)) as [Hcw _]; [lia..|].
  revert Hcw. generalize (JS.ceil_div width (Z.of_nat n)). intros cw Hcw.
  clear Hn. induction n as [|n IH]; [constructor|].
  rewrite seq_S, map_app, fold_left_app. simpl.
  apply chunkStep_aligned; [|exact IH].
  apply (chunk_loop_inv width height spacing cw Hw Hs Hcw n).
Qed.





Lemma createDotsGrid_NoDup (spacing width height : Z) :
  1 <= spacing -> NoDup (Classifier.createDotsGrid spacing width height).
Proof.
  intros Hs. apply NoDup_flat_map_pairs; apply js_range_NoDup; exact Hs.
Qed.

Section ParallelFacts.
Import Geo Classifier.
Context {Feature : Type} `{EqDecision Feature}.
Variable d3 : D3 Feature.
Variable nameOf : Feature -> string.
Implicit Types (w : World (Feature:=Feature)) (q : Query) (point : Z * Z).

(** A point gives no dot or one dot, which sits on the point. *)
Lemma pointDots_cases w showOcean (classify : Z * Z -> Exc (option Feature))
    point :
  Dots.pointDots nameOf w showOcean classify point = [] \/
  exists country coords,
    classify point = Ok country /\ invert w point = Ok coords /\
    isPointInProjection w point = true /\
    (showOcean = false -> country <> None) /\
    Dots.pointDots nameOf w showOcean classify point =
      [Scheduler.mkDot (inject_Z (fst point)) (inject_Z (snd point))
         (nameOf <$> country) coords].
Proof.
  unfold Dots.pointDots.
  destruct (isPointInProjection w point); [|left; reflexivity].
  destruct (classify point) as [country|]; [|left; reflexivity].
  destruct (invert w point) as [coords|]; [|left; reflexivity].
  destruct country as [c|], showOcean; try (left; reflexivity);
    right; eexists _, _; repeat split; congruence.
Qed.

Lemma pointDots_keys w showOcean (classify : Z * Z -> Exc (option Feature))
    (points : list (Z * Z)) :
  map Scheduler.dotKey
    (flat_map (Dots.pointDots nameOf w showOcean classify) points)
  `sublist_of` points.
Proof.
  induction points as [|p points IH]; simpl; [constructor|].
  rewrite map_app.
  destruct (pointDots_cases w showOcean classify p)
    as [-> | (country & coords & _ & _ & _ & _ & ->)]; simpl.
  - apply sublist_cons, IH.
  - unfold Scheduler.dotKey at 1. simpl. rewrite !round_inject_Z.
    destruct p as [x y]. simpl. apply sublist_skip, IH.
Qed.

Lemma absLeb_le (n : JS.Num) (bound : Q) :
  JS.absLeb n bound = true ->
  exists r : Q, n = JS.Fin r /\ (Qabs r <= bound)%Q.
Proof.
  destruct n as [r| | |]; simpl; try discriminate.
  intros Hr. exists r. split; [reflexivity | apply leb_le, Hr].
Qed.

(** A point inside the projection inverts to a coordinate on the globe. *)
Lemma isPointInProjection_range w point :
  isPointInProjection w point = true ->
  exists lon lat,
    invert w point = Ok (Some (JS.Fin lon, JS.Fin lat)) /\
    (Qabs lon <= 180)%Q /\ (Qabs lat <= 90)%Q.
Proof.
  unfold isPointInProjection.
  destruct (invert w point) as [[[lon lat]|]|name]; try discriminate.
  intros Hin. apply andb_true_iff in Hin as [Hin Hlon].
  apply andb_true_iff in Hin as [_ Hlat].
  apply absLeb_le in Hlon as (qlon & -> & Hlon).
  apply absLeb_le in Hlat as (qlat & -> & Hlat).
  exists qlon, qlat. auto.
Qed.





End ParallelFacts.

Lemma chunks_concat_sequential_witness :
  exists results,
    Dots.chunkResults BoxWorld.d3 BoxWorld.boxName BoxWorld.twoSquares
      BoxWorld.globe (Scheduler.computeChunks 4 360 180 5) = Ok results /\
    snd (Classifier.calculateDots BoxWorld.d3 BoxWorld.boxName
           BoxWorld.twoSquares BoxWorld.globe) = Ok (concat results).
Proof.
  apply (chunks_concat_sequential BoxWorld.d3 BoxWorld.boxName 4
           BoxWorld.twoSquares BoxWorld.globe).
  - lia.
  - simpl. lia.
  - simpl. lia.
  - right. reflexivity.
  - left. vm_compute. reflexivity.
Defined.

Lemma standalone_calculate_agrees_witness :
  Dots.calculate BoxWorld.d3 BoxWorld.boxName BoxWorld.twoSquares
    (Classifier.mkQuery 360 180 "geoEquirectangular" 5 true) =
  Classifier.calculateDots BoxWorld.d3 BoxWorld.boxName BoxWorld.twoSquares
    (Classifier.mkQuery 360 180 "geoEquirectangular" 5 true).
Proof.
  apply (standalone_calculate_agrees BoxWorld.d3 BoxWorld.boxName
           BoxWorld.twoSquares
           (Classifier.mkQuery 360 180 "geoEquirectangular" 5 true)).
  - reflexivity.
  - vm_compute. reflexivity.
Defined.


(** ** Result cache: the persistent tier *)

(** A string with a dash in it is not a string without one. *)
Lemma app_dash_neq (t : string) :
  (forall c, In c (list_ascii_of_string t) -> String c "" <> "-"%string) ->
  forall a b, a +:+ "-" +:+ b <> t.
Proof.
  induction t as [|c t IH]; intros Hno a b.
  - destruct a; discriminate.
  - destruct a as [|c' a]; simpl.
    + intros [= <- _]. apply (Hno _ (or_introl eq_refl)). reflexivity.
    + intros [= _ Heq]. apply (IH (fun c0 Hc0 => Hno c0 (or_intror Hc0)) a b Heq).
Qed.

(** The payload of an entry never sits under the key of the metadata. *)
Lemma storageKey_not_metadataKey (params : Cache.Params) :
  Cache.cachePrefix +:+ Cache.generateKey params <> Cache.metadataKey.
Proof.
  unfold Cache.metadataKey, Cache.cachePrefix.
  change "dotsmap_cache_metadata"%string
    with ("dotsmap_cache_" +:+ "metadata")%string.
  intros Heq. apply (inj (String.app "dotsmap_cache_")) in Heq.
  revert Heq. unfold Cache.generateKey. apply app_dash_neq.
  intros c Hc. vm_compute in Hc.
  repeat (destruct Hc as [<- | Hc]; [discriminate|]). destruct Hc.
Qed.

Lemma set_NoDup_value {V : Type} (k : string) (v v' : V)
    (m : JSMap.t (K:=string) (V:=V)) :
  NoDup (JSMap.keys m) -> In (k, v') (JSMap.set k v m) -> v' = v.
Proof.
  induction m as [|[k0 v0] m IH]; simpl; intros Hnd Hin.
  - destruct Hin as [[= ->] | []]. reflexivity.
  - apply NoDup_cons in Hnd as [Hk0 Hnd].
    destruct (decide (k0 = k)) as [-> | Hne].
    + destruct Hin as [[= ->] | Hin]; [reflexivity|].
      exfalso. apply Hk0, list_elem_of_In, in_map_iff.
      exists (k, v'). split; [reflexivity | exact Hin].
    + destruct Hin as [[= -> _] | Hin]; [congruence|]. apply (IH Hnd Hin).
Qed.

Section CachePersistence.
Import Cache.
Variables Data Payload : Type.
Variable stringify : Data -> Exc Payload.
Variable parse : Payload -> Exc Data.
Variable strLength : Payload -> Z.
Variable setItemError :
  gmap string (Item Payload) -> string -> Item Payload -> option string.

Local Abbreviation State := (Cache.State Data Payload).
Local Abbreviation get := (Cache.get Data Payload parse strLength setItemError).
Local Abbreviation set := (Cache.set Data Payload stringify strLength setItemError).
Local Abbreviation run := (Cache.run Data Payload stringify parse strLength setItemError).
Local Abbreviation new := (Cache.new Data Payload setItemError).
Local Abbreviation saveMetadata := (Cache.saveMetadata Data Payload setItemError).
Local Abbreviation cleanOldEntries := (Cache.cleanOldEntries Data Payload setItemError).
Local Abbreviation enforceSizeLimit := (Cache.enforceSizeLimit Data Payload).
Local Abbreviation removeEntry := (Cache.removeEntry Data Payload).
Local Abbreviation loadMetadata := (Cache.loadMetadata Data Payload).

Implicit Types (s : State).

(** In a memory tier within its limit of at least one entry, [get] right
    after [set] hits the memory tier. *)
Lemma set_get_bounded (limit : nat) s (params : Params) (data : Data)
    (now now' : Z) :
  (1 <= limit)%nat -> Cache.bounded Data Payload limit s ->
  get params now' (set params data now s) = (Some data, set params data now s).
Proof.
  intros Hpos [Hlimit Hsize].
  destruct (set_memory Data Payload stringify strLength setItemError
              params data now s) as (Hm & _).
  assert (Hget : JSMap.get (generateKey params)
                   (memoryCache _ _ (set params data now s)) = Some data).
  { rewrite Hm. apply insertBounded_keeps; rewrite Hlimit; assumption. }
  rewrite get_hit by (eapply get_Some_has; exact Hget).
  rewrite Hget. reflexivity.
Qed.

(** X14: in a cache built for at least one memory entry, whatever has
    been done with it since, [get] right after [set] for the same
    parameters returns the value that was set, from the memory tier, and
    changes nothing. *)
Theorem set_get_round_trip (maxItems : nat) (useStorage : bool)
    (storage : gmap string (Item Payload)) (now0 : Z) (ops : list (Op Data))
    (params : Params) (data : Data) (now now' : Z) :
  (1 <= maxItems)%nat ->
  let s := run ops (new maxItems useStorage storage now0) in
  get params now' (set params data now s) = (Some data, set params data now s).
Proof.
  intros Hpos s. apply (set_get_bounded maxItems); [exact Hpos|].
  subst s. apply run_bounded, new_bounded.
Qed.

Lemma enforceSizeLimit_persistent s :
  useLocalStorage _ _ (enforceSizeLimit s) = useLocalStorage _ _ s /\
  localStorage _ _ (enforceSizeLimit s) = localStorage _ _ s /\
  metadata _ _ (enforceSizeLimit s) = metadata _ _ s.
Proof.
  unfold Cache.enforceSizeLimit. destruct (_ <? _)%nat; [|repeat split].
  destruct (JSMap.keys _); repeat split.
Qed.

(** What a [set] that reaches the storage leaves there. *)
Lemma set_stored s (params : Params) (data : Data) (now : Z) (dataStr : Payload) :
  useLocalStorage _ _ s = true ->
  stringify data = Ok dataStr ->
  strLength dataStr <= 4 * 1024 * 1024 ->
  (forall st key item, setItemError st key item = None) ->
  exists meta',
    lastAccess meta' = now /\
    metadata _ _ (set params data now s) =
      JSMap.set (generateKey params) meta' (metadata _ _ s) /\
    localStorage _ _ (set params data now s) =
      <[metadataKey :=
          MetadataItem _ (JSMap.set (generateKey params) meta' (metadata _ _ s))]>
        (<[cachePrefix +:+ generateKey params := PayloadItem _ dataStr]>
           (localStorage _ _ s)).
Proof.
  intros Hu Hstr Hsize Hok. unfold Cache.set.
  destruct (enforceSizeLimit_persistent
              (withMemory _ _ s
                 (JSMap.set (generateKey params) data (memoryCache _ _ s))))
    as (Hu1 & Hst1 & Hmeta1).
  set (s1 := enforceSizeLimit _) in *. simpl in Hu1, Hst1, Hmeta1.
  rewrite Hu1, Hu, Hstr.
  destruct (Z.ltb_spec (4 * 1024 * 1024) (strLength dataStr)); [lia|].
  unfold Cache.setItem. rewrite Hok.
  unfold Cache.saveMetadata, Cache.setItem. simpl useLocalStorage.
  rewrite Hu1, Hu. simpl negb. cbv iota. rewrite Hok. simpl.
  rewrite Hst1, Hmeta1.
  eexists. split; [|split; reflexivity].
  destruct (JSMap.get _ _); reflexivity.
Qed.

Lemma fold_removeEntry_state (ks : list string) : forall s,
  metadata _ _ (fold_left removeEntry ks s) =
    fold_left (fun m k => JSMap.delete k m) ks (metadata _ _ s) /\
  localStorage _ _ (fold_left removeEntry ks s) =
    fold_left (fun st k => delete (cachePrefix +:+ k) st) ks (localStorage _ _ s).
Proof.
  induction ks as [|k ks IH]; simpl; intros s; [split; reflexivity|].
  destruct (IH (removeEntry s k)) as [-> ->]. split; reflexivity.
Qed.

Lemma fold_delete_lookup_other (pk : string) (ks : list string) :
  forall st : gmap string (Item Payload),
  (forall k, In k ks -> cachePrefix +:+ k <> pk) ->
  fold_left (fun st k => delete (cachePrefix +:+ k) st) ks st !! pk = st !! pk.
Proof.
  induction ks as [|k ks IH]; simpl; intros st Hne; [reflexivity|].
  rewrite IH by (intros k' Hk'; apply Hne; right; exact Hk').
  apply lookup_delete_ne, Hne. left. reflexivity.
Qed.

Lemma fold_delete_lookup (k : string) (ks : list string) :
  forall st : gmap string (Item Payload),
  In k ks ->
  fold_left (fun st k => delete (cachePrefix +:+ k) st) ks st
    !! (cachePrefix +:+ k) = None.
Proof.
  induction ks as [|k0 ks IH]; simpl; intros st Hin; [destruct Hin|].
  destruct (in_dec string_dec k ks) as [Hin' | Hnin].
  - apply IH, Hin'.
  - destruct Hin as [-> | Hin]; [|contradiction].
    rewrite fold_delete_lookup_other.
    + apply lookup_delete_eq.
    + intros k' Hk' Heq. apply (inj (String.app cachePrefix)) in Heq.
      subst k'. contradiction.
Qed.

(** Deleting the keys of the entries that satisfy [P] leaves the others. *)
Lemma fold_delete_cons_other {V : Type} (e : string * V) (ks : list string) :
  forall m : JSMap.t (K:=string) (V:=V),
  ~ In (fst e) ks ->
  fold_left (fun m k => JSMap.delete k m) ks (e :: m) =
  e :: fold_left (fun m k => JSMap.delete k m) ks m.
Proof.
  unfold JSMap.t. destruct e as [k0 v0].
  induction ks as [|k ks IH]; simpl; intros m Hn; [reflexivity|].
  destruct (decide (k0 = k)) as [-> | Hne]; [tauto|].
  apply IH. tauto.
Qed.

Lemma fold_delete_filter {V : Type} (P : string * V -> bool)
    (m : JSMap.t (K:=string) (V:=V)) :
  NoDup (JSMap.keys m) ->
  fold_left (fun m k => JSMap.delete k m) (JSMap.keys (filter (fun e => P e) m)) m =
  filter (fun e => negb (P e)) m.
Proof.
  unfold JSMap.t in *.
  induction m as [|[k v] m IH]; intros Hnd; [reflexivity|].
  change (JSMap.keys ((k, v) :: m)) with (k :: JSMap.keys m) in Hnd.
  apply NoDup_cons in Hnd as [Hk Hnd].
  rewrite !filter_cons. destruct (P (k, v)) eqn:HP.
  - rewrite decide_True by exact I.
    rewrite decide_False by (simpl; tauto).
    simpl. destruct (decide (k = k)); [|congruence]. apply IH, Hnd.
  - rewrite decide_False by (simpl; tauto).
    rewrite decide_True by exact I.
    pose proof (fold_delete_cons_other (k, v)) as Hcons.
    unfold JSMap.t in Hcons.
    rewrite Hcons; [rewrite IH by exact Hnd; reflexivity|].
    simpl. intros Hin. apply Hk, list_elem_of_In.
    unfold JSMap.keys in *. apply in_map_iff in Hin as (e & He & Hin).
    apply list_elem_of_In, list_elem_of_filter in Hin as [_ Hin].
    apply in_map_iff. exists e. split; [exact He|]. apply list_elem_of_In, Hin.
Qed.

Lemma saveMetadata_persistent s :
  metadata _ _ (saveMetadata s) = metadata _ _ s /\
  forall pk, pk <> metadataKey ->
    localStorage _ _ (saveMetadata s) !! pk = localStorage _ _ s !! pk.
Proof.
  unfold Cache.saveMetadata, Cache.setItem.
  destruct (negb _); [split; reflexivity|].
  destruct (setItemError _ _ _); simpl; (split; [reflexivity|]); intros pk Hpk;
    [reflexivity|].
  apply lookup_insert_ne. congruence.
Qed.

(** The housekeeping of the constructor in closed form. *)
Lemma cleanOldEntries_regular (now : Z) s :
  useLocalStorage _ _ s = true ->
  let stale :=
    JSMap.keys
      (filter (fun e : string * Meta =>
                 7 * 24 * 60 * 60 * 1000 <? now - lastAccess (snd e))
         (metadata _ _ s)) in
  metadata _ _ (cleanOldEntries false now s) =
    fold_left (fun m k => JSMap.delete k m) stale (metadata _ _ s) /\
  forall pk, pk <> metadataKey ->
    localStorage _ _ (cleanOldEntries false now s) !! pk =
    fold_left (fun st k => delete (cachePrefix +:+ k) st) stale
      (localStorage _ _ s) !! pk.
Proof.
  intros Hu stale. unfold Cache.cleanOldEntries. rewrite Hu. simpl.
  fold stale.
  destruct (fold_removeEntry_state stale s) as [Hm Hst].
  destruct (0 <? _)%nat.
  - destruct (saveMetadata_persistent (fold_left removeEntry stale s))
      as [Hm' Hst'].
    rewrite Hm', Hm. split; [reflexivity|].
    intros pk Hpk. rewrite (Hst' pk Hpk), Hst. reflexivity.
  - rewrite Hm, Hst. split; [reflexivity|]. intros; reflexivity.
Qed.

(** X15: a regular clean-up ([cleanOldEntries()] as the constructor calls
    it) keeps exactly the entries accessed within the last seven days, in
    their order, removes the stored payload of every other entry, and
    does not touch the memory tier. *)
Theorem cleanOldEntries_keeps_recent (now : Z) s :
  useLocalStorage _ _ s = true ->
  NoDup (JSMap.keys (metadata _ _ s)) ->
  metadata _ _ (cleanOldEntries false now s) =
    filter (fun e => bool_decide
                       (now - lastAccess (snd e) <= 7 * 24 * 60 * 60 * 1000))
      (metadata _ _ s) /\
  (forall key meta,
     In (key, meta) (metadata _ _ s) ->
     7 * 24 * 60 * 60 * 1000 < now - lastAccess meta ->
     key <> "metadata"%string ->
     localStorage _ _ (cleanOldEntries false now s) !! (cachePrefix +:+ key)
       = None) /\
  memoryCache _ _ (cleanOldEntries false now s) = memoryCache _ _ s.
Proof.
  intros Hu Hnd.
  destruct (cleanOldEntries_regular now s Hu) as [Hm Hst].
  split; [|split].
  - rewrite Hm, (fold_delete_filter
                   (fun e => 7 * 24 * 60 * 60 * 1000 <? now - lastAccess (snd e)))
      by exact Hnd.
    apply list_filter_iff. intros e.
    destruct (Z.ltb_spec (7 * 24 * 60 * 60 * 1000) (now - lastAccess (snd e)));
      simpl; rewrite bool_decide_spec; split; (tauto || lia).
  - intros key meta Hin Hold Hkey.
    rewrite Hst.
    + apply fold_delete_lookup. unfold JSMap.keys. apply in_map_iff.
      exists (key, meta). split; [reflexivity|].
      apply list_elem_of_In, list_elem_of_filter. split.
      * simpl. apply Is_true_true, Z.ltb_lt. exact Hold.
      * apply list_elem_of_In, Hin.
    + unfold metadataKey, cachePrefix.
      change "dotsmap_cache_metadata"%string
        with ("dotsmap_cache_" +:+ "metadata")%string.
      intros Heq. apply (inj (String.app "dotsmap_cache_")) in Heq.
      contradiction.
  - apply (cleanOldEntries_memory Data Payload setItemError false now s).
Qed.

(** X16: an entry written by [set] survives a restart: a cache built
    later from the same [localStorage], within seven days of the write,
    answers [get] for the same parameters with the value that was set. *)
Theorem set_survives_restart s (params : Params) (data : Data)
    (dataStr : Payload) (now now' now'' : Z) (maxItems : nat) :
  useLocalStorage _ _ s = true ->
  NoDup (JSMap.keys (metadata _ _ s)) ->
  stringify data = Ok dataStr ->
  parse dataStr = Ok data ->
  0 < strLength dataStr <= 4 * 1024 * 1024 ->
  (forall st key item, setItemError st key item = None) ->
  now' - now <= 7 * 24 * 60 * 60 * 1000 ->
  fst (get params now''
         (new maxItems true (localStorage _ _ (set params data now s)) now'))
  = Some data.
Proof.
  intros Hu Hnd Hstr Hparse [Hlen0 Hlen] Hok Hage.
  destruct (set_stored s params data now dataStr Hu Hstr Hlen Hok)
    as (meta' & Hacc & Hmeta & Hstore).
  set (storage' := localStorage _ _ (set params data now s)) in *.
  pose proof (storageKey_not_metadataKey params) as Hpk.
  unfold Cache.new.
  set (s0 := mkState Data Payload [] maxItems true [] storage').
  assert (Hload : loadMetadata s0 =
            withMetadata _ _ s0
              (JSMap.set (generateKey params) meta' (metadata _ _ s))).
  { unfold Cache.loadMetadata. simpl. subst storage'.
    rewrite Hstore, lookup_insert_eq. reflexivity. }
  rewrite Hload.
  set (s1 := withMetadata _ _ s0 _).
  destruct (cleanOldEntries_regular now' s1 eq_refl) as [_ Hst].
  destruct (cleanOldEntries_memory Data Payload setItemError false now' s1)
    as (Hmem & _ & Huse).
  unfold Cache.get. rewrite Hmem, Huse. simpl JSMap.has. cbv iota.
  simpl useLocalStorage. cbv iota.
  rewrite (Hst _ Hpk). simpl metadata. simpl localStorage.
  rewrite fold_delete_lookup_other.
  - subst storage'. rewrite Hstore.
    rewrite lookup_insert_ne by congruence. rewrite lookup_insert_eq.
    destruct (Z.eqb_spec (strLength dataStr) 0); [lia|].
    rewrite Hparse. reflexivity.
  - intros k Hk Heq. apply (inj (String.app cachePrefix)) in Heq. subst k.
    unfold JSMap.keys in Hk. apply in_map_iff in Hk as ([k m] & Hkey & Hin).
    simpl in Hkey. subst k.
    apply list_elem_of_In, list_elem_of_filter in Hin as [Hstale Hin].
    apply list_elem_of_In in Hin.
    apply set_NoDup_value in Hin; [|exact Hnd]. subst m.
    simpl in Hstale. apply Is_true_true, Z.ltb_lt in Hstale. lia.
Qed.
End CachePersistence.

Lemma set_get_round_trip_witness :
  let s :=
    Cache.run CacheExample.Data CacheExample.Payload CacheExample.stringify
      CacheExample.parse CacheExample.strLength CacheExample.setItemError
      [Cache.OpSet CacheExample.Data CacheExample.mercator 5 0]
      (Cache.new CacheExample.Data CacheExample.Payload
         CacheExample.setItemError 1 true ∅ 0) in
  Cache.get CacheExample.Data CacheExample.Payload CacheExample.parse
    CacheExample.strLength CacheExample.setItemError
    CacheExample.orthographic 2
    (Cache.set CacheExample.Data CacheExample.Payload CacheExample.stringify
       CacheExample.strLength CacheExample.setItemError
       CacheExample.orthographic 7 1 s) =
  (Some 7,
   Cache.set CacheExample.Data CacheExample.Payload CacheExample.stringify
     CacheExample.strLength CacheExample.setItemError
     CacheExample.orthographic 7 1 s).
Proof.
  apply (set_get_round_trip CacheExample.Data CacheExample.Payload
           CacheExample.stringify CacheExample.parse CacheExample.strLength
           CacheExample.setItemError 1 true ∅ 0
           [Cache.OpSet CacheExample.Data CacheExample.mercator 5 0]
           CacheExample.orthographic 7 1 2).
  lia.
Defined.

Lemma cleanOldEntries_keeps_recent_witness :
  Cache.metadata _ _
    (Cache.cleanOldEntries CacheExample.Data CacheExample.Payload
       CacheExample.setItemError false 700000000
       (CacheExample.set CacheExample.mercator 5 0 CacheExample.oneSlot)) = [].
Proof.
  etransitivity.
  - refine (proj1 (cleanOldEntries_keeps_recent CacheExample.Data
              CacheExample.Payload CacheExample.setItemError 700000000
              (CacheExample.set CacheExample.mercator 5 0 CacheExample.oneSlot)
              _ _)).
    + reflexivity.
    + vm_compute. apply NoDup_singleton.
  - vm_compute. reflexivity.
Defined.

Lemma set_survives_restart_witness :
  fst (CacheExample.get CacheExample.mercator 2000
         (CacheExample.new 1 true
            (Cache.localStorage _ _
               (CacheExample.set CacheExample.mercator 5 0 CacheExample.oneSlot))
            1000)) = Some 5.
Proof.
  apply (set_survives_restart CacheExample.Data CacheExample.Payload
           CacheExample.stringify CacheExample.parse CacheExample.strLength
           CacheExample.setItemError CacheExample.oneSlot CacheExample.mercator
           5 5 0 1000 2000 1).
  - reflexivity.
  - vm_compute. apply NoDup_nil_2.
  - reflexivity.
  - reflexivity.
  - vm_compute. split; [reflexivity | discriminate].
  - reflexivity.
  - lia.
Defined.

(** ** What the classifier answers *)

Section ClassifierSound.
Import Geo Classifier.
Context {Feature : Type} `{EqDecision Feature}.
Variable d3 : D3 Feature.
Implicit Types (w : World (Feature:=Feature)) (e : Entry (Feature:=Feature)).

Lemma containsAny_true (c : Feature) (lat : Q) (lons : list Q) :
  containsAny d3 c lat lons = Ok true ->
  exists testLon, In testLon lons /\ geoContains d3 c (testLon, lat) = Ok true.
Proof.
  induction lons as [|l lons IH]; simpl; [discriminate|].
  destruct (geoContains d3 c (l, lat)) as [[|]|name] eqn:E; simpl.
  - intros _. exists l. split; [left; reflexivity | exact E].
  - intros Hc. destruct (IH Hc) as (t & Ht & Hin). exists t. split; [right|]; assumption.
  - discriminate.
Qed.

Lemma firstMatch_Some (test : Entry -> Exc bool)
    (entries : list (Entry (Feature:=Feature))) (c : Feature) :
  firstMatch test entries = Ok (Some c) ->
  exists e, In e entries /\ country e = c /\ test e = Ok true.
Proof.
  induction entries as [|e entries IH]; simpl; [discriminate|].
  destruct (test e) as [[|]|name] eqn:E; simpl.
  - intros [= <-]. exists e. split; [left; reflexivity|]. split; [reflexivity | exact E].
  - intros Hf. destruct (IH Hf) as (e' & Hin & Hc & Ht).
    exists e'. split; [right; exact Hin|]. split; assumption.
  - discriminate.
Qed.

Lemma testLons_cases (lon t : Q) :
  In t (testLons lon) -> In t [lon; (lon - 360)%Q; (lon + 360)%Q].
Proof.
  unfold testLons. destruct (JS.ltb 150 lon), (JS.ltb lon (-150)); simpl; tauto.
Qed.

Lemma alaskaLons_cases (lon t : Q) :
  In t (alaskaLons lon) -> In t [lon; (lon - 360)%Q; (lon + 360)%Q].
Proof.
  unfold alaskaLons. destruct (JS.ltb lon (-170)); simpl; tauto.
Qed.

(** A country that one of the three tiers returns passed a containment
    test at the longitude of the point or one turn away from it, and is
    the country of a circle or of an entry of a grid cell. *)
Lemma classify_sound w (lon lat : Q) (c : Feature) :
  classify d3 w lon lat = Ok (Some c) ->
  (exists e, country e = c /\
     (In e (countryCircles w) \/
      exists p, In e (cellCandidates (spatialGrid w) p))) /\
  exists testLon,
    In testLon [lon; (lon - 360)%Q; (lon + 360)%Q] /\
    geoContains d3 c (testLon, lat) = Ok true.
Proof.
  unfold classify.
  destruct (if JS.ltb 50 lat && JS.ltb lon (-150)
            then firstMatch (alaskaTest d3 lon lat) (countryCircles w)
            else Ok None) as [[a|]|name] eqn:Ha;
    [rewrite bind_Ok | rewrite bind_Ok | rewrite bind_Throw; discriminate].
  { intros [= ->]. destruct (_ && _); [|discriminate Ha].
    apply firstMatch_Some in Ha as (e & Hin & Hc & Ht).
    split; [exists e; split; [exact Hc | left; exact Hin]|].
    unfold alaskaTest in Ht. destruct (decide _); [|discriminate Ht].
    apply containsAny_true in Ht as (t & Hlons & Hgeo).
    exists t. rewrite <- Hc. split; [apply alaskaLons_cases, Hlons | exact Hgeo]. }
  cbv zeta.
  destruct (if JS.ltb 60 (Qabs lat) || (JS.ltb 150 lon || JS.ltb lon (-150))
            then firstMatch (specialTest d3 lon lat) (countryCircles w)
            else Ok None) as [[a|]|name] eqn:Hs;
    [rewrite bind_Ok | rewrite bind_Ok | rewrite bind_Throw; discriminate].
  { intros [= ->]. destruct (_ || _); [|discriminate Hs].
    apply firstMatch_Some in Hs as (e & Hin & Hc & Ht).
    split; [exists e; split; [exact Hc | left; exact Hin]|].
    unfold specialTest in Ht. destruct (isSpecialRegion _); [|discriminate Ht].
    apply containsAny_true in Ht as (t & Hlons & Hgeo).
    exists t. rewrite <- Hc. split; [apply testLons_cases, Hlons | exact Hgeo]. }
  intros Hg. apply firstMatch_Some in Hg as (e & Hin & Hc & Ht).
  split.
  - exists e. split; [exact Hc|]. right.
    unfold candidates in Hin. apply in_flat_map in Hin as (t & _ & Hin). eauto.
  - assert (Hcont : containsAny d3 (country e) lat (testLons lon) = Ok true).
    { unfold generalTest in Ht. revert Ht.
      destruct (isPolar (bounds e) || crossesAntimeridian (bounds e));
        [intros Ht; exact Ht|].
      destruct (withinBounds _ _ _ _); [intros Ht; exact Ht | discriminate]. }
    apply containsAny_true in Hcont as (t & Hlons & Hgeo).
    exists t. rewrite <- Hc. split; [apply testLons_cases, Hlons | exact Hgeo].
Qed.

(** The slow classifier answers with a country only through [classify]. *)
Lemma slow_reaches_classify w (point : Z * Z) (c : Feature) :
  getCountryAtPointSlow d3 w point = Ok (Some c) ->
  exists lon lat,
    invert w point = Ok (Some (JS.Fin lon, JS.Fin lat)) /\
    isValidCoordinate (JS.Fin lon, JS.Fin lat) = true /\
    classify d3 w (wrapLongitude lon) lat = Ok (Some c).
Proof.
  unfold getCountryAtPointSlow, getCountryAtPointSlowBody.
  destruct (invert w point) as [[[lon lat]|]|name] eqn:Hinv;
    [rewrite bind_Ok | rewrite bind_Ok; discriminate
    | rewrite bind_Throw; discriminate].
  destruct (isValidCoordinate (lon, lat)) eqn:Hvalid; [|discriminate].
  destruct (valid_coordinate_finite lon lat Hvalid) as (qlon & qlat & -> & ->).
  cbn [negb]. cbv iota.
  destruct (classify d3 w (wrapLongitude qlon) qlat) as [r|name] eqn:Hcl;
    [|discriminate].
  intros [= ->]. exists qlon, qlat. auto.
Qed.

(** In a world as [initializeWorld] leaves it, the circles and the grid
    cells hold features of the world only. *)
Lemma entry_is_feature w e :
  initialized d3 w ->
  (In e (countryCircles w) \/
   exists p, In e (cellCandidates (spatialGrid w) p)) ->
  In (country e) (features w).
Proof.
  intros Hinit He. pose proof Hinit as [Hcircles _].
  apply buildCountryCircles_flat in Hcircles. simpl in Hcircles.
  destruct He as [He | [p He]].
  - rewrite Hcircles in He. apply in_flat_map in He as (c' & Hc' & He).
    apply in_map_iff in He as (b & <- & _). exact Hc'.
  - rewrite (cellCandidates_grouped d3 w p Hinit) in He.
    apply in_flat_map in He as (c' & Hc' & He).
    apply cellGroup_country in He. congruence.
Qed.

Lemma slow_result_is_feature w (point : Z * Z) (c : Feature) :
  initialized d3 w ->
  getCountryAtPointSlow d3 w point = Ok (Some c) ->
  In c (features w).
Proof.
  intros Hinit Hslow.
  apply slow_reaches_classify in Hslow as (lon & lat & _ & _ & Hcl).
  apply classify_sound in Hcl as [(e & <- & He) _].
  apply entry_is_feature; assumption.
Qed.

(** X17: the slow classifier never names a country that failed its
    containment test: a country it returns is a feature of the world (of a
    world as [initializeWorld] leaves it), the point inverts to a finite
    coordinate with a latitude within 90 degrees, and [d3.geoContains]
    holds for the country at that latitude and the wrapped longitude of
    the point, or that longitude one turn to the west or to the east. *)
Theorem slow_classifier_sound w (point : Z * Z) (c : Feature) :
  initialized d3 w ->
  getCountryAtPointSlow d3 w point = Ok (Some c) ->
  In c (features w) /\
  exists lon lat testLon,
    invert w point = Ok (Some (JS.Fin lon, JS.Fin lat)) /\
    (Qabs lat <= 90)%Q /\
    In testLon [wrapLongitude lon; (wrapLongitude lon - 360)%Q;
                (wrapLongitude lon + 360)%Q] /\
    geoContains d3 c (testLon, lat) = Ok true.
Proof.
  intros Hinit Hslow.
  apply slow_reaches_classify in Hslow as (lon & lat & Hinv & Hvalid & Hcl).
  apply classify_sound in Hcl as [(e & Hc & He) (t & Ht & Hgeo)].
  split.
  - rewrite <- Hc. apply entry_is_feature; assumption.
  - exists lon, lat, t. split; [exact Hinv|]. split; [|split; assumption].
    unfold isValidCoordinate in Hvalid. simpl in Hvalid.
    apply andb_true_iff in Hvalid as [Hvalid _].
    apply leb_le in Hvalid. exact Hvalid.
Qed.
End ClassifierSound.

Lemma slow_classifier_sound_witness :
  In BoxWorld.squareA (Classifier.features BoxWorld.twoSquares).
Proof.
  refine (proj1 (slow_classifier_sound BoxWorld.d3 BoxWorld.twoSquares
                   (185, 85) BoxWorld.squareA _ _)).
  - split; vm_compute; reflexivity.
  - vm_compute. reflexivity.
Defined.

(** ** Bounding circles and grid cells *)

Section Circles.
Import Geo.
Context {Feature : Type}.
Variable d3 : D3 Feature.

(** The sampling loop: [maxDistance] only grows, and ends at least as
    large as the distance of every sample inside the geometry. *)
Lemma foldExc_sampleStep (geometry : Feature) (centroid : Q * Q)
    (points : list (Q * Q)) : forall m0 m,
  foldExc (sampleStep d3 geometry centroid) points m0 = Ok m ->
  (m0 <= m)%Q /\
  forall p, In p points -> geoContains d3 geometry p = Ok true ->
            (geoDistance d3 centroid p <= m)%Q.
Proof.
  induction points as [|p points IH]; simpl; intros m0 m Hfold.
  - injection Hfold as <-. split; [apply Qle_refl | intros p []].
  - destruct (sampleStep d3 geometry centroid m0 p) as [m1|name] eqn:Hstep;
      [rewrite bind_Ok in Hfold | discriminate Hfold].
    destruct (IH _ _ Hfold) as [Hle Hall].
    unfold sampleStep in Hstep.
    destruct (geoContains d3 geometry p) as [[|]|name] eqn:E;
      simpl in Hstep; [| |discriminate Hstep]; injection Hstep as <-.
    + pose proof (Q.le_max_l m0 (geoDistance d3 centroid p)) as Hl.
      pose proof (Q.le_max_r m0 (geoDistance d3 centroid p)) as Hr.
      split; [eapply Qle_trans; eassumption|].
      intros p' [<- | Hin] Hp'; [eapply Qle_trans; eassumption|].
      apply Hall; assumption.
    + split; [exact Hle|].
      intros p' [<- | Hin] Hp'; [congruence|]. apply Hall; assumption.
Qed.

(** X18: when [calculateCircularBounds] returns, it returns one circle or
    two, none with a negative radius; and a circle that was sampled (type
    [standard]) is centred at the centroid and reaches every sample point
    of the bounding box that lies inside the geometry. *)
Theorem calculateCircularBounds_covers_samples (geometry : Feature)
    (bs : list Bounds) (minLon minLat maxLon maxLat : Q) :
  geoBounds d3 geometry = ((minLon, minLat), (maxLon, maxLat)) ->
  calculateCircularBounds d3 geometry = Ok bs ->
  (length bs = 1 \/ length bs = 2)%nat /\
  (forall b, In b bs -> (0 <= radius b)%Q) /\
  (forall b, In b bs -> regionType b = standard ->
     center b = geoCentroid d3 geometry /\
     forall p,
       In p (samplePoints minLon minLat maxLon maxLat (crossesAntimeridian b)
               (if isPolar b then 100 else 50)) ->
       geoContains d3 geometry p = Ok true ->
       (geoDistance d3 (center b) p <= radius b)%Q).
Proof.
  intros Hbounds. unfold calculateCircularBounds. rewrite Hbounds.
  destruct (JS.ltb (snd (geoCentroid d3 geometry)) (-60)).
  { intros [= <-]. split; [left; reflexivity|]. split.
    - intros b [<- | []]. simpl. lra.
    - intros b [<- | []]. discriminate. }
  destruct (_ && _).
  { intros [= <-]. split; [left; reflexivity|]. split.
    - intros b [<- | []]. simpl. lra.
    - intros b [<- | []]. discriminate. }
  destruct (_ && _).
  { intros [= <-]. split; [right; reflexivity|]. split.
    - intros b [<- | [<- | []]]; simpl; [lra|]. unfold Qle. simpl. lia.
    - intros b [<- | [<- | []]]; discriminate. }
  destruct (_ && _).
  { intros [= <-]. split; [left; reflexivity|]. split.
    - intros b [<- | []]. simpl. lra.
    - intros b [<- | []]. discriminate. }
  set (polar := JS.ltb 80 (Qabs minLat) || JS.ltb 80 (Qabs maxLat)).
  set (crosses := JS.ltb maxLon minLon || JS.ltb 350 (maxLon - minLon)).
  destruct (foldExc _ _ _) as [maxDistance|name] eqn:Hfold;
    [rewrite bind_Ok | rewrite bind_Throw; discriminate].
  intros [= <-].
  apply foldExc_sampleStep in Hfold as [Hpos Hall].
  split; [left; reflexivity|]. split.
  - intros b [<- | []]. simpl. destruct crosses; nra.
  - intros b [<- | []] _. simpl. split; [reflexivity|].
    intros p Hp Hin. specialize (Hall p Hp Hin).
    destruct crosses; nra.
Qed.
End Circles.

Lemma calculateCircularBounds_covers_samples_witness :
  (length (Geo.boundsOf BoxWorld.d3 BoxWorld.squareA) = 1 \/
   length (Geo.boundsOf BoxWorld.d3 BoxWorld.squareA) = 2)%nat.
Proof.
  refine (proj1 (calculateCircularBounds_covers_samples BoxWorld.d3
                   BoxWorld.squareA _ 0 0 10 10 _ _)).
  - reflexivity.
  - vm_compute. reflexivity.
Defined.

Lemma floor_grid (x : Q) :
  (inject_Z (JS.floor (x / inject_Z Geo.GRID_SIZE) * Geo.GRID_SIZE) <= x)%Q /\
  (x < inject_Z (JS.floor (x / inject_Z Geo.GRID_SIZE) * Geo.GRID_SIZE + 10))%Q.
Proof.
  unfold JS.floor, Geo.GRID_SIZE. change (inject_Z 10) with 10%Q.
  assert (Hx : (x == 10 * (x / 10))%Q) by field.
  revert Hx. generalize (x / 10)%Q. intros x10 Hx.
  pose proof (Qfloor_le x10) as Hle.
  pose proof (Qlt_floor x10) as Hlt.
  rewrite inject_Z_plus, inject_Z_mult. change (inject_Z 10) with 10%Q.
  rewrite inject_Z_plus in Hlt. change (inject_Z 1) with 1%Q in Hlt.
  split; lra.
Qed.

(** X19: the grid cell of a coordinate.  The latitude key is the corner
    of the 10-degree band of the latitude.  For a longitude in
    [-180, 180) the longitude key is the corner of its 10-degree band, in
    [-180, 170]; the longitude 180 gets the key -180; and a longitude
    in [-360, -180) keeps the corner of its own band as its key, below
    -180: it is not wrapped. *)
Theorem getGridCell_cell (lon lat : Q) :
  let cell := Geo.getGridCell (lon, lat) in
  ((exists k, fst cell = 10 * k) /\
   (inject_Z (fst cell) <= lat)%Q /\ (lat < inject_Z (fst cell + 10))%Q) /\
  ((-180 <= lon)%Q -> (lon < 180)%Q ->
   (exists k, snd cell = 10 * k) /\ -180 <= snd cell <= 170 /\
   (inject_Z (snd cell) <= lon)%Q /\ (lon < inject_Z (snd cell + 10))%Q) /\
  ((lon == 180)%Q -> snd cell = -180) /\
  ((-360 <= lon)%Q -> (lon < -180)%Q ->
   snd cell < -180 /\
   (inject_Z (snd cell) <= lon)%Q /\ (lon < inject_Z (snd cell + 10))%Q).
Proof.
  cbv beta iota zeta delta [Geo.getGridCell fst snd].
  destruct (floor_grid lat) as [Hlat1 Hlat2].
  destruct (floor_grid lon) as [Hlon1 Hlon2].
  revert Hlat1 Hlat2 Hlon1 Hlon2. unfold Geo.GRID_SIZE.
  generalize (JS.floor (lat / inject_Z 10)).
  generalize (JS.floor (lon / inject_Z 10)).
  intros gx gy Hlat1 Hlat2 Hlon1 Hlon2.
  split; [split; [exists gy; ring | split; assumption]|].
  unfold Geo.wrapCell.
  split; [|split].
  - intros Hlo Hhi.
    assert (Hg : -18 <= gx <= 17).
    { split.
      - assert (H : (inject_Z (-180) < inject_Z (gx * 10 + 10))%Q)
          by (change (inject_Z (-180)) with (-180)%Q; lra).
        rewrite <- Zlt_Qlt in H. lia.
      - assert (H : (inject_Z (gx * 10) < inject_Z 180)%Q)
          by (change (inject_Z 180) with 180%Q; lra).
        rewrite <- Zlt_Qlt in H. lia. }
    rewrite Z.rem_small by lia.
    replace (gx * 10 + 180 - 180) with (gx * 10) by ring.
    split; [exists gx; ring|]. split; [lia|]. split; assumption.
  - intros H180.
    assert (Hg : gx = 18).
    { assert (H1 : (inject_Z (gx * 10) <= inject_Z 180)%Q)
        by (change (inject_Z 180) with 180%Q; lra).
      assert (H2 : (inject_Z 180 < inject_Z (gx * 10 + 10))%Q)
        by (change (inject_Z 180) with 180%Q; lra).
      rewrite <- Zle_Qle in H1. rewrite <- Zlt_Qlt in H2. lia. }
    subst gx. reflexivity.
  - intros Hlo Hlow.
    assert (Hg : -36 <= gx < -18).
    { split.
      - assert (H : (inject_Z (-360) < inject_Z (gx * 10 + 10))%Q)
          by (change (inject_Z (-360)) with (-360)%Q; lra).
        rewrite <- Zlt_Qlt in H. lia.
      - assert (H : (inject_Z (gx * 10) < inject_Z (-180))%Q)
          by (change (inject_Z (-180)) with (-180)%Q; lra).
        rewrite <- Zlt_Qlt in H. lia. }
    replace (gx * 10 + 180) with (- (- (gx * 10 + 180))) by ring.
    rewrite Z.rem_opp_l by lia. rewrite Z.rem_small by lia.
    replace (- - (gx * 10 + 180) - 180) with (gx * 10) by ring.
    split; [lia|]. split; assumption.
Qed.

Lemma getGridCell_cell_witness :
  snd (Geo.getGridCell (-185, 65)%Q) < -180.
Proof.
  refine (proj1 (proj2 (proj2 (proj2 (getGridCell_cell (-185) 65))) _ _));
    vm_compute; congruence.
Defined.

(** ** The lookup map *)

Lemma js_range_seq (hi : Z) :
  js_range 0 hi 1 = map Z.of_nat (seq 0 (Z.to_nat hi)).
Proof.
  destruct (Z_le_gt_dec hi 0) as [Hle | Hgt].
  - rewrite js_range_nil by lia. replace (Z.to_nat hi) with 0%nat by lia.
    reflexivity.
  - rewrite <- (Z2Nat.id hi) at 1 by lia.
    induction (Z.to_nat hi) as [|n IH]; [reflexivity|].
    rewrite seq_S, map_app. simpl. rewrite <- IH.
    rewrite (js_range_app 0 (Z.of_nat n) (Z.of_nat (S n)) 1);
      [|lia | exists (Z.of_nat n); lia | lia].
    f_equal. rewrite js_range_cons by lia. rewrite js_range_nil by lia.
    reflexivity.
Qed.

(** Reading a table that was written row by row. *)
Lemma nth_rows {A : Type} (f : nat -> nat -> A) (W : nat) (d : A) (i : nat) :
  (i < W)%nat ->
  forall H s j, (j < H)%nat ->
  nth (j * W + i)
    (flat_map (fun y => map (fun x => f x y) (seq 0 W)) (seq s H)) d
  = f i (s + j)%nat.
Proof.
  intros Hi. induction H as [|H IH]; intros s j Hj; [lia|].
  simpl. destruct j as [|j].
  - rewrite app_nth1 by (rewrite length_map, length_seq; exact Hi).
    rewrite nth_lookup, list_lookup_fmap, lookup_seq_lt by exact Hi.
    simpl. rewrite Nat.add_0_r. reflexivity.
  - rewrite app_nth2 by (rewrite length_map, length_seq; lia).
    rewrite length_map, length_seq.
    replace (S j * W + i - W)%nat with (j * W + i)%nat by lia.
    rewrite IH by lia. f_equal. lia.
Qed.

Section LookupMapFacts.
Import Geo Classifier.
Context {Feature : Type} `{EqDecision Feature}.
Variable d3 : D3 Feature.
Implicit Types (w : World (Feature:=Feature)).

Lemma indexOf_lookup (c : Feature) (l : list Feature) :
  In c l -> 0 <= indexOf c l /\ l !! Z.to_nat (indexOf c l) = Some c.
Proof.
  induction l as [|c' l IH]; simpl; [intros []|].
  intros Hin. destruct (decide (c' = c)) as [-> | Hne];
    [split; [lia | reflexivity]|].
  destruct Hin as [Heq | Hin]; [contradiction|].
  destruct (IH Hin) as [Hpos Hlook].
  destruct (Z.ltb_spec (indexOf c l) 0); [lia|].
  split; [lia|].
  replace (indexOf c l + 1) with (Z.succ (indexOf c l)) by lia.
  rewrite Z2Nat.inj_succ by lia. exact Hlook.
Qed.

Local Abbreviation cellIndex w point :=
  (match getCountryAtPointSlow d3 w point with
   | Ok (Some c) => indexOf c (features w) + 1
   | _ => 0
   end).

(** The index that [buildCountryLookupMap] writes for a pixel, and what
    [getCountryAtPointFast] makes of it. *)
Lemma cellIndex_step w (point : Z * Z) (acc : list Z) :
  (country ← getCountryAtPointSlow d3 w point;
   Ok (acc ++ [match country with
               | Some c => indexOf c (features w) + 1
               | None => 0
               end])) = Ok (acc ++ [cellIndex w point]).
Proof.
  destruct (slow_total d3 w point) as [[c|] ->]; reflexivity.
Qed.

Lemma cellIndex_lookup w (point : Z * Z) :
  initialized d3 w ->
  (if 0 <? cellIndex w point
   then Ok (features w !! Z.to_nat (cellIndex w point - 1))
   else Ok None) = getCountryAtPointSlow d3 w point.
Proof.
  intros Hinit.
  destruct (getCountryAtPointSlow d3 w point) as [[c|]|name] eqn:Hslow.
  - pose proof (slow_result_is_feature d3 w point c Hinit Hslow) as Hin.
    destruct (indexOf_lookup c (features w) Hin) as [Hpos Hlook].
    destruct (Z.ltb_spec 0 (indexOf c (features w) + 1)); [|lia].
    replace (indexOf c (features w) + 1 - 1) with (indexOf c (features w))
      by lia.
    rewrite Hlook. reflexivity.
  - reflexivity.
  - destruct (slow_total d3 w point) as [r Hr]. congruence.
Qed.

Lemma flat_map_singleton {A B : Type} (f : A -> B) (l : list A) :
  flat_map (fun a => [f a]) l = map f l.
Proof. induction l as [|a l IH]; simpl; [|rewrite IH]; reflexivity. Qed.

(** [buildCountryLookupMap] in closed form: it never throws, and the
    table holds the index of every sampled pixel, row after row. *)
Lemma buildCountryLookupMap_table w (width height : Z) (name : string)
    (res : Z) :
  buildCountryLookupMap d3 w width height name res =
  Ok (withLookupMap (withProjection w (setupProjection d3 name width height))
        (mkLookupMap
           (flat_map
              (fun y =>
                 map (fun x =>
                        cellIndex
                          (withProjection w (setupProjection d3 name width height))
                          (x * res, y * res))
                   (js_range 0 (JS.ceil_div width res) 1))
              (js_range 0 (JS.ceil_div height res) 1))
           (JS.ceil_div width res) (JS.ceil_div height res) res)).
Proof.
  unfold buildCountryLookupMap.
  set (w1 := withProjection w _).
  rewrite (foldExc_flat _
    (fun y => map (fun x => cellIndex w1 (x * res, y * res))
                (js_range 0 (JS.ceil_div width res) 1))).
  - rewrite bind_Ok. reflexivity.
  - intros acc y.
    rewrite (foldExc_flat _ (fun x => [cellIndex w1 (x * res, y * res)])).
    + rewrite flat_map_singleton. reflexivity.
    + intros acc' x. apply cellIndex_step.
Qed.

Lemma ceil_div_gt (a x res : Z) :
  1 <= res -> 0 <= x < a -> 0 <= x / res < JS.ceil_div a res.
Proof.
  intros Hres Hx. split; [apply Z.div_pos; lia|].
  unfold JS.ceil_div. apply Z.div_lt_upper_bound; [lia|].
  pose proof (Z.mul_div_le (- a) res). lia.
Qed.

(** X20: the lookup map is the slow classifier, sampled.
    [buildCountryLookupMap] never fails, and for every pixel of the canvas
    [getCountryAtPointFast] then answers what [getCountryAtPointSlow]
    answers, under the projection of the map, for the corner of the
    [resolution]-sized square of the pixel (for fewer than 65536 features,
    so that an index fits its 16-bit cell). *)
Theorem lookup_map_round_trip w (width height : Z) (name : string)
    (res x y : Z) :
  initialized d3 w ->
  Z.of_nat (length (features w)) < 65536 ->
  1 <= res -> 0 <= x < width -> 0 <= y < height ->
  exists w',
    buildCountryLookupMap d3 w width height name res = Ok w' /\
    getCountryAtPointFast d3 w' (x, y) =
    getCountryAtPointSlow d3
      (withProjection w (setupProjection d3 name width height))
      (x / res * res, y / res * res).
Proof.
  intros Hinit _ Hres Hx Hy. eexists. split; [apply buildCountryLookupMap_table|].
  set (w1 := withProjection w _).
  assert (Hinit1 : initialized d3 w1) by exact Hinit.
  destruct (ceil_div_gt width x res Hres Hx) as [Hx0 Hx1].
  destruct (ceil_div_gt height y res Hres Hy) as [Hy0 Hy1].
  unfold getCountryAtPointFast. simpl countryLookupMap. cbv iota.
  simpl resolution. simpl mapWidth. simpl mapHeight. simpl data.
  simpl fst. simpl snd.
  destruct (Z.ltb_spec (x / res) 0); [lia|].
  destruct (Z.leb_spec (JS.ceil_div width res) (x / res)); [lia|].
  destruct (Z.ltb_spec (y / res) 0); [lia|].
  destruct (Z.leb_spec (JS.ceil_div height res) (y / res)); [lia|].
  cbn [orb]. cbv iota.
  rewrite !js_range_seq.
  rewrite flat_map_map.
  assert (Hrow : forall j : nat,
            map (fun x0 => cellIndex w1 (x0 * res, Z.of_nat j * res))
              (map Z.of_nat (seq 0 (Z.to_nat (JS.ceil_div width res)))) =
            map (fun i : nat => cellIndex w1 (Z.of_nat i * res, Z.of_nat j * res))
              (seq 0 (Z.to_nat (JS.ceil_div width res)))).
  { intros j. apply map_map. }
  rewrite (flat_map_ext_all _ _ _ Hrow).
  replace (Z.to_nat (y / res * JS.ceil_div width res + x / res))
    with (Z.to_nat (y / res) * Z.to_nat (JS.ceil_div width res)
          + Z.to_nat (x / res))%nat by nia.
  rewrite (nth_rows
             (fun i j => cellIndex w1 (Z.of_nat i * res, Z.of_nat j * res)))
    by lia.
  simpl Nat.add. rewrite !Z2Nat.id by lia.
  apply (cellIndex_lookup w1 _ Hinit1).
Qed.
End LookupMapFacts.

Lemma lookup_map_round_trip_witness :
  exists w',
    Classifier.buildCountryLookupMap BoxWorld.d3
      (BoxWorld.worldOf [BoxWorld.squareA; BoxWorld.squareB])
      36 18 "geoEquirectangular" 2 = Ok w' /\
    Classifier.getCountryAtPointFast BoxWorld.d3 w' (19, 9) =
    Classifier.getCountryAtPointSlow BoxWorld.d3
      (Classifier.withProjection
         (BoxWorld.worldOf [BoxWorld.squareA; BoxWorld.squareB])
         (Geo.setupProjection BoxWorld.d3 "geoEquirectangular" 36 18))
      (19 / 2 * 2, 9 / 2 * 2).
Proof.
  apply (lookup_map_round_trip BoxWorld.d3
           (BoxWorld.worldOf [BoxWorld.squareA; BoxWorld.squareB])
           36 18 "geoEquirectangular" 2 19 9).
  - split; vm_compute; reflexivity.
  - vm_compute. reflexivity.
  - lia.
  - lia.
  - lia.
Defined.

(** ** Chunk boundaries and the first deduplication pass *)

Lemma contiguous_ends (spacing : Z) (chunks : list Scheduler.Chunk) :
  forall from to,
  Scheduler.contiguous from chunks to ->
  Forall (fun c => exists k, Scheduler.startX c = k * spacing) chunks ->
  Forall (fun c => (exists k, Scheduler.endX c = k * spacing) \/
                   Scheduler.endX c = to) chunks.
Proof.
  induction chunks as [|c rest IH]; intros from to Hc Hal; [constructor|].
  destruct Hc as (_ & _ & Hrest).
  apply Forall_cons_1 in Hal as [_ Hal].
  constructor; [|apply (IH _ _ Hrest Hal)].
  destruct rest as [|c2 rest]; simpl in Hrest.
  - right. exact Hrest.
  - left. destruct Hrest as (Hst & _).
    apply Forall_cons_1 in Hal as [[k Hk] _]. exists k. congruence.
Qed.

(** X21: the chunks tile the canvas from 0 to [width] without a gap or
    an overlap; every chunk starts on a grid column, ends on a grid
    column or at [width], and spans all the rows. *)
Theorem chunks_aligned_contiguous (numWorkers : nat)
    (width height spacing : Z) :
  (1 <= numWorkers)%nat -> 1 <= width -> 1 <= spacing ->
  let chunks := Scheduler.computeChunks numWorkers width height spacing in
  Scheduler.contiguous 0 chunks width /\
  Forall (fun c =>
            (exists k, Scheduler.startX c = k * spacing) /\
            ((exists k, Scheduler.endX c = k * spacing) \/
             Scheduler.endX c = width) /\
            Scheduler.startY c = 0 /\ Scheduler.endY c = height) chunks.
Proof.
  intros Hn Hw Hs chunks.
  pose proof (computeChunks_aligned numWorkers width height spacing Hn Hw Hs)
    as Hal.
  pose proof (computeChunks_rows numWorkers width height spacing) as Hrows.
  fold chunks in Hal, Hrows.
  assert (Hc : Scheduler.contiguous 0 chunks width).
  { destruct (ceil_div_covers width (Z.of_nat numWorkers)) as [Hcw Hcov];
      [lia..|].
    pose proof (chunk_loop_inv width height spacing _ Hw Hs Hcw numWorkers)
      as Hinv.
    subst chunks. unfold Scheduler.chunk_inv, Scheduler.computeChunks in *.
    destruct (fold_left _ _ _) as [cs lastEndX]. simpl in *.
    destruct Hinv as (Hc & _ & Hle & _ & Hmin).
    assert (lastEndX = width) as -> by lia. exact Hc. }
  split; [exact Hc|].
  pose proof (contiguous_ends spacing chunks 0 width Hc Hal) as Hends.
  rewrite Forall_forall in *. intros c Hin.
  split; [apply Hal, Hin|]. split; [apply Hends, Hin | apply Hrows, Hin].
Qed.

Lemma chunks_aligned_contiguous_witness :
  Scheduler.contiguous 0 (Scheduler.computeChunks 3 100 50 7) 100.
Proof.
  refine (proj1 (chunks_aligned_contiguous 3 100 50 7 _ _ _)); lia.
Defined.

(** What the first pass does to one chunk: it keeps it, or takes the
    dots of its leftmost column away. *)
Lemma dropBoundary_column (spacing : Z) (cur next : list Scheduler.Dot) :
  Scheduler.dropBoundary spacing cur next `sublist_of` next /\
  forall d, In d next ->
    In d (Scheduler.dropBoundary spacing cur next) \/
    exists n ns,
      map Scheduler.dot_x next = n :: ns /\
      JS.round (Scheduler.dot_x d) = JS.round (Scheduler.minList n ns).
Proof.
  split; [apply dropBoundary_sublist|].
  intros d Hd. unfold Scheduler.dropBoundary.
  destruct (map Scheduler.dot_x cur) as [|c cs]; [left; exact Hd|].
  destruct (map Scheduler.dot_x next) as [|n ns] eqn:Hnext; [left; exact Hd|].
  destruct (JS.ltb _ _); [|left; exact Hd].
  destruct (Z.eqb_spec (JS.round (Scheduler.dot_x d))
              (JS.round (Scheduler.minList n ns))) as [Heq | Hne].
  - right. exists n, ns. split; [reflexivity | exact Heq].
  - left. apply list_elem_of_In, list_elem_of_filter.
    split; [|apply list_elem_of_In, Hd].
    apply Is_true_true, negb_true_iff, Z.eqb_neq, Hne.
Qed.

Local Abbreviation keepsButColumn :=
  (fun r o : list Scheduler.Dot =>
     o `sublist_of` r /\
     forall d, In d r ->
       In d o \/
       exists n ns,
         map Scheduler.dot_x r = n :: ns /\
         JS.round (Scheduler.dot_x d) = JS.round (Scheduler.minList n ns)).

Lemma boundaryPassFrom_columns (spacing : Z) (rest : list (list Scheduler.Dot)) :
  forall cur0 cur,
  keepsButColumn cur0 cur ->
  Forall2 keepsButColumn (cur0 :: rest)
    (Scheduler.boundaryPassFrom spacing cur rest).
Proof.
  induction rest as [|next rest IH]; simpl; intros cur0 cur Hkeep.
  - constructor; [exact Hkeep | constructor].
  - constructor; [exact Hkeep|].
    apply IH. apply dropBoundary_column.
Qed.

(** X22: the first deduplication pass never touches the first chunk,
    keeps the number of chunks and the order of the dots, and takes from
    any other chunk at most the dots of its leftmost column (the dots
    whose rounded [x] is the rounded minimum [x] of the chunk). *)
Theorem boundaryPass_drops_leftmost_column (spacing : Z)
    (results : list (list Scheduler.Dot)) :
  hd [] (Scheduler.boundaryPass spacing results) = hd [] results /\
  Forall2 (fun r o =>
             o `sublist_of` r /\
             forall d, In d r ->
               In d o \/
               exists n ns,
                 map Scheduler.dot_x r = n :: ns /\
                 JS.round (Scheduler.dot_x d) =
                   JS.round (Scheduler.minList n ns))
    results (Scheduler.boundaryPass spacing results).
Proof.
  destruct results as [|first rest]; [split; [reflexivity | constructor]|].
  simpl Scheduler.boundaryPass. split; [destruct rest; reflexivity|].
  apply boundaryPassFrom_columns. split; [reflexivity | auto].
Qed.

(** ** Result cache: the aggressive clean-up *)

Lemma insertByAccess_perm (e : string * Cache.Meta)
    (l : list (string * Cache.Meta)) :
  Cache.insertByAccess e l ≡ₚ e :: l.
Proof.
  induction l as [|e' l IH]; simpl; [reflexivity|].
  destruct (_ <=? _); [reflexivity|].
  rewrite IH. apply Permutation_swap.
Qed.

Lemma sortByAccess_perm (l : list (string * Cache.Meta)) :
  Cache.sortByAccess l ≡ₚ l.
Proof.
  unfold Cache.sortByAccess. induction l as [|e l IH]; simpl; [reflexivity|].
  rewrite insertByAccess_perm, IH. reflexivity.
Qed.

Lemma insertByAccess_sorted (e : string * Cache.Meta)
    (l : list (string * Cache.Meta)) :
  Housekeeping.sortedByAccess l ->
  Housekeeping.sortedByAccess (Cache.insertByAccess e l).
Proof.
  induction l as [|e' l IH]; simpl; intros Hs.
  - split; [intros e0 []|exact I].
  - destruct Hs as [Hall Hs].
    destruct (Z.leb_spec (Cache.lastAccess (snd e)) (Cache.lastAccess (snd e')))
      as [Hle | Hgt]; simpl.
    + split; [|split; assumption].
      intros e0 [<- | Hin]; [exact Hle|]. specialize (Hall e0 Hin). lia.
    + split; [|apply IH, Hs].
      intros e0 Hin.
      apply list_elem_of_In in Hin. rewrite insertByAccess_perm in Hin.
      apply list_elem_of_In in Hin. destruct Hin as [<- | Hin]; [lia|].
      apply Hall, Hin.
Qed.

Lemma sortByAccess_sorted (l : list (string * Cache.Meta)) :
  Housekeeping.sortedByAccess (Cache.sortByAccess l).
Proof.
  unfold Cache.sortByAccess. induction l as [|e l IH]; simpl; [exact I|].
  apply insertByAccess_sorted, IH.
Qed.

Lemma sorted_take_drop (l : list (string * Cache.Meta)) :
  Housekeeping.sortedByAccess l ->
  forall (h : nat) e e',
    In e (take h l) -> In e' (drop h l) ->
    Cache.lastAccess (snd e) <= Cache.lastAccess (snd e').
Proof.
  induction l as [|e0 l IH]; intros Hs h e e' He He'.
  - destruct h; destruct He.
  - destruct Hs as [Hall Hs]. destruct h as [|h]; [destruct He|].
    simpl in He, He'. destruct He as [<- | He].
    + apply Hall. apply list_elem_of_In.
      eapply elem_of_sublist; [apply list_elem_of_In, He' | apply sublist_drop].
    + apply (IH Hs h); assumption.
Qed.

Lemma filter_all {A : Type} (P : A -> bool) (l : list A) :
  (forall a, In a l -> P a = true) -> filter (fun a => P a) l = l.
Proof.
  induction l as [|a l IH]; intros Hall; [reflexivity|].
  rewrite filter_cons, decide_True
    by (apply Is_true_true, Hall; left; reflexivity).
  rewrite IH; [reflexivity|]. intros a' Ha'. apply Hall. right. exact Ha'.
Qed.

Lemma filter_none {A : Type} (P : A -> bool) (l : list A) :
  (forall a, In a l -> P a = false) -> filter (fun a => P a) l = [].
Proof.
  induction l as [|a l IH]; intros Hall; [reflexivity|].
  rewrite filter_cons, decide_False
    by (rewrite Hall by (left; reflexivity); simpl; tauto).
  apply IH. intros a' Ha'. apply Hall. right. exact Ha'.
Qed.

Lemma keys_filter_sublist {V : Type} (P : string * V -> bool)
    (m : list (string * V)) :
  JSMap.keys (filter (fun e => P e) m) `sublist_of` JSMap.keys m.
Proof.
  unfold JSMap.keys. apply fmap_sublist, sublist_filter.
Qed.

(** On a map without a key twice, [delete] is a filter. *)
Lemma delete_filter {V : Type} (k : string) (m : list (string * V)) :
  NoDup (JSMap.keys m) ->
  JSMap.delete k m = filter (fun e => negb (bool_decide (fst e = k))) m.
Proof.
  induction m as [|[k0 v0] m IH]; intros Hnd; [reflexivity|].
  change (JSMap.keys ((k0, v0) :: m)) with (k0 :: JSMap.keys m) in Hnd.
  apply NoDup_cons in Hnd as [Hk0 Hnd].
  rewrite filter_cons. simpl.
  destruct (decide (k0 = k)) as [-> | Hne].
  - rewrite bool_decide_eq_true_2 by reflexivity.
    rewrite decide_False by (simpl; tauto).
    symmetry. apply filter_all. intros [k' v'] Hin. simpl.
    apply negb_true_iff, bool_decide_eq_false_2. intros ->.
    apply Hk0, list_elem_of_In, in_map_iff. exists (k, v'). auto.
  - rewrite bool_decide_eq_false_2 by exact Hne.
    rewrite decide_True by exact I.
    rewrite IH by exact Hnd. reflexivity.
Qed.

Lemma fold_delete_keys {V : Type} (ks : list string) :
  forall m : list (string * V),
  NoDup (JSMap.keys m) ->
  fold_left (fun m k => JSMap.delete k m) ks m =
  filter (fun e => negb (bool_decide (fst e ∈ ks))) m.
Proof.
  induction ks as [|k ks IH]; intros m Hnd; cbn [fold_left].
  - symmetry.
    apply (filter_all (fun e : string * V => negb (bool_decide (fst e ∈ [])))).
    intros e _.
    apply negb_true_iff, bool_decide_eq_false_2, not_elem_of_nil.
  - rewrite delete_filter by exact Hnd.
    rewrite IH by (eapply sublist_NoDup; [exact Hnd | apply keys_filter_sublist]).
    rewrite list_filter_filter. apply list_filter_iff. intros e.
    rewrite !Is_true_true, !negb_true_iff, !bool_decide_eq_false.
    rewrite elem_of_cons. intuition congruence.
Qed.

Lemma delete_sublist {V : Type} (k : string) (m : list (string * V)) :
  JSMap.delete k m `sublist_of` m.
Proof.
  induction m as [|[k0 v0] m IH]; simpl; [reflexivity|].
  destruct (decide (k0 = k)); [apply sublist_cons; reflexivity|].
  apply sublist_skip, IH.
Qed.

Lemma fold_delete_sublist {V : Type} (ks : list string) :
  forall m : list (string * V),
  fold_left (fun m k => JSMap.delete k m) ks m `sublist_of` m.
Proof.
  induction ks as [|k ks IH]; simpl; intros m; [reflexivity|].
  etransitivity; [apply IH | apply delete_sublist].
Qed.

Lemma fold_delete_lookup_cases {Payload : Type} (pk : string)
    (ks : list string) :
  forall st : gmap string (Cache.Item Payload),
  fold_left (fun st k => delete (Cache.cachePrefix +:+ k) st) ks st !! pk = None \/
  fold_left (fun st k => delete (Cache.cachePrefix +:+ k) st) ks st !! pk
    = st !! pk.
Proof.
  induction ks as [|k ks IH]; simpl; intros st; [right; reflexivity|].
  destruct (IH (delete (Cache.cachePrefix +:+ k) st)) as [-> | ->];
    [left; reflexivity|].
  destruct (decide (Cache.cachePrefix +:+ k = pk)) as [-> | Hne].
  - left. apply lookup_delete_eq.
  - right. apply lookup_delete_ne, Hne.
Qed.

Section CacheHousekeeping.
Import Cache.
Variables Data Payload : Type.
Variable stringify : Data -> Exc Payload.
Variable strLength : Payload -> Z.
Variable setItemError :
  gmap string (Item Payload) -> string -> Item Payload -> option string.

Local Abbreviation State := (Cache.State Data Payload).
Local Abbreviation set := (Cache.set Data Payload stringify strLength setItemError).
Local Abbreviation cleanOldEntries := (Cache.cleanOldEntries Data Payload setItemError).

Implicit Types (s : State).

(** [cleanOldEntries] deletes the entries of a list of keys, and nothing
    else changes. *)
Lemma cleanOldEntries_deletes (aggressive : bool) (now : Z) s :
  exists ks : list string,
    metadata _ _ (cleanOldEntries aggressive now s) =
      fold_left (fun m k => JSMap.delete k m) ks (metadata _ _ s) /\
    (forall pk, pk <> metadataKey ->
       localStorage _ _ (cleanOldEntries aggressive now s) !! pk =
       fold_left (fun st k => delete (cachePrefix +:+ k) st) ks
         (localStorage _ _ s) !! pk) /\
    (useLocalStorage _ _ s = true ->
     ks =
     let maxAge := if aggressive then 1 * 24 * 60 * 60 * 1000
                   else 7 * 24 * 60 * 60 * 1000 in
     let stale :=
       JSMap.keys (filter (fun e : string * Meta =>
                             maxAge <? now - lastAccess (snd e))
                     (metadata _ _ s)) in
     if aggressive && (length stale =? 0)%nat
     then stale ++ JSMap.keys (take (length (metadata _ _ s) / 2)%nat
                                 (sortByAccess (metadata _ _ s)))
     else stale).
Proof.
  unfold Cache.cleanOldEntries.
  destruct (useLocalStorage _ _ s) eqn:Hu; cbn [negb]; cbv iota.
  - cbv zeta.
    match goal with
    | |- context [fold_left (Cache.removeEntry _ _) ?l s] => exists l
    end.
    match goal with
    | |- context [fold_left (Cache.removeEntry _ _) ?l s] =>
        destruct (fold_removeEntry_state Data Payload l s) as [Hm Hst];
        destruct (saveMetadata_persistent Data Payload setItemError
                    (fold_left (Cache.removeEntry Data Payload) l s))
          as [Hm' Hst']
    end.
    destruct (0 <? _)%nat.
    + rewrite Hm', Hm. split; [reflexivity|].
      split; [|intros _; reflexivity].
      intros pk Hpk. rewrite (Hst' pk Hpk), Hst. reflexivity.
    + rewrite Hm, Hst. split; [reflexivity|].
      split; [intros; reflexivity | intros _; reflexivity].
  - exists []. split; [reflexivity|]. split; [intros; reflexivity | discriminate].
Qed.

(** X23: the aggressive clean-up, when no entry is older than a day,
    evicts the least recently accessed half of the entries (rounded
    down): the entries split into the evicted and the kept, no evicted
    entry was accessed later than a kept one, the metadata afterwards
    are the kept entries in their old order, and the stored payloads of
    the evicted entries are gone. *)
Theorem cleanOldEntries_aggressive_evicts_oldest_half (now : Z) s :
  useLocalStorage _ _ s = true ->
  NoDup (JSMap.keys (metadata _ _ s)) ->
  (forall e, In e (metadata _ _ s) ->
     now - lastAccess (snd e) <= 1 * 24 * 60 * 60 * 1000) ->
  exists evicted kept,
    metadata _ _ s ≡ₚ evicted ++ kept /\
    length evicted = (length (metadata _ _ s) / 2)%nat /\
    (forall e e', In e evicted -> In e' kept ->
       lastAccess (snd e) <= lastAccess (snd e')) /\
    metadata _ _ (cleanOldEntries true now s) ≡ₚ kept /\
    metadata _ _ (cleanOldEntries true now s) `sublist_of` metadata _ _ s /\
    (forall e, In e evicted -> fst e <> "metadata"%string ->
       localStorage _ _ (cleanOldEntries true now s) !! (cachePrefix +:+ fst e)
       = None).
Proof.
  intros Hu Hnd Hfresh.
  destruct (cleanOldEntries_deletes true now s) as (ks & Hm & Hst & Hks).
  specialize (Hks Hu). cbv zeta in Hks.
  rewrite (filter_none
             (fun e : string * Meta =>
                1 * 24 * 60 * 60 * 1000 <? now - lastAccess (snd e))) in Hks
    by (intros e He; apply Z.ltb_ge, Hfresh, He).
  simpl in Hks.
  set (sorted := sortByAccess (metadata _ _ s)) in *.
  set (h := (length (metadata _ _ s) / 2)%nat) in *.
  pose proof (sortByAccess_perm (metadata _ _ s)) as Hperm. fold sorted in Hperm.
  assert (Hndk : NoDup (JSMap.keys (take h sorted) ++ JSMap.keys (drop h sorted))).
  { unfold JSMap.keys. rewrite <- map_app, take_drop.
    change (NoDup (fst <$> sorted)). rewrite Hperm. exact Hnd. }
  apply NoDup_app in Hndk as (_ & Hdis & _).
  assert (Hfilter : metadata _ _ (cleanOldEntries true now s) =
            filter (fun e => negb (bool_decide (fst e ∈ ks))) (metadata _ _ s)).
  { rewrite Hm. apply fold_delete_keys. exact Hnd. }
  exists (take h sorted), (drop h sorted).
  split; [rewrite take_drop; symmetry; exact Hperm|].
  split.
  { apply length_take_le. rewrite (Permutation_length Hperm).
    subst h. apply Nat.Div0.div_le_upper_bound. lia. }
  split; [intros e e'; apply sorted_take_drop, sortByAccess_sorted|].
  split; [|split].
  - rewrite Hfilter, <- Hperm. rewrite <- (take_drop h sorted) at 1.
    unfold JSMap.t. rewrite filter_app.
    rewrite (filter_none (fun e => negb (bool_decide (fst e ∈ ks)))).
    + rewrite (filter_all (fun e => negb (bool_decide (fst e ∈ ks))));
        [reflexivity|].
      intros e He. apply negb_true_iff, bool_decide_eq_false_2.
      intros Hin. subst ks. apply (Hdis (fst e) Hin).
      apply list_elem_of_In, in_map. exact He.
    + intros e He. apply negb_false_iff, bool_decide_eq_true_2.
      subst ks. apply list_elem_of_In, in_map. exact He.
  - rewrite Hm. apply fold_delete_sublist.
  - intros e He Hkey. rewrite Hst.
    + apply fold_delete_lookup. subst ks. apply in_map. exact He.
    + unfold metadataKey, cachePrefix.
      change "dotsmap_cache_metadata"%string
        with ("dotsmap_cache_" +:+ "metadata")%string.
      intros Heq. apply (inj (String.app "dotsmap_cache_")) in Heq.
      contradiction.
Qed.

(** X24: a write that the storage refuses for lack of room is not tried
    again after the clean-up that it triggers: [set] leaves no new entry
    in [localStorage] (every key other than the metadata holds what it
    held or nothing) and no new key in the metadata. *)
Theorem set_quota_not_retried s (params : Params) (data : Data)
    (dataStr : Payload) (now : Z) :
  useLocalStorage _ _ s = true ->
  stringify data = Ok dataStr ->
  strLength dataStr <= 4 * 1024 * 1024 ->
  setItemError (localStorage _ _ s) (cachePrefix +:+ generateKey params)
    (PayloadItem _ dataStr) = Some "QuotaExceededError"%string ->
  (forall pk, pk <> metadataKey ->
     localStorage _ _ (set params data now s) !! pk = None \/
     localStorage _ _ (set params data now s) !! pk = localStorage _ _ s !! pk) /\
  metadata _ _ (set params data now s) `sublist_of` metadata _ _ s.
Proof.
  intros Hu Hstr Hsize Hquota. unfold Cache.set.
  destruct (enforceSizeLimit_persistent Data Payload
              (withMemory _ _ s
                 (JSMap.set (generateKey params) data (memoryCache _ _ s))))
    as (Hu1 & Hst1 & Hmeta1).
  set (s1 := Cache.enforceSizeLimit _ _ _) in *. simpl in Hu1, Hst1, Hmeta1.
  rewrite Hu1, Hu, Hstr.
  destruct (Z.ltb_spec (4 * 1024 * 1024) (strLength dataStr)); [lia|].
  unfold Cache.setItem. rewrite Hst1, Hquota.
  unfold Cache.onSetError. simpl String.eqb. cbv iota.
  destruct (cleanOldEntries_deletes true now s1) as (ks & Hm & Hst & _).
  rewrite Hm, Hmeta1. split; [|apply fold_delete_sublist].
  intros pk Hpk. rewrite (Hst pk Hpk), Hst1. apply fold_delete_lookup_cases.
Qed.
End CacheHousekeeping.

Lemma cleanOldEntries_aggressive_evicts_oldest_half_witness :
  let s :=
    CacheExample.set CacheExample.orthographic 7 10
      (CacheExample.set CacheExample.mercator 5 0
         (CacheExample.new 2 true ∅ 0)) in
  exists evicted kept,
    Cache.metadata _ _ s ≡ₚ evicted ++ kept /\
    length evicted = (length (Cache.metadata _ _ s) / 2)%nat /\
    (forall e e', In e evicted -> In e' kept ->
       Cache.lastAccess (snd e) <= Cache.lastAccess (snd e')) /\
    Cache.metadata _ _
      (Cache.cleanOldEntries CacheExample.Data CacheExample.Payload
         CacheExample.setItemError true 20 s) ≡ₚ kept /\
    Cache.metadata _ _
      (Cache.cleanOldEntries CacheExample.Data CacheExample.Payload
         CacheExample.setItemError true 20 s)
      `sublist_of` Cache.metadata _ _ s /\
    (forall e, In e evicted -> fst e <> "metadata"%string ->
       Cache.localStorage _ _
         (Cache.cleanOldEntries CacheExample.Data CacheExample.Payload
            CacheExample.setItemError true 20 s)
         !! (Cache.cachePrefix +:+ fst e) = None).
Proof.
  intros s.
  apply (cleanOldEntries_aggressive_evicts_oldest_half CacheExample.Data
           CacheExample.Payload CacheExample.setItemError 20 s).
  - reflexivity.
  - vm_compute. apply NoDup_cons. split; [|apply NoDup_singleton].
    intros Hin. apply list_elem_of_singleton in Hin. discriminate Hin.
  - intros e He. vm_compute in He.
    destruct He as [<- | [<- | []]]; vm_compute; discriminate.
Defined.

Lemma set_quota_not_retried_witness :
  Cache.metadata _ _
    (Cache.set CacheExample.Data CacheExample.Payload CacheExample.stringify
       CacheExample.strLength
       (fun _ _ _ => Some "QuotaExceededError"%string)
       CacheExample.mercator 5 0 CacheExample.oneSlot)
  `sublist_of` Cache.metadata _ _ CacheExample.oneSlot.
Proof.
  refine (proj2 (set_quota_not_retried CacheExample.Data CacheExample.Payload
                   CacheExample.stringify CacheExample.strLength
                   (fun _ _ _ => Some "QuotaExceededError"%string)
                   CacheExample.oneSlot CacheExample.mercator 5 5 0 _ _ _ _)).
  - reflexivity.
  - reflexivity.
  - vm_compute. discriminate.
  - reflexivity.
Defined.

(** ** The request path of the page *)

Section AppFacts.
Variables Data Payload Pool : Type.
Variable stringify : Data -> Exc Payload.
Variable parse : Payload -> Exc Data.
Variable strLength : Payload -> Z.
Variable setItemError :
  gmap string (Cache.Item Payload) -> string -> Cache.Item Payload ->
  option string.
Variable calculateDotsParallel : Pool -> Cache.Params -> Exc Data * Pool.

Local Abbreviation get := (Cache.get Data Payload parse strLength setItemError).
Local Abbreviation set := (Cache.set Data Payload stringify strLength setItemError).
Local Abbreviation run := (Cache.run Data Payload stringify parse strLength setItemError).
Local Abbreviation new := (Cache.new Data Payload setItemError).
Local Abbreviation calculateDotsOptimized :=
  (App.calculateDotsOptimized Data Payload Pool stringify parse strLength
     setItemError calculateDotsParallel).

(** X25: a request that misses the cache and gets a result from the
    worker pool draws that result and stores it; the same request made
    again (in a cache built for at least one memory entry) is answered
    with that result from the cache, and neither the pool nor the page
    changes any more. *)
Theorem second_request_served_from_cache (maxItems : nat) (useStorage : bool)
    (storage : gmap string (Cache.Item Payload)) (now0 : Z)
    (ops : list (Cache.Op Data)) (pool pool1 : Pool) (params : Cache.Params)
    (result : Data) (t1 t2 t3 t4 : Z) :
  (1 <= maxItems)%nat ->
  let cache0 := run ops (new maxItems useStorage storage now0) in
  fst (get params t1 cache0) = None ->
  calculateDotsParallel pool params = (Ok result, pool1) ->
  exists page1,
    calculateDotsOptimized (App.mkPage Data Payload Pool cache0 pool false)
      params t1 t2 = (App.DrawnComputed Data result, page1) /\
    App.workerPool _ _ _ page1 = pool1 /\
    calculateDotsOptimized page1 params t3 t4 =
      (App.DrawnCached Data result, page1).
Proof.
  intros Hpos cache0 Hmiss Hpool.
  assert (Hb : Cache.bounded Data Payload maxItems
                 (snd (get params t1 cache0))).
  { apply (step_bounded Data Payload stringify parse strLength setItemError
             maxItems cache0 (Cache.OpGet Data params t1)).
    apply run_bounded, new_bounded. }
  unfold App.calculateDotsOptimized. simpl App.isCalculating. cbv iota.
  simpl App.cacheManager. simpl App.workerPool.
  destruct (get params t1 cache0) as [cached cache1] eqn:Hget.
  simpl in Hmiss, Hb. subst cached. rewrite Hpool.
  eexists. split; [reflexivity|]. split; [reflexivity|].
  simpl App.isCalculating. cbv iota. simpl App.cacheManager.
  rewrite (set_get_bounded Data Payload stringify parse strLength setItemError
             maxItems cache1 params result t2 t3 Hpos Hb).
  reflexivity.
Qed.
End AppFacts.

Lemma second_request_served_from_cache_witness :
  exists page1,
    App.calculateDotsOptimized CacheExample.Data CacheExample.Payload unit
      CacheExample.stringify CacheExample.parse CacheExample.strLength
      CacheExample.setItemError (fun pool _ => (Ok 5, pool))
      (App.mkPage CacheExample.Data CacheExample.Payload unit
         (Cache.run CacheExample.Data CacheExample.Payload
            CacheExample.stringify CacheExample.parse CacheExample.strLength
            CacheExample.setItemError []
            (Cache.new CacheExample.Data CacheExample.Payload
               CacheExample.setItemError 1 true ∅ 0)) tt false)
      CacheExample.mercator 1 2 = (App.DrawnComputed CacheExample.Data 5, page1) /\
    App.workerPool _ _ _ page1 = tt /\
    App.calculateDotsOptimized CacheExample.Data CacheExample.Payload unit
      CacheExample.stringify CacheExample.parse CacheExample.strLength
      CacheExample.setItemError (fun pool _ => (Ok 5, pool))
      page1 CacheExample.mercator 3 4 =
      (App.DrawnCached CacheExample.Data 5, page1).
Proof.
  apply (second_request_served_from_cache CacheExample.Data
           CacheExample.Payload unit CacheExample.stringify CacheExample.parse
           CacheExample.strLength CacheExample.setItemError
           (fun pool _ => (Ok 5, pool)) 1 true ∅ 0 [] tt tt
           CacheExample.mercator 5 1 2 3 4).
  - lia.
  - vm_compute. reflexivity.
  - reflexivity.
Defined.

(** ** The dots of the single-worker path *)

Section SequentialFacts.
Import Geo Classifier.
Context {Feature : Type} `{EqDecision Feature}.
Variable d3 : D3 Feature.
Variable nameOf : Feature -> string.
Implicit Types (w : World (Feature:=Feature)) (q : Query) (point : Z * Z).

Lemma pointDots_dot w showOcean (classify : Z * Z -> Exc (option Feature))
    point (d : Scheduler.Dot) :
  In d (Dots.pointDots nameOf w showOcean classify point) ->
  Scheduler.dotKey d = point /\
  Scheduler.dot_x d = inject_Z (fst point) /\
  Scheduler.dot_y d = inject_Z (snd point) /\
  (showOcean = false -> Scheduler.countryName d <> None) /\
  exists lon lat,
    Scheduler.coords d = Some (JS.Fin lon, JS.Fin lat) /\
    invert w point = Ok (Some (JS.Fin lon, JS.Fin lat)) /\
    (Qabs lon <= 180)%Q /\ (Qabs lat <= 90)%Q.
Proof.
  intros Hd.
  destruct (pointDots_cases nameOf w showOcean classify point)
    as [E | (country & coords & _ & Hinv & Hproj & Hocean & E)];
    rewrite E in Hd; [destruct Hd|].
  destruct Hd as [<- | []]. unfold Scheduler.dotKey. simpl.
  rewrite !round_inject_Z.
  split; [destruct point; reflexivity|].
  split; [reflexivity|]. split; [reflexivity|]. split.
  - intros Hs. specialize (Hocean Hs).
    destruct country; [discriminate | congruence].
  - destruct (isPointInProjection_range w _ Hproj)
      as (lon & lat & Hco & Hlon & Hlat).
    rewrite Hinv in Hco. injection Hco as ->.
    exists lon, lat. rewrite Hinv. auto.
Qed.

(** X26: [calculateDots] never fails, whatever [invert] and
    [geoContains] do.  Its dots sit on points of the sampling grid, in the
    order of the grid, no two on the same point; each names a country
    unless ocean dots were asked for, and carries the coordinates that the
    projection of the query inverts its point to: finite, with a
    longitude within 180 degrees and a latitude within 90. *)
Theorem calculateDots_dots_on_grid w q :
  1 <= spacing q ->
  exists dots,
    snd (calculateDots d3 nameOf w q) = Ok dots /\
    map Scheduler.dotKey dots
      `sublist_of` createDotsGrid (spacing q) (width q) (height q) /\
    NoDup (map Scheduler.dotKey dots) /\
    forall d, In d dots ->
      Scheduler.dot_x d = inject_Z (fst (Scheduler.dotKey d)) /\
      Scheduler.dot_y d = inject_Z (snd (Scheduler.dotKey d)) /\
      (showOceanDots q = false -> Scheduler.countryName d <> None) /\
      exists lon lat,
        Scheduler.coords d = Some (JS.Fin lon, JS.Fin lat) /\
        setupProjection d3 (projectionName q) (width q) (height q)
          (Scheduler.dotKey d) = Ok (Some (JS.Fin lon, JS.Fin lat)) /\
        (Qabs lon <= 180)%Q /\ (Qabs lat <= 90)%Q.
Proof.
  intros Hs. eexists. split; [apply calculateDots_dots|].
  split; [apply pointDots_keys|].
  split.
  - eapply sublist_NoDup; [|apply pointDots_keys].
    apply createDotsGrid_NoDup, Hs.
  - intros d Hd. apply in_flat_map in Hd as (p & _ & Hd).
    apply pointDots_dot in Hd as (Hkey & Hx & Hy & Hocean & Hco).
    rewrite Hkey. auto.
Qed.
End SequentialFacts.

Lemma calculateDots_dots_on_grid_witness :
  exists dots,
    snd (Classifier.calculateDots BoxWorld.d3 BoxWorld.boxName
           BoxWorld.twoSquares BoxWorld.globe) = Ok dots /\
    NoDup (map Scheduler.dotKey dots).
Proof.
  destruct (calculateDots_dots_on_grid BoxWorld.d3 BoxWorld.boxName
              BoxWorld.twoSquares BoxWorld.globe)
    as (dots & Hdots & _ & Hnd & _).
  - simpl. lia.
  - exists dots. split; assumption.
Defined.

(** ** Clearing the cache *)

Section ClearFacts.
Import Cache.
Variables Data Payload : Type.
Variable parse : Payload -> Exc Data.
Variable strLength : Payload -> Z.
Variable setItemError :
  gmap string (Item Payload) -> string -> Item Payload -> option string.

Local Abbreviation State := (Cache.State Data Payload).
Local Abbreviation get := (Cache.get Data Payload parse strLength setItemError).
Local Abbreviation clear := (CacheAdmin.clear Data Payload setItemError).

Implicit Types (s : State).

(** X27: after [clear()] every [get] misses and changes nothing, the
    memory tier is empty, and with [localStorage] in use the metadata are
    empty: provided that every payload in [localStorage] has its entry in
    the metadata (a payload without one is not removed). *)
Theorem clear_then_get_misses s (params : Params) (now : Z) :
  (useLocalStorage _ _ s = true ->
   forall p, is_Some (localStorage _ _ s !! (cachePrefix +:+ generateKey p)) ->
             In (generateKey p) (JSMap.keys (metadata _ _ s))) ->
  get params now (clear s) = (None, clear s) /\
  memoryCache _ _ (clear s) = [] /\
  (useLocalStorage _ _ s = true -> metadata _ _ (clear s) = []).
Proof.
  intros Hinv. unfold CacheAdmin.clear. simpl useLocalStorage.
  destruct (useLocalStorage _ _ s) eqn:Hu.
  - specialize (Hinv eq_refl). simpl metadata. simpl localStorage.
    set (storage := fold_left _ _ _).
    set (s1 := withMetadata _ _ (withStorage _ _ (withMemory _ _ s []) storage) []).
    destruct (saveMetadata_persistent Data Payload setItemError s1)
      as [Hmeta Hstore].
    destruct (saveMetadata_memory Data Payload setItemError s1)
      as (Hmem & _ & Huse).
    split; [|split; [rewrite Hmem; reflexivity | intros _; rewrite Hmeta; reflexivity]].
    unfold Cache.get. rewrite Hmem, Huse. simpl JSMap.has. cbv iota.
    simpl useLocalStorage. rewrite Hu.
    rewrite (Hstore _ (storageKey_not_metadataKey params)).
    simpl localStorage.
    assert (Hgone : storage !! (cachePrefix +:+ generateKey params) = None).
    { subst storage.
      destruct (localStorage _ _ s !! (cachePrefix +:+ generateKey params))
        as [item|] eqn:Hlook.
      - apply fold_delete_lookup. apply Hinv. rewrite Hlook. eauto.
      - destruct (fold_delete_lookup_cases (cachePrefix +:+ generateKey params)
                    (JSMap.keys (metadata _ _ s)) (localStorage _ _ s))
          as [Hnone | Hsame]; [exact Hnone|].
        rewrite Hsame. exact Hlook. }
    rewrite Hgone. reflexivity.
  - split; [|split; [reflexivity | discriminate]].
    unfold Cache.get. simpl. rewrite Hu. reflexivity.
Qed.
End ClearFacts.

Lemma clear_then_get_misses_witness :
  Cache.get CacheExample.Data CacheExample.Payload CacheExample.parse
    CacheExample.strLength CacheExample.setItemError CacheExample.mercator 9
    (CacheAdmin.clear CacheExample.Data CacheExample.Payload
       CacheExample.setItemError
       (Cache.mkState CacheExample.Data CacheExample.Payload
          [(Cache.generateKey CacheExample.mercator, 5)] 1 true [] ∅)) =
  (None,
   CacheAdmin.clear CacheExample.Data CacheExample.Payload
     CacheExample.setItemError
     (Cache.mkState CacheExample.Data CacheExample.Payload
        [(Cache.generateKey CacheExample.mercator, 5)] 1 true [] ∅)).
Proof.
  refine (proj1 (clear_then_get_misses CacheExample.Data CacheExample.Payload
                   CacheExample.parse CacheExample.strLength
                   CacheExample.setItemError _ CacheExample.mercator 9 _)).
  intros _ p [item Hitem]. simpl in Hitem. rewrite lookup_empty in Hitem.
  discriminate Hitem.
Defined.

(** ** The fingerprint of a query *)

Local Abbreviation dashFree :=
  (fun s : string =>
     forall c, In c (list_ascii_of_string s) -> String c "" <> "-"%string).

Lemma string_app_assoc (a b c : string) : (a +:+ b) +:+ c = a +:+ b +:+ c.
Proof.
  induction a as [|x a IH]; [reflexivity|].
  change (String x ((a +:+ b) +:+ c) = String x (a +:+ b +:+ c)).
  f_equal. exact IH.
Qed.

(** A string is cut at its last dash in one way only. *)
Lemma cut_at_last_dash (a1 : string) : forall a2 b1 b2,
  dashFree b1 -> dashFree b2 ->
  a1 +:+ "-" +:+ b1 = a2 +:+ "-" +:+ b2 -> a1 = a2 /\ b1 = b2.
Proof.
  induction a1 as [|c1 a1 IH]; intros [|c2 a2] b1 b2 H1 H2 Heq.
  - injection Heq as Heq. change (b1 = b2) in Heq. auto.
  - injection Heq as _ Heq. change (b1 = a2 +:+ "-" +:+ b2) in Heq.
    exfalso. apply (app_dash_neq b1 H1 a2 b2). symmetry. exact Heq.
  - injection Heq as _ Heq. change (a1 +:+ "-" +:+ b1 = b2) in Heq.
    exfalso. apply (app_dash_neq b2 H2 a1 b1). exact Heq.
  - injection Heq as -> Heq. destruct (IH _ _ _ H1 H2 Heq) as [-> ->]. auto.
Qed.

Lemma pretty_N_go_dashFree (x : N) : forall s,
  dashFree s -> dashFree (pretty_N_go x s).
Proof.
  induction (N.lt_wf_0 x) as [x _ IH]; intros s Hs.
  destruct (N.eq_dec x 0%N) as [-> | Hne]; [rewrite pretty_N_go_0; exact Hs|].
  rewrite pretty_N_go_step by lia. apply IH; [apply N.div_lt; lia|].
  intros c [<- | Hc]; [|apply Hs, Hc].
  unfold pretty_N_char. repeat case_match; discriminate.
Qed.

Lemma pretty_Z_dashFree (z : Z) : 0 <= z -> dashFree (pretty z).
Proof.
  intros Hz. destruct z as [|p|p]; [| |lia].
  - intros c [<- | []]. discriminate.
  - change (pretty (Z.pos p)) with (pretty (N.pos p)).
    unfold pretty, pretty_N. destruct (decide (N.pos p = 0%N)); [discriminate|].
    apply pretty_N_go_dashFree. intros c [].
Qed.

Lemma boolToString_dashFree (b : bool) : dashFree (Cache.boolToString b).
Proof.
  destruct b; intros c Hc; simpl in Hc;
    repeat (destruct Hc as [<- | Hc]; [discriminate|]); destruct Hc.
Qed.

(** X28: the fingerprint tells queries apart: two parameter sets whose
    width, height and spacing are not negative have the same cache key
    only if they are the same. *)
Theorem generateKey_injective (p1 p2 : Cache.Params) :
  0 <= Cache.width p1 -> 0 <= Cache.height p1 -> 0 <= Cache.spacing p1 ->
  0 <= Cache.width p2 -> 0 <= Cache.height p2 -> 0 <= Cache.spacing p2 ->
  Cache.generateKey p1 = Cache.generateKey p2 -> p1 = p2.
Proof.
  destruct p1 as [n1 w1 h1 s1 b1], p2 as [n2 w2 h2 s2 b2]. simpl.
  intros Hw1 Hh1 Hs1 Hw2 Hh2 Hs2. unfold Cache.generateKey. simpl.
  intros Heq.
  assert (Hform : forall n w h s b,
            n +:+ "-" +:+ w +:+ "-" +:+ h +:+ "-" +:+ s +:+ "-" +:+ b =
            (((n +:+ "-" +:+ w) +:+ "-" +:+ h) +:+ "-" +:+ s) +:+ "-" +:+ b).
  { intros. rewrite !string_app_assoc. reflexivity. }
  rewrite !Hform in Heq.
  apply cut_at_last_dash in Heq as [Heq Hb];
    [|apply boolToString_dashFree..].
  apply cut_at_last_dash in Heq as [Heq Hs];
    [|apply pretty_Z_dashFree; assumption..].
  apply cut_at_last_dash in Heq as [Heq Hh];
    [|apply pretty_Z_dashFree; assumption..].
  apply cut_at_last_dash in Heq as [Hn Hw];
    [|apply pretty_Z_dashFree; assumption..].
  apply (inj pretty) in Hs, Hh, Hw. subst.
  f_equal. destruct b1, b2; (reflexivity || discriminate Hb).
Qed.

Lemma generateKey_injective_witness :
  CacheExample.mercator = Cache.mkParams "geoMercator" 800 600 10 true.
Proof.
  apply (generateKey_injective CacheExample.mercator
           (Cache.mkParams "geoMercator" 800 600 10 true));
    try (simpl; lia).
  reflexivity.
Defined.

(** Without the condition the fingerprint is not injective: a dash at
    the end of the projection name passes for the sign of the width. *)
Example generateKey_collision :
  Cache.generateKey (Cache.mkParams "a-" 1 2 3 true) =
  Cache.generateKey (Cache.mkParams "a" (-1) 2 3 true).
Proof. vm_compute. reflexivity. Qed.

(** ** Closing the rings of a geometry *)

Lemma normalizePolygon_ok (polygon rings : list Preprocess.Ring) :
  Preprocess.normalizePolygon polygon = Ok rings ->
  length rings = length polygon /\
  Forall Preprocess.closed rings /\
  Preprocess.normalizePolygon rings = Ok rings.
Proof.
  unfold Preprocess.normalizePolygon. intros Hok. apply mapExc_Ok in Hok.
  split; [symmetry; eapply Forall2_length; exact Hok|].
  split.
  - induction Hok as [|ring ring' p r Hr _ IH]; constructor; [|exact IH].
    apply (closeRing_closed _ _ Hr).
  - apply mapExc_fixed.
    induction Hok as [|ring ring' p r Hr _ IH]; constructor; [|exact IH].
    apply (closeRing_closed _ _ Hr).
Qed.

(** X29: when [normalizeGeometry] returns, the geometry has the type it
    had; a geometry that is neither a [Polygon] nor a [MultiPolygon] is
    left alone; a [Polygon] keeps its number of rings and a
    [MultiPolygon] its number of polygons and of rings in each, every
    ring is closed, and normalizing the result again changes nothing. *)
Theorem normalizeGeometry_closes_all_rings (g g' : Preprocess.Geometry) :
  Preprocess.normalizeGeometry g = Ok g' ->
  Preprocess.normalizeGeometry g' = Ok g' /\
  match g, g' with
  | Preprocess.Polygon rings, Preprocess.Polygon rings' =>
      length rings' = length rings /\ Forall Preprocess.closed rings'
  | Preprocess.MultiPolygon polys, Preprocess.MultiPolygon polys' =>
      Forall2 (fun p p' => length p' = length p /\ Forall Preprocess.closed p')
        polys polys'
  | Preprocess.OtherGeometry type, Preprocess.OtherGeometry type' =>
      type' = type
  | _, _ => False
  end.
Proof.
  destruct g as [rings | polys | type]; simpl.
  - destruct (Preprocess.normalizePolygon rings) as [rings'|name] eqn:Hn;
      [rewrite bind_Ok | rewrite bind_Throw; discriminate].
    intros [= <-]. apply normalizePolygon_ok in Hn as (Hlen & Hclosed & Hfix).
    simpl. rewrite Hfix. auto.
  - destruct (Preprocess.mapExc Preprocess.normalizePolygon polys)
      as [polys'|name] eqn:Hn;
      [rewrite bind_Ok | rewrite bind_Throw; discriminate].
    intros [= <-]. apply mapExc_Ok in Hn. simpl. split.
    + rewrite (mapExc_fixed Preprocess.normalizePolygon polys'); [reflexivity|].
      induction Hn as [|p p' ps ps' Hp _ IH]; constructor; [|exact IH].
      apply (normalizePolygon_ok _ _ Hp).
    + induction Hn as [|p p' ps ps' Hp _ IH]; constructor; [|exact IH].
      destruct (normalizePolygon_ok _ _ Hp) as (Hlen & Hclosed & _). auto.
  - intros [= <-]. auto.
Qed.

Lemma normalizeGeometry_closes_all_rings_witness :
  Preprocess.normalizeGeometry
    (Preprocess.MultiPolygon [[[(0, 0); (10, 0); (10, 10); (0, 0)]%Q]]) =
  Ok (Preprocess.MultiPolygon [[[(0, 0); (10, 0); (10, 10); (0, 0)]%Q]]).
Proof.
  refine (proj1 (normalizeGeometry_closes_all_rings
                   (Preprocess.MultiPolygon [[[(0, 0); (10, 0); (10, 10)]%Q]])
                   _ _)).
  reflexivity.
Defined.

(** ** Wrapping the longitudes of a geometry *)

Local Abbreviation wrapped :=
  (fun ring ring' : Preprocess.Ring =>
     length ring' = length ring /\
     forall (i : nat) lon lat, ring !! i = Some (lon, lat) ->
       exists lon', ring' !! i = Some (lon', lat) /\
                    (lon' == wrapLongitude lon)%Q /\
                    (-180 < lon')%Q /\ (lon' <= 180)%Q).



